(** * parse-nyc-address: a shallow embedding of [parseNycAddress]

    The program is one JavaScript function, [parseNycAddress(input)], in
    [dist/parse-nyc-address.js].  It works in four steps: tokenize the input
    with one large regular expression, count the tokens of the house number,
    pop borough / city / country / zip tokens off the end of the token list,
    then assemble the output object and run the Marble Hill checks.

    Characters are modelled as 8-bit [ascii] and strings as [string]; the
    embedding is exact on ASCII input.  (JavaScript strings are UTF-16; the
    Unicode white space and the Unicode case mappings of [\s], [trim] and
    [toUpperCase] lie outside the model, where a byte above 127 is neither
    white space nor a word character and is left alone by upper-casing.)
    Steps 2 to 4 are stated and proved for every list of tokens, whatever
    the tokenizer produced. *)

From Stdlib Require Import Bool List String Ascii Arith ZArith Lia.
Import ListNotations.

Local Open Scope string_scope.
Local Open Scope list_scope.

(** ** Regular expressions

    The source builds every pattern from a string ([new RegExp(...)]) or a
    regular-expression literal.  The patterns are kept as strings here and
    read by [parse_regex], which covers the syntax the source uses:
    literals, [.], [\w \d \s \S \b], escaped literals, bracket classes with
    ranges, capturing groups, [|], [^], [$], [?] on any atom and [*], [+]
    on single-character atoms. *)

Module Re.

Inductive citem : Type :=
| IChar (c : ascii)
| IRange (lo hi : ascii)
| ISpace.

Inductive cclass : Type :=
| CAny
| CWord
| CDigit
| CSpace
| CNotSpace
| CChar (c : ascii)
| CSet (items : list citem).

Inductive regex : Type :=
| Eps
| Atom (c : cclass)
| Seq (r1 r2 : regex)
| Alt (r1 r2 : regex)
| Opt (r : regex)
| Star (c : cclass)
| Plus (c : cclass)
| Grp (n : nat) (r : regex)
| Bnd
| Bol
| Eol.

Definition code (c : ascii) : nat := nat_of_ascii c.

Definition between (lo hi : nat) (c : ascii) : bool :=
  (lo <=? code c)%nat && (code c <=? hi)%nat.

Definition is_digit (c : ascii) : bool := between 48 57 c.

Definition is_upper (c : ascii) : bool := between 65 90 c.

Definition is_lower (c : ascii) : bool := between 97 122 c.

(** [\w] without the unicode flag: [A-Za-z0-9_]. *)
Definition is_word (c : ascii) : bool :=
  is_upper c || is_lower c || is_digit c || (code c =? 95)%nat.

(** [\s] on ASCII: tab, line feed, vertical tab, form feed, carriage
    return, space. *)
Definition is_space (c : ascii) : bool :=
  between 9 13 c || (code c =? 32)%nat.

(** [.] without the [s] flag matches anything but a line terminator. *)
Definition is_line_terminator (c : ascii) : bool :=
  (code c =? 10)%nat || (code c =? 13)%nat.

Definition in_item (i : citem) (c : ascii) : bool :=
  match i with
  | IChar x => Ascii.eqb x c
  | IRange lo hi => between (code lo) (code hi) c
  | ISpace => is_space c
  end.

Definition in_class (cc : cclass) (c : ascii) : bool :=
  match cc with
  | CAny => negb (is_line_terminator c)
  | CWord => is_word c
  | CDigit => is_digit c
  | CSpace => is_space c
  | CNotSpace => negb (is_space c)
  | CChar x => Ascii.eqb x c
  | CSet items => existsb (fun i => in_item i c) items
  end.

(** *** Reading a pattern *)

Record frame : Type := mkFrame {
  f_grp : nat;              (* number of the group this frame builds *)
  f_alts : list regex;      (* finished alternatives, last first *)
  f_seq : list regex        (* atoms of the current alternative, last first *)
}.

Inductive pmode : Type :=
| PNormal
| PEscape
| PClass (items : list citem) (dash : bool)
| PClassEscape (items : list citem).

Record pstate : Type := mkPstate {
  p_stack : list frame;     (* innermost group first *)
  p_next : nat;             (* number of the next capturing group *)
  p_mode : pmode
}.

Definition mk_seq (atoms_rev : list regex) : regex :=
  match atoms_rev with
  | [] => Eps
  | last :: before => fold_left (fun acc a => Seq a acc) before last
  end.

Definition mk_alt (f : frame) : regex :=
  fold_left (fun acc a => Alt a acc) (f_alts f) (mk_seq (f_seq f)).

Definition push_atom (a : regex) (st : pstate) : option pstate :=
  match p_stack st with
  | f :: fs =>
      Some (mkPstate (mkFrame (f_grp f) (f_alts f) (a :: f_seq f) :: fs)
                     (p_next st) PNormal)
  | [] => None
  end.

Definition quantify (q : regex -> option regex) (st : pstate) : option pstate :=
  match p_stack st with
  | f :: fs =>
      match f_seq f with
      | a :: before =>
          match q a with
          | Some a' =>
              Some (mkPstate (mkFrame (f_grp f) (f_alts f) (a' :: before) :: fs)
                             (p_next st) PNormal)
          | None => None
          end
      | [] => None
      end
  | [] => None
  end.

Definition q_opt (a : regex) : option regex := Some (Opt a).

Definition q_star (a : regex) : option regex :=
  match a with Atom c => Some (Star c) | _ => None end.

Definition q_plus (a : regex) : option regex :=
  match a with Atom c => Some (Plus c) | _ => None end.

Definition escape_atom (c : ascii) : regex :=
  match c with
  | "b"%char => Bnd
  | "w"%char => Atom CWord
  | "d"%char => Atom CDigit
  | "s"%char => Atom CSpace
  | "S"%char => Atom CNotSpace
  | _ => Atom (CChar c)
  end.

Definition parse_step (st : pstate) (c : ascii) : option pstate :=
  match p_mode st with
  | PEscape => push_atom (escape_atom c) st
  | PClassEscape items =>
      let i := match c with "s"%char => ISpace | _ => IChar c end in
      Some (mkPstate (p_stack st) (p_next st) (PClass (i :: items) false))
  | PClass items dash =>
      match c with
      | "]"%char =>
          push_atom (Atom (CSet (rev (if dash then IChar "-" :: items else items)))) st
      | "\"%char =>
          if dash then None
          else Some (mkPstate (p_stack st) (p_next st) (PClassEscape items))
      | _ =>
          if dash then
            match items with
            | IChar lo :: before =>
                Some (mkPstate (p_stack st) (p_next st)
                               (PClass (IRange lo c :: before) false))
            | _ => None
            end
          else
            match c, items with
            | "-"%char, IChar _ :: _ =>
                Some (mkPstate (p_stack st) (p_next st) (PClass items true))
            | _, _ =>
                Some (mkPstate (p_stack st) (p_next st) (PClass (IChar c :: items) false))
            end
      end
  | PNormal =>
      match c with
      | "\"%char => Some (mkPstate (p_stack st) (p_next st) PEscape)
      | "["%char => Some (mkPstate (p_stack st) (p_next st) (PClass [] false))
      | "."%char => push_atom (Atom CAny) st
      | "^"%char => push_atom Bol st
      | "$"%char => push_atom Eol st
      | "?"%char => quantify q_opt st
      | "*"%char => quantify q_star st
      | "+"%char => quantify q_plus st
      | "|"%char =>
          match p_stack st with
          | f :: fs =>
              Some (mkPstate (mkFrame (f_grp f) (mk_seq (f_seq f) :: f_alts f) [] :: fs)
                             (p_next st) PNormal)
          | [] => None
          end
      | "("%char =>
          Some (mkPstate (mkFrame (p_next st) [] [] :: p_stack st)
                         (S (p_next st)) PNormal)
      | ")"%char =>
          match p_stack st with
          | f :: (g :: fs) =>
              Some (mkPstate
                      (mkFrame (f_grp g) (f_alts g) (Grp (f_grp f) (mk_alt f) :: f_seq g) :: fs)
                      (p_next st) PNormal)
          | _ => None
          end
      | _ => push_atom (Atom (CChar c)) st
      end
  end.

Fixpoint parse_chars (cs : list ascii) (st : pstate) : option pstate :=
  match cs with
  | [] => Some st
  | c :: cs' =>
      match parse_step st c with
      | Some st' => parse_chars cs' st'
      | None => None
      end
  end.

Definition parse_regex (pattern : string) : option regex :=
  match parse_chars (list_ascii_of_string pattern)
                    (mkPstate [mkFrame 0 [] []] 1 PNormal) with
  | Some (mkPstate [f] _ PNormal) => Some (mk_alt f)
  | _ => None
  end.

(** A pattern that does not parse stands for a regular expression that
    matches nothing; [patterns_parse] below shows no pattern of the
    program is in that case. *)
Definition fail_regex : regex := Atom (CSet []).

Definition re (pattern : string) : regex :=
  match parse_regex pattern with
  | Some r => r
  | None => fail_regex
  end.

(** *** Matching

    A backtracking matcher in continuation-passing style, with the order of
    choices of the ECMAScript semantics: the left alternative first, an
    optional atom taken first, [*] and [+] greedy. *)

Record mstate : Type := mkM {
  m_prev : option ascii;               (* the character before the position *)
  m_rest : list ascii;                 (* the input from the position on *)
  m_caps : list (nat * list ascii)     (* captured groups *)
}.

Definition word_at (o : option ascii) : bool :=
  match o with Some c => is_word c | None => false end.

Definition set_cap (n : nat) (before after : mstate) : mstate :=
  mkM (m_prev after) (m_rest after)
      ((n, firstn (List.length (m_rest before) - List.length (m_rest after)) (m_rest before))
         :: m_caps after).

Fixpoint get_cap (n : nat) (caps : list (nat * list ascii)) : option string :=
  match caps with
  | [] => None
  | (m, s) :: rest =>
      if (m =? n)%nat then Some (string_of_list_ascii s) else get_cap n rest
  end.

Section Matcher.

Variable A : Type.

Fixpoint star_greedy (cc : cclass) (caps : list (nat * list ascii))
    (prev : option ascii) (s : list ascii)
    (k : mstate -> option A) : option A :=
  match s with
  | x :: s' =>
      if in_class cc x then
        match star_greedy cc caps (Some x) s' k with
        | Some a => Some a
        | None => k (mkM prev s caps)
        end
      else k (mkM prev s caps)
  | [] => k (mkM prev s caps)
  end.

Definition step_class (cc : cclass) (st : mstate) (k : mstate -> option A) : option A :=
  match m_rest st with
  | x :: s' => if in_class cc x then k (mkM (Some x) s' (m_caps st)) else None
  | [] => None
  end.

Fixpoint rmatch (r : regex) (st : mstate) (k : mstate -> option A) : option A :=
  match r with
  | Eps => k st
  | Atom cc => step_class cc st k
  | Seq r1 r2 => rmatch r1 st (fun st' => rmatch r2 st' k)
  | Alt r1 r2 =>
      match rmatch r1 st k with
      | Some a => Some a
      | None => rmatch r2 st k
      end
  | Opt r1 =>
      match rmatch r1 st k with
      | Some a => Some a
      | None => k st
      end
  | Star cc => star_greedy cc (m_caps st) (m_prev st) (m_rest st) k
  | Plus cc =>
      step_class cc st (fun st' => star_greedy cc (m_caps st') (m_prev st') (m_rest st') k)
  | Grp n r1 => rmatch r1 st (fun st' => k (set_cap n st st'))
  | Bnd =>
      if xorb (word_at (m_prev st)) (word_at (hd_error (m_rest st)))
      then k st else None
  | Bol => match m_prev st with None => k st | Some _ => None end
  | Eol => match m_rest st with [] => k st | _ :: _ => None end
  end.

End Matcher.

Arguments star_greedy {A} cc caps prev s k.
Arguments step_class {A} cc st k.
Arguments rmatch {A} r st k.

(** One attempt at one position: the state after the match. *)
Definition exec_at (r : regex) (prev : option ascii) (s : list ascii) : option mstate :=
  rmatch r (mkM prev s []) (fun st => Some st).

(** The text a match consumed, given the input it started from. *)
Definition consumed (s : list ascii) (st : mstate) : list ascii :=
  firstn (List.length s - List.length (m_rest st)) s.

(** [RegExp.prototype.exec] on a regular expression without the [g] flag:
    the first position, from the left, where the pattern matches. *)
Fixpoint search_from (r : regex) (prev : option ascii) (s : list ascii)
    : option (list ascii * mstate) :=
  match exec_at r prev s with
  | Some st => Some (s, st)
  | None =>
      match s with
      | [] => None
      | c :: s' => search_from r (Some c) s'
      end
  end.

Definition search (r : regex) (s : string) : option (list ascii * mstate) :=
  search_from r None (list_ascii_of_string s).

(** [regex.test(str)]. *)
Definition test (r : regex) (s : string) : bool :=
  match search r s with Some _ => true | None => false end.

(** [str.match(regex)] with the [g] flag: every match, left to right, each
    attempt starting where the previous match ended (one character further
    after an empty match).  [skip] counts the characters of the current
    position that the previous match has consumed. *)
Fixpoint match_all_from (r : regex) (prev : option ascii) (s : list ascii)
    (skip : nat) : list string :=
  match skip with
  | S n =>
      match s with
      | [] => []
      | c :: s' => match_all_from r (Some c) s' n
      end
  | O =>
      match exec_at r prev s with
      | Some st =>
          let tok := string_of_list_ascii (consumed s st) in
          match s with
          | [] => [tok]
          | c :: s' => tok :: match_all_from r (Some c) s' (List.length (consumed s st) - 1)
          end
      | None =>
          match s with
          | [] => []
          | c :: s' => match_all_from r (Some c) s' 0
          end
      end
  end.

Definition match_all (r : regex) (s : string) : list string :=
  match_all_from r None (list_ascii_of_string s) 0.

(** [str.replace(regex, rep)] with the [g] flag. *)
Fixpoint replace_all_from (r : regex) (rep : list ascii) (prev : option ascii)
    (s : list ascii) (skip : nat) : list ascii :=
  match skip with
  | S n =>
      match s with
      | [] => []
      | c :: s' => replace_all_from r rep (Some c) s' n
      end
  | O =>
      match exec_at r prev s with
      | Some st =>
          match s with
          | [] => rep
          | c :: s' =>
              match List.length (consumed s st) with
              | O => rep ++ c :: replace_all_from r rep (Some c) s' 0
              | S n => rep ++ replace_all_from r rep (Some c) s' n
              end
          end
      | None =>
          match s with
          | [] => []
          | c :: s' => c :: replace_all_from r rep (Some c) s' 0
          end
      end
  end.

(** [str.search(regex)]: the index of the first match, [None] for -1. *)
Definition search_index (r : regex) (s : string) : option nat :=
  match search r s with
  | Some (from, _) => Some (String.length s - List.length from)
  | None => None
  end.

(** The number of capturing groups: a match array has one more entry. *)
Fixpoint group_count (r : regex) : nat :=
  match r with
  | Seq r1 r2 | Alt r1 r2 => group_count r1 + group_count r2
  | Opt r1 => group_count r1
  | Grp _ r1 => S (group_count r1)
  | _ => 0
  end.

Definition replace_all (r : regex) (rep : string) (s : string) : string :=
  string_of_list_ascii
    (replace_all_from r (list_ascii_of_string rep) None (list_ascii_of_string s) 0).

End Re.

(** ** Step 1: the tokenizer *)

Definition saintNames : list string :=
  ["ADALBERT"; "ALBAN"; "ANDREW"; "ANN"; "ANTHONY"; "AUSTIN"; "CHARLES";
   "CLAIR"; "EDWARD"; "FELIX"; "FRANCIS"; "GEORGE"; "JAMES"; "JOHN"; "JOSEPH"; "JUDE";
   "JULIAN"; "LAWRENCE"; "LUKE"; "MARK"; "MARY"; "NICHOLAS"; "OUEN"; "PATRICK"; "PAUL";
   "PETER"; "RAYMOND"; "STEPHEN"; "THERESA"].

(** [boroRegexes], an object with integer keys: [for ... in] and
    [Object.values] visit the keys in ascending order. *)
Definition boroRegexes : list (Z * list string) :=
  [ (1%Z, ["MARBLE ?HI?L?L"]);
    (2%Z, ["THE ?B(RO)?N?X"]);
    (4%Z, ["ADDISLEIGH ?PA?R?K"; "BAYSIDE ?HI?L?LS?"; "BELLE? ?HA?RB(OR)?";
           "BELLE?ROSE( MANOR)"; "BREEZY ?P(OI)?N?T"; "BR(OA)?D ?CHAN(NEL)?";
           "CAMBRIA ?H(EI)?(GH)?TS?"; "COLLEGE ?P(OI)?N?T"; "E(AST)? ?ELMHURST";
           "FA?R ?ROCKAWAY"; "FO?RE?ST ?HI?L?LS?"; "F(OR)?T ?TILDEN";
           "FRE?SH ?M(EA)?DO?WS"; "HOLLIS ?HI?L?LS?"; "HOWARD ?B(EA)?CH";
           "JACKSON ?H(EI)?G?H?TS?"; "(JOHN F.? )?KENNEDY AIRPO?R?T";
           "JFK ?AIRPO?R?T"; "KEW ?GA?RDE?NS?( HI?L?LS?)?"; "LITTLE ?NE?CK";
           "LA ?GUARDIA AIRPO?R?T"; "L(ONG)? ?IS?(LAND)? ?CITY";
           "MID(DLE)? ?VI?L(LA)?GE?"; "OAKLA?ND ?GA?RDE?NS?";
           "(S(OUTH)? )?OZONE ?PA?R?K"; "Q(UEE)?NS ?VI?L(LA)?GE?";
           "REGO ?PA?R?K"; "(S(OUTH)? )?RICHMOND ?HI?L?LS?";
           "ROCHDALE ?VI?L(LA)?GE?"; "ROCKAWAY ?B(EA)?CH"; "ROCKAWAY ?PA?R?K";
           "ROCKAWAY ?P(OI)?N?T"; "S(AIN)?T ?ALBANS?";
           "SPRINGFIELD ?GA?RDE?NS?"; "WAVE ?CRE?ST"]);
    (5%Z, ["STATEN ?ISL?(AND)?"]);
    (6%Z, ["NEW ?YORK( CITY)?"; "NY ?CITY"]);
    (7%Z, ["UNITED STATES( OF AMERICA)"]) ].

(** The JavaScript string literals escape the backslash (['\\w STR(EET)?']);
    the strings below are the patterns those literals denote. *)
Definition multiWordTokens : list string :=
  map (fun x => ("ST\.? " ++ x ++ "'?S?")%string) saintNames
  ++ ["AVE?(NUE)? OF";
      "(BMT.Q.)?AVE?(NUE)? \w"; "FRONT STR(EET)?"; "\w STR(EET)?"; "FRONT R(OA)?D";
      "\w R(OA)?D"; "OF NEW ?YORK"; "OF NY"; "OF MANHATTAN"; "OF THE ?BRONX"; "OF BR?(OO)?KLYN";
      "OF Q(UEE)?NS"; "CE?N?TE?R Q(UEE)?NS"; "OF STATEN ?ISL?(AND)?"; "OF SI"; "PS.?IS 78 Q";
      "HA?R?BO?R BU?I?LDI?N?G Q"; "AIR TRAIN[-A-Z]*"; "ED KOCH"; "UNDER THE"]
  ++ List.concat (map snd boroRegexes).

Definition tokenizerPattern : string :=
  ("\b" ++ String.concat "\b|\b" multiWordTokens ++ "\b|\S+")%string.

Definition tokenizerRegex : Re.regex := Eval vm_compute in Re.re tokenizerPattern.

(** [String.prototype.trim] and [toUpperCase], on ASCII: [trim] takes the
    white space of [is_space] away, and [toUpperCase] maps the letters a to
    z.  (JavaScript also trims the Unicode white space and maps the letters
    beyond ASCII that have an upper-case form; see the head of the file.) *)
Fixpoint trimStart (s : list ascii) : list ascii :=
  match s with
  | c :: s' => if Re.is_space c then trimStart s' else s
  | [] => []
  end.

Definition trim (s : string) : string :=
  string_of_list_ascii (rev (trimStart (rev (trimStart (list_ascii_of_string s))))).

Definition upperChar (c : ascii) : ascii :=
  if Re.is_lower c then ascii_of_nat (Re.code c - 32) else c.

Definition toUpperCase (s : string) : string :=
  string_of_list_ascii (map upperChar (list_ascii_of_string s)).

Definition cleanRegex : Re.regex := Eval vm_compute in Re.re "\.*[\s,]+|\.+$".

(** [input.replace(/\.*[\s,]+|\.+$/g, " ").trim().toUpperCase()] *)
Definition clean (input : string) : string :=
  toUpperCase (trim (Re.replace_all cleanRegex " " input)).

(** [clean(input).match(tokenizerRegex) ?? []]: [match] gives [null] exactly
    when there is no match, which [match_all] renders as the empty list. *)
Definition tokenize (input : string) : list string :=
  Re.match_all tokenizerRegex (clean input).

(** ** Results

    The function either returns its output object or, were [tokens[0]]
    undefined where [tokens[0].includes] is called, throws a [TypeError].
    The two [while] loops are run with fuel; [OutOfFuel] is a loop that
    has not exited when the fuel is spent. *)

Inductive result (A : Type) : Type :=
| Ok (a : A)
| TypeError
| OutOfFuel.

Arguments Ok {A} a.
Arguments TypeError {A}.
Arguments OutOfFuel {A}.

Definition bind {A B : Type} (m : result A) (f : A -> result B) : result B :=
  match m with
  | Ok a => f a
  | TypeError => TypeError
  | OutOfFuel => OutOfFuel
  end.

Notation "x <- m ;; k" := (bind m (fun x => k))
  (at level 61, m at next level, right associativity).

(** [list.includes(t)] *)
Definition includes (l : list string) (t : string) : bool :=
  existsb (String.eqb t) l.

(** [list.includes(tokens[i])], where [tokens[i]] may be [undefined]. *)
Definition includesAt (l : list string) (t : option string) : bool :=
  match t with
  | Some t => includes l t
  | None => false
  end.

(** [tokens[i] ?? ''] *)
Definition orEmpty (t : option string) : string :=
  match t with
  | Some t => t
  | None => ""
  end.

(** [tokens.length - housenumberTokenCount > 1] *)
Definition moreThanOneLeft (tokens : list string) (count : nat) : bool :=
  (Z.of_nat (List.length tokens) - Z.of_nat count >? 1)%Z.

(** ** Step 2: the tokens of the house number *)

Definition housenumberTokens : list string :=
  ["GAR"; "GARAGE"; "REAR"; "AA"; "AB"; "AF"; "AS"; "BA"; "BB";
   "CE"; "ED"; "SF"; "1/2"; "1/3"; "2/3"; "1/4"; "3/4"; "INT"; "INTER"; "UNDER";
   "UNDRGRND"; "UNDERGROUND"; "AIR"; "RIGHT"; "RIGHTS"; "RGHT"; "RGHTS"; "RGT"; "RGTS";
   "E-BLDG"; "W-BLDG"].

Definition ambiguousTokens : list string := ["A"; "B"; "C"; "D"; "FRONT"].

Definition digitRegex : Re.regex := Eval vm_compute in Re.re "\d".

(** [(tokens[0] ?? '').search(/\d/) === 0] *)
Definition beginsWithDigit (tokens : list string) : bool :=
  match Re.search_index digitRegex (orEmpty (nth_error tokens 0)) with
  | Some O => true
  | _ => false
  end.

(** The test of the [if] inside the loop of step 2. *)
Definition absorbs (tokens : list string) (count : nat) : bool :=
  includesAt housenumberTokens (nth_error tokens count)
  || (includesAt ambiguousTokens (nth_error tokens count)
      && includes (housenumberTokens ++ ambiguousTokens)
                  (orEmpty (nth_error tokens (count + 1)))).

Fixpoint housenumberLoop (fuel : nat) (tokens : list string) (count : nat)
    : result nat :=
  match fuel with
  | O => OutOfFuel
  | S fuel' =>
      if (count <? List.length tokens)%nat then
        if absorbs tokens count
        then housenumberLoop fuel' tokens (S count)
        else Ok count
      else Ok count
  end.

Definition countHousenumberTokens (fuel : nat) (tokens : list string) : result nat :=
  if beginsWithDigit tokens then housenumberLoop fuel tokens 1 else Ok 0%nat.

(** ** Step 3: borough, city, state, country and zip code tokens *)

Definition simpleBoros : list (string * Z) :=
  [ ("MANHATTAN", 1); ("M", 1); ("MA", 1); ("MH", 1); ("MN", 1); ("MAN", 1); ("MANH", 1);
    ("BRONX", 2); ("BX", 2); ("BRX", 2); ("BRON", 2);
    ("BROOKLYN", 3); ("BK", 3); ("BRK", 3); ("BKLYN", 3); ("BRKLYN", 3);
    ("QUEENS", 4); ("Q", 4); ("QU", 4); ("QN", 4); ("QNS", 4); ("ARVERNE", 4);
    ("ASTORIA", 4); ("AUBURNDALE", 4); ("BAYSIDE", 4); ("BEECHHURST", 4);
    ("BRIARWOOD", 4); ("CORONA", 4); ("DOUGLASTON", 4); ("EDGEMERE", 4);
    ("ELMHURST", 4); ("FLUSHING", 4); ("GLENDALE", 4); ("HOLLIS", 4); ("JAMAICA", 4);
    ("LAURELTON", 4); ("LIC", 4); ("MALBA", 4); ("MASPETH", 4); ("NEPONSIT", 4);
    ("RIDGEWOOD", 4); ("ROSEDALE", 4); ("SUNNYSIDE", 4); ("WHITESTONE", 4);
    ("WOODHAVEN", 4); ("WOODSIDE", 4);
    ("SI", 5);
    ("NY", 6); ("NYNY", 6); ("NYC", 6);
    ("US", 7); ("USA", 7) ]%Z.

Definition zipPrefixBoros : list (string * Z) :=
  [ ("100", 1); ("101", 1); ("102", 1);
    ("104", 2);
    ("112", 3);
    ("111", 4); ("113", 4); ("114", 4); ("116", 4);
    ("103", 5) ]%Z.

(** [table[key]], [None] for [undefined].  (The keys looked up are upper-case
    tokens and strings of three digits, so no property inherited from
    [Object.prototype] is ever found.) *)
Fixpoint lookup (table : list (string * Z)) (key : string) : option Z :=
  match table with
  | [] => None
  | (k, v) :: rest => if String.eqb k key then Some v else lookup rest key
  end.

Definition orZ (o : option Z) (d : Z) : Z :=
  match o with
  | Some z => z
  | None => d
  end.

(** [wholeStringMatchesPattern(str, pattern)] *)
Definition wholeStringMatchesPattern (str pattern : string) : bool :=
  Re.test (Re.re ("^" ++ pattern ++ "$")%string) str.

Definition zipRegex : Re.regex := Eval vm_compute in Re.re "^(\d\d\d)\d\d".

(** [/^(\d\d\d)\d\d/.exec(finalToken)]: the first group of the match. *)
Definition zipMatches (finalToken : string) : option (option string) :=
  match Re.search zipRegex finalToken with
  | Some (_, st) => Some (Re.get_cap 1 (Re.m_caps st))
  | None => None
  end.

(** The [for (const boroKey in boroRegexes)] loop: the key of the first
    entry one of whose patterns matches the whole token. *)
Fixpoint boroRegexLookup (entries : list (Z * list string)) (finalToken : string)
    : option Z :=
  match entries with
  | [] => None
  | (boroKey, patterns) :: rest =>
      if existsb (wholeStringMatchesPattern finalToken) patterns
      then Some boroKey
      else boroRegexLookup rest finalToken
  end.

(** The variables of step 3. *)
Record scan : Type := mkScan {
  s_tokens : list string;
  s_boro : Z;
  s_zipBoro : Z;
  s_foundNy : bool;
  s_postcode : string
}.

Definition pop (tokens : list string) : list string := removelast tokens.

Definition lastToken (tokens : list string) : string :=
  orEmpty (nth_error tokens (List.length tokens - 1)).

Inductive flow : Type := Continue | Break.

(** [boro = simpleBoros[finalToken] ?? 9], then, when that is 9, the search
    through [boroRegexes]. *)
Definition tokenBoro (finalToken : string) : Z :=
  let boro := orZ (lookup simpleBoros finalToken) 9 in
  if (boro =? 9)%Z then orZ (boroRegexLookup boroRegexes finalToken) 9 else boro.

(** One run of the body of the backwards loop. *)
Definition scanBody (st : scan) : scan * flow :=
  let finalToken := lastToken (s_tokens st) in
  let zip :=
    if (s_zipBoro st =? 9)%Z then zipMatches finalToken else None in
  match zip with
  | Some group1 =>
      (mkScan (pop (s_tokens st)) (s_boro st)
              (orZ (match group1 with Some k => lookup zipPrefixBoros k | None => None end) 7)
              (s_foundNy st) finalToken,
       Continue)
  | None =>
      let boro := tokenBoro finalToken in
      if (boro =? 9)%Z then
        (mkScan (s_tokens st) boro (s_zipBoro st) (s_foundNy st) (s_postcode st), Break)
      else
        let foundNy := if (boro =? 6)%Z then true else s_foundNy st in
        (mkScan (pop (s_tokens st)) boro (s_zipBoro st) foundNy (s_postcode st),
         if (boro <? 6)%Z then Break else Continue)
  end.

Fixpoint scanLoop (fuel : nat) (count : nat) (st : scan) : result scan :=
  match fuel with
  | O => OutOfFuel
  | S fuel' =>
      if moreThanOneLeft (s_tokens st) count then
        match scanBody st with
        | (st', Continue) => scanLoop fuel' count st'
        | (st', Break) => Ok st'
        end
      else Ok st
  end.

Definition scanStart (tokens : list string) : scan := mkScan tokens 9 9 false "".

(** The [if (boro > 5)] after the loop. *)
Definition fallbackBoro (st : scan) : Z :=
  if (s_boro st >? 5)%Z then
    if (s_zipBoro st <? 6)%Z then s_zipBoro st
    else if s_foundNy st then 1%Z
    else s_boro st
  else s_boro st.

(** ** Step 4: house number, street and the Marble Hill checks *)

(** The output object; a key that is not set is [None]. *)
Record output : Type := mkOutput {
  housenumber : option string;
  street : option string;
  borough : option Z;
  postcode : option string;
  marble_hill : option bool
}.

Definition streetTypes : list string := ["ST"; "AV"; "AVE"; "AVENUE"].

(** [tokens.slice(from, to).join(' ')] *)
Definition join (tokens : list string) : string := String.concat " " tokens.

Definition nonEmpty (s : string) : option string :=
  if String.eqb s "" then None else Some s.

(** The [if (housenumberTokenCount > 0)] block: the count once the
    ambiguous token is settled. *)
Definition settleAmbiguous (tokens : list string) (count : nat) : nat :=
  if (0 <? count)%nat then
    if moreThanOneLeft tokens count
       && includes ambiguousTokens (orEmpty (nth_error tokens count))
       && negb (includes streetTypes (orEmpty (nth_error tokens (count + 1))))
    then S count
    else count
  else count.

Definition housenumberText (tokens : list string) (count : nat) : string :=
  join (firstn count tokens).

Definition streetText (tokens : list string) (count : nat) : string :=
  join (skipn count tokens).

(** [parseInt(s)] with no radix: leading white space, a sign, [0x] or [0X]
    for base 16, then the longest run of digits; [None] is [NaN].  The value
    is the exact integer (a double rounds above [2^53], which no comparison
    below depends on). *)
Definition digitValue (radix : Z) (c : ascii) : option Z :=
  let n := Z.of_nat (Re.code c) in
  let v :=
    if Re.is_digit c then Some (n - 48)%Z
    else if Re.is_upper c then Some (n - 55)%Z
    else if Re.is_lower c then Some (n - 87)%Z
    else None in
  match v with
  | Some d => if (d <? radix)%Z then Some d else None
  | None => None
  end.

Fixpoint parseDigits (radix : Z) (acc : option Z) (s : list ascii) : option Z :=
  match s with
  | [] => acc
  | c :: s' =>
      match digitValue radix c with
      | Some d => parseDigits radix (Some (orZ acc 0 * radix + d)%Z) s'
      | None => acc
      end
  end.

Definition parseInt (s : string) : option Z :=
  let s := trimStart (list_ascii_of_string s) in
  let (sign, s) :=
    match s with
    | "-"%char :: s' => ((-1)%Z, s')
    | "+"%char :: s' => (1%Z, s')
    | _ => (1%Z, s)
    end in
  let (radix, s) :=
    match s with
    | "0"%char :: "x"%char :: s' => (16%Z, s')
    | "0"%char :: "X"%char :: s' => (16%Z, s')
    | _ => (10%Z, s)
    end in
  option_map (Z.mul sign) (parseDigits radix None s).

(** Comparisons with a number that may be [NaN]: false on [NaN]. *)
Definition numEq (x : option Z) (y : Z) : bool :=
  match x with Some x => (x =? y)%Z | None => false end.

Definition numGe (x : option Z) (y : Z) : bool :=
  match x with Some x => (x >=? y)%Z | None => false end.

Definition numLe (x : option Z) (y : Z) : bool :=
  match x with Some x => (x <=? y)%Z | None => false end.

(** [str.includes(sub)] and [str.indexOf(sub) === 0] *)
Definition strIncludes (str sub : string) : bool :=
  match index 0 sub str with Some _ => true | None => false end.

Definition indexOfIsZero (str sub : string) : bool :=
  match index 0 sub str with Some O => true | _ => false end.

Definition mhhRegex : Re.regex :=
  Eval vm_compute in Re.re "MARBLE HI?L?L HOUSES( B(UI)?LDI?N?G (\d+))?".

(** [streetText.match(/MARBLE HI?L?L HOUSES( B(UI)?LDI?N?G (\d+))?/)]: the
    captured groups of the first match. *)
Definition mhhMatches (streetText : string) : option (list (nat * list ascii)) :=
  match Re.search mhhRegex streetText with
  | Some (_, st) => Some (Re.m_caps st)
  | None => None
  end.

Definition bronxBuildings : list string := ["4"; "5"; "6"; "11"].

Definition marbleHillStreetRegexes : list string :=
  ["ADRIAN AVE?(NUE)?"; "FO?R?T CHARLES PL(ACE)?";
   "JACOBUS PL(ACE)?"; "TERRACE V(IE)?W AVE?(NUE)?"; "VAN CORLEAR PL(ACE)?";
   "METRO NORTH-MARBLE HI?L?L"; "BROADWAY BRI?DGE?"; "MARBLE HI?L?L LA?NE?";
   "ATMOSPHERE CHARTER SCH(OO)?L?"; "(THE )?SHOPS AT MARBLE HI?L?L";
   "IRT-1-MARBLE HI?L?L-225 STREET"].

Definition west225Pattern : string := "(W(EST)? )?22[578](TH)?( STR?(EET)?)?".

(** The condition of the third check, on [streetText], [housenumberInt]
    and [boro]. *)
Definition thirdCheck (streetText : string) (housenumberInt : option Z) (boro : Z)
    : bool :=
  (String.eqb streetText "BROADWAY"
   && (numEq housenumberInt 5485
       || (numGe housenumberInt 5170 && numLe housenumberInt 5300)
       || (numGe housenumberInt 5301 && numLe housenumberInt 5320 && (boro <? 3)%Z)
       || (numGe housenumberInt 5321 && numLe housenumberInt 5400)
       || (numGe housenumberInt 5401 && numLe housenumberInt 5321 && (boro <? 3)%Z)
       || (numGe housenumberInt 5421 && numLe housenumberInt 5480)))
  || (wholeStringMatchesPattern streetText west225Pattern
      && numGe housenumberInt 40 && numLe housenumberInt 176).

(** [((postcode === '') || (postcode.indexOf('10463') === 0)) && ![3,4,5].includes(boro)] *)
Definition marbleHillApplies (postcode : string) (boro : Z) : bool :=
  (String.eqb postcode "" || indexOfIsZero postcode "10463")
  && negb (existsb (Z.eqb boro) [3; 4; 5]%Z).

(** The three checks, in the order of the source: the borough and the
    [marbleHill] flag they leave.  [mhhMatches.length] is one more than the
    number of groups of the pattern. *)
Definition marbleHillChecks (tokens : list string) (count : nat) (streetText : string)
    (boro : Z) : result (Z * bool) :=
  match mhhMatches streetText with
  | Some caps =>
      if (3 <? S (Re.group_count mhhRegex))%nat
         && includesAt bronxBuildings (Re.get_cap 3 caps)
      then Ok (2%Z, false)
      else Ok (boro, true)
  | None =>
      if existsb (wholeStringMatchesPattern streetText) marbleHillStreetRegexes
      then Ok (boro, true)
      else if (0 <? count)%nat then
        match nth_error tokens 0 with
        | None => TypeError
        | Some token0 =>
            if negb (strIncludes token0 "-") then
              let housenumberInt := parseInt token0 in
              if thirdCheck streetText housenumberInt boro
              then Ok (boro, true)
              else Ok (boro, false)
            else Ok (boro, false)
        end
      else Ok (boro, false)
  end.

Definition marbleHillStep (tokens : list string) (count : nat) (streetText : string)
    (postcode : string) (boro : Z) : result (Z * bool) :=
  if marbleHillApplies postcode boro then
    mh <- marbleHillChecks tokens count streetText boro ;;
    let (boro, marbleHill) := (mh : Z * bool) in
    Ok (if marbleHill then 1%Z else boro, marbleHill)
  else Ok (boro, false).

(** Steps 2 to 4, on the list of tokens. *)
Definition parseTokens (tokens : list string) : result output :=
  let fuel := S (List.length tokens) in
  count <- countHousenumberTokens fuel tokens ;;
  st <- scanLoop fuel count (scanStart tokens) ;;
  let boro := fallbackBoro st in
  let tokens := s_tokens st in
  let count := settleAmbiguous tokens count in
  let housenumber :=
    if (0 <? count)%nat then nonEmpty (housenumberText tokens count) else None in
  let streetText := streetText tokens count in
  mh <- marbleHillStep tokens count streetText (s_postcode st) boro ;;
  let (boro, marbleHill) := (mh : Z * bool) in
  Ok (mkOutput housenumber
               (nonEmpty streetText)
               (if (boro <? 6)%Z then Some boro else None)
               (nonEmpty (s_postcode st))
               (if marbleHill then Some true else None)).

Definition parseNycAddress (input : string) : result output :=
  parseTokens (tokenize input).


(** ** Notions used to state the properties

    These are not part of the program: they say, in the words of the
    specification, what the theorems below relate the program to. *)

(** A token that begins with five digits. *)
Definition beginsWithFiveDigits (t : string) : bool :=
  match t with
  | String a (String b (String c (String d (String e _)))) =>
      Re.is_digit a && Re.is_digit b && Re.is_digit c && Re.is_digit d && Re.is_digit e
  | _ => false
  end.

(** The first three characters of a postal code. *)
Definition zipPrefix (t : string) : string := substring 0 3 t.

(** A token whose first character is a digit. *)
Definition firstCharIsDigit (t : string) : bool :=
  match t with
  | String c _ => Re.is_digit c
  | EmptyString => false
  end.

(** A token that step 3 takes for a zip code or for borough, city, state
    or country evidence. *)
Definition recognised (t : string) : bool :=
  beginsWithFiveDigits t || negb (tokenBoro t =? 9)%Z.

(** The borough the specification expects when no definitive borough token
    was found: the one of the zip prefix when the table has it, else
    Manhattan when a generic "NY" phrase was seen, else none. *)
Definition expectedBorough (postcode : option string) (foundNy : bool) : option Z :=
  match match postcode with
        | Some p => lookup zipPrefixBoros (zipPrefix p)
        | None => None
        end with
  | Some b => Some b
  | None => if foundNy then Some 1%Z else None
  end.

(** The street text names building 4, 5, 6 or 11 of the Marble Hill Houses. *)
Definition mhhBronxBuilding (streetText : string) : bool :=
  match mhhMatches streetText with
  | Some caps => includesAt bronxBuildings (Re.get_cap 3 caps)
  | None => false
  end.

(** The house-number suffix rule of the specification, on a token and the
    token after it. *)
Definition specAbsorbed (t next : string) : bool :=
  includes housenumberTokens t
  || (includes ambiguousTokens t
      && (includes housenumberTokens next || includes ambiguousTokens next)).

(** The ambiguous-token rule of the specification, as the claim words it:
    no mention of whether a house number was found. *)
Definition specSettles (tokens : list string) (count : nat) : bool :=
  (count + 1 <? List.length tokens)%nat
  && includes ambiguousTokens (nth count tokens "")
  && negb (includes streetTypes (nth (count + 1) tokens "")).

(** The text the specification parses again: the house number and the
    street of an output, each empty when absent, with one space between. *)
Definition rejoin (r : output) : string :=
  (orEmpty (housenumber r) ++ " " ++ orEmpty (street r))%string.

(** Step 3, run afresh on [tokens], pops none of them. *)
Definition scanPopsNothing (tokens : list string) (count : nat) : bool :=
  match scanLoop (S (List.length tokens)) count (scanStart tokens) with
  | Ok st => (List.length (s_tokens st) =? List.length tokens)%nat
  | _ => false
  end.

(** ** Invariants of the backwards loop *)

(** The borough variables stay between 1 and 9. *)
Definition borosInRange (st : scan) : Prop :=
  (1 <= s_boro st <= 9)%Z /\ (1 <= s_zipBoro st <= 9)%Z.

(** The three ways through the body of the loop: a zip code is taken, the
    loop stops on a token it does not recognise, or a borough, city,
    state or country token is taken. *)
Inductive bodyCase (st st' : scan) (f : flow) : Prop :=
| TakesZip :
    s_zipBoro st = 9%Z ->
    beginsWithFiveDigits (lastToken (s_tokens st)) = true ->
    st' = mkScan (pop (s_tokens st)) (s_boro st)
                 (orZ (lookup zipPrefixBoros (zipPrefix (lastToken (s_tokens st)))) 7)
                 (s_foundNy st) (lastToken (s_tokens st)) ->
    f = Continue ->
    bodyCase st st' f
| Stops :
    (s_zipBoro st <> 9%Z \/ beginsWithFiveDigits (lastToken (s_tokens st)) = false) ->
    tokenBoro (lastToken (s_tokens st)) = 9%Z ->
    st' = mkScan (s_tokens st) 9 (s_zipBoro st) (s_foundNy st) (s_postcode st) ->
    f = Break ->
    bodyCase st st' f
| TakesBoro :
    (s_zipBoro st <> 9%Z \/ beginsWithFiveDigits (lastToken (s_tokens st)) = false) ->
    tokenBoro (lastToken (s_tokens st)) <> 9%Z ->
    st' = mkScan (pop (s_tokens st)) (tokenBoro (lastToken (s_tokens st)))
                 (s_zipBoro st)
                 (if (tokenBoro (lastToken (s_tokens st)) =? 6)%Z
                  then true else s_foundNy st)
                 (s_postcode st) ->
    f = (if (tokenBoro (lastToken (s_tokens st)) <? 6)%Z then Break else Continue) ->
    bodyCase st st' f.

(** The tokens popped so far, all of them recognised. *)
Definition poppedRecognised (tokens : list string) (st : scan) : Prop :=
  exists popped,
    tokens = s_tokens st ++ popped
    /\ Forall (fun t => recognised t = true) popped.

(** The zip code found so far: none, with no popped token beginning with
    five digits; or the last one, from the end, among the popped tokens. *)
Definition zipFound (tokens : list string) (count : nat) (st : scan) : Prop :=
  exists popped,
    tokens = s_tokens st ++ popped
    /\ ((s_postcode st = "" /\ s_zipBoro st = 9%Z
         /\ Forall (fun t => beginsWithFiveDigits t = false) popped)
        \/ (exists between after,
               popped = between ++ s_postcode st :: after
               /\ beginsWithFiveDigits (s_postcode st) = true
               /\ Forall (fun t => beginsWithFiveDigits t = false) after
               /\ (count < List.length (s_tokens st ++ between))%nat
               /\ s_zipBoro st
                  = orZ (lookup zipPrefixBoros (zipPrefix (s_postcode st))) 7)).

(** The output for a lone token. *)
Definition loneToken (t : string) : output :=
  if firstCharIsDigit t
  then mkOutput (Some t) None None None None
  else mkOutput None (Some t) None None None.

(** ** The words of a regular expression *)

Module ReWords.
Import Re.

(** The words a regular expression can consume, the assertions [\b], [^]
    and [$] taken as always true: every match of the matcher is one of
    them. *)
Fixpoint denote (r : regex) (w : list ascii) : Prop :=
  match r with
  | Eps | Bnd | Bol | Eol => w = []
  | Atom cc => exists c, w = [c] /\ in_class cc c = true
  | Seq r1 r2 => exists u v, w = u ++ v /\ denote r1 u /\ denote r2 v
  | Alt r1 r2 => denote r1 w \/ denote r2 w
  | Opt r1 => w = [] \/ denote r1 w
  | Star cc => forallb (in_class cc) w = true
  | Plus cc =>
      exists c v, w = c :: v /\ in_class cc c = true /\ forallb (in_class cc) v = true
  | Grp _ r1 => denote r1 w
  end.

(** A regular expression that may consume nothing. *)
Fixpoint nullable (r : regex) : bool :=
  match r with
  | Eps | Bnd | Bol | Eol | Star _ => true
  | Atom _ | Plus _ => false
  | Seq r1 r2 => nullable r1 && nullable r2
  | Alt r1 r2 => nullable r1 || nullable r2
  | Opt _ => true
  | Grp _ r1 => nullable r1
  end.

End ReWords.

(** ** A text that the words of a regular expression must, or cannot, contain

    To tell the tokens from the street names of the Marble Hill checks, a
    small automaton looks for a fixed text, the mark, in a word, and
    [post] computes, from the regular expression alone, the states the
    automaton can be in after any word the expression can consume. *)

Module Mark.
Import Re.

Definition all_ascii : list ascii :=
  Eval vm_compute in map ascii_of_nat (seq 0 256).

Fixpoint dedup (l : list nat) : list nat :=
  match l with
  | [] => []
  | q :: l' => if existsb (Nat.eqb q) l' then dedup l' else q :: dedup l'
  end.

Definition subset (l1 l2 : list nat) : bool :=
  forallb (fun q => existsb (Nat.eqb q) l2) l1.

(** The characters of a class. *)
Definition class_chars (cc : cclass) : list ascii :=
  match cc with
  | CChar c => [c]
  | _ => filter (in_class cc) all_ascii
  end.

Section Automaton.

Variable mark : list ascii.

Definition final : nat := List.length mark.

(** One step: state [q] is the number of characters of the mark read so
    far; the final state is kept. *)
Definition mstep (q : nat) (x : ascii) : nat :=
  if (final <=? q)%nat then final
  else if Ascii.eqb (nth q mark x) x then S q
  else if Ascii.eqb (hd x mark) x then Nat.min 1 final
  else 0%nat.

Definition run (q : nat) (w : list ascii) : nat := fold_left mstep w q.

Definition states : list nat := seq 0 (S final).

(** The states after one character of the class [cc]. *)
Definition step_set (cc : cclass) (qs : list nat) : list nat :=
  let chars := class_chars cc in
  dedup (flat_map (fun q => map (mstep q) chars) qs).

Fixpoint grow (cc : cclass) (fuel : nat) (qs : list nat) : list nat :=
  match fuel with
  | O => qs
  | S fuel' => grow cc fuel' (dedup (qs ++ step_set cc qs))
  end.

(** The states after any number of characters of the class [cc]: the
    closure of [qs], or every state should the iteration not have closed. *)
Definition star_set (cc : cclass) (qs : list nat) : list nat :=
  let closure := grow cc (S final) qs in
  if subset (step_set cc closure) closure then closure else qs ++ states.

Fixpoint post (r : regex) (qs : list nat) : list nat :=
  match r with
  | Eps | Bnd | Bol | Eol => qs
  | Atom cc => step_set cc qs
  | Seq r1 r2 => post r2 (post r1 qs)
  | Alt r1 r2 => dedup (post r1 qs ++ post r2 qs)
  | Opt r1 => dedup (qs ++ post r1 qs)
  | Star cc => star_set cc qs
  | Plus cc => star_set cc (step_set cc qs)
  | Grp _ r1 => post r1 qs
  end.

(** Every word of [r], read from any state, ends in the final state. *)
Definition always (r : regex) : bool :=
  forallb (Nat.eqb final) (post r states).

(** No word of [r], read from the start, ends in the final state. *)
Definition never (r : regex) : bool :=
  negb (existsb (Nat.eqb final) (post r [0%nat])).

End Automaton.

End Mark.

(** For each street pattern of the second Marble Hill check, a text that
    every match contains and no token does. *)
Definition mhMarks : list (string * string) :=
  [ ("ADRIAN AVE?(NUE)?", "DRIAN A");
    ("FO?R?T CHARLES PL(ACE)?", "T CHARLES P");
    ("JACOBUS PL(ACE)?", "JACOBUS P");
    ("TERRACE V(IE)?W AVE?(NUE)?", "TERRACE V");
    ("VAN CORLEAR PL(ACE)?", "VAN C");
    ("METRO NORTH-MARBLE HI?L?L", "METRO N");
    ("BROADWAY BRI?DGE?", "BROADWAY B");
    ("MARBLE HI?L?L LA?NE?", "L L");
    ("ATMOSPHERE CHARTER SCH(OO)?L?", "PHERE C");
    ("(THE )?SHOPS AT MARBLE HI?L?L", "HOPS AT");
    ("IRT-1-MARBLE HI?L?L-225 STREET", "-225 STREET") ].

(** The same for the MARBLE HILL HOUSES pattern of the first check. *)
Definition mhhMark : string := " HOUSES".

Definition markApart (r : Re.regex) (mark : string) : bool :=
  Mark.never (list_ascii_of_string mark) tokenizerRegex
  && Mark.always (list_ascii_of_string mark) r.

Definition streetsApart (table : list (string * string)) : bool :=
  forallb (fun pm => markApart (Re.re ("^" ++ fst pm ++ "$")%string) (snd pm)) table.

(** ** Notions used to state further properties of the code *)

(** The state in which step 3 ends once one recognised token was appended
    to tokens of which it pops none: the zip code or the borough of the
    appended token, and the tokens as they were. *)
Definition scanAfter (tokens : list string) (count : nat) (t : string) : scan :=
  if beginsWithFiveDigits t then
    mkScan tokens 9 (orZ (lookup zipPrefixBoros (zipPrefix t)) 7) false t
  else if (tokenBoro t <? 6)%Z then mkScan tokens (tokenBoro t) 9 false ""
  else mkScan tokens (if moreThanOneLeft tokens count then 9%Z else tokenBoro t) 9
              (tokenBoro t =? 6)%Z "".

(** The last alternative of a pattern [a|b|...|z]. *)
Fixpoint lastAlternative (r : Re.regex) : Re.regex :=
  match r with
  | Re.Alt _ r2 => lastAlternative r2
  | _ => r
  end.

(** The characters of a text that are not white space. *)
Definition nonSpaces (s : list ascii) : list ascii :=
  filter (fun c => negb (Re.is_space c)) s.

(** The characters of all the tokens, in order. *)
Definition tokenChars (tokens : list string) : list ascii :=
  List.concat (map list_ascii_of_string tokens).

(** The class [[\s,]] of the pattern that cleans the input. *)
Definition separatorClass : Re.cclass := Re.CSet [Re.ISpace; Re.IChar ","].

(** A character that is no separator, or is the space. *)
Definition separatorFree (c : ascii) : bool :=
  negb (Re.in_class separatorClass c) || Ascii.eqb c " ".

(** A character that is none of the letters a to z and, of the separators,
    can only be the space; a text of such characters. *)
Definition plainChar (c : ascii) : bool :=
  negb (Re.is_lower c) && separatorFree c.

Definition plainText (s : string) : bool :=
  forallb plainChar (list_ascii_of_string s).

(** A regular expression every match of which passes [^] before anything
    else, and one every match of which passes [$] last. *)
Fixpoint needsBol (r : Re.regex) : bool :=
  match r with
  | Re.Bol => true
  | Re.Seq r1 _ => needsBol r1
  | Re.Alt r1 r2 => needsBol r1 && needsBol r2
  | Re.Grp _ r1 => needsBol r1
  | _ => false
  end.

Fixpoint needsEol (r : Re.regex) : bool :=
  match r with
  | Re.Eol => true
  | Re.Seq _ r2 => needsEol r2
  | Re.Alt r1 r2 => needsEol r1 && needsEol r2
  | Re.Grp _ r1 => needsEol r1
  | _ => false
  end.

(** The regular expression that [wholeStringMatchesPattern] builds. *)
Definition wholeRegex (pattern : string) : Re.regex :=
  Re.re ("^" ++ pattern ++ "$")%string.

(** The patterns that the source passes to [wholeStringMatchesPattern]. *)
Definition wholeStringPatterns : list string :=
  List.concat (map snd boroRegexes) ++ marbleHillStreetRegexes ++ [west225Pattern].

(** A class that does not tell a lower-case letter from its upper-case
    form, and a regular expression of such classes. *)
Definition caseBlind (cc : Re.cclass) : bool :=
  forallb (fun c => Bool.eqb (Re.in_class cc (upperChar c)) (Re.in_class cc c))
          Mark.all_ascii.

Fixpoint caseBlindRegex (r : Re.regex) : bool :=
  match r with
  | Re.Atom cc | Re.Star cc | Re.Plus cc => caseBlind cc
  | Re.Seq r1 r2 | Re.Alt r1 r2 => caseBlindRegex r1 && caseBlindRegex r2
  | Re.Opt r1 | Re.Grp _ r1 => caseBlindRegex r1
  | Re.Eps | Re.Bnd | Re.Bol | Re.Eol => true
  end.

(** A state of the matcher on the upper-cased text. *)
Definition upperState (st : Re.mstate) : Re.mstate :=
  Re.mkM (option_map upperChar (Re.m_prev st))
         (map upperChar (Re.m_rest st))
         (map (fun nw => (fst nw, map upperChar (snd nw))) (Re.m_caps st)).

(** A token that stands for one of the five boroughs, and one that is a
    generic "New York" phrase (code 6). *)
Definition definitiveBorough (t : string) : bool := (tokenBoro t <? 6)%Z.

Definition nyPhrase (t : string) : bool := (tokenBoro t =? 6)%Z.

(** Every word of [r] that is not empty begins with a character of [P]. *)
Fixpoint firstOk (P : ascii -> bool) (r : Re.regex) : bool :=
  match r with
  | Re.Eps | Re.Bnd | Re.Bol | Re.Eol => true
  | Re.Atom cc | Re.Star cc | Re.Plus cc =>
      forallb (fun c => implb (Re.in_class cc c) (P c)) Mark.all_ascii
  | Re.Seq r1 r2 => firstOk P r1 && (negb (ReWords.nullable r1) || firstOk P r2)
  | Re.Alt r1 r2 => firstOk P r1 && firstOk P r2
  | Re.Opt r1 | Re.Grp _ r1 => firstOk P r1
  end.

Definition notDigit (c : ascii) : bool := negb (Re.is_digit c).

(** The flags of the loop of step 3 are those of the tokens it popped:
    [foundNy] tells whether one of them is a generic "New York" phrase, and
    [boro] is 9 or the code of one of them. *)
Definition scanTracks (tokens : list string) (st : scan) : Prop :=
  exists popped,
    tokens = s_tokens st ++ popped
    /\ s_foundNy st = existsb nyPhrase popped
    /\ (s_boro st = 9%Z \/ exists t, In t popped /\ s_boro st = tokenBoro t).

(** A period, a white-space character or a comma: the characters of the
    matches of the pattern that cleans the input. *)
Definition punctuation (c : ascii) : bool :=
  Re.in_class (Re.CChar ".") c || Re.in_class separatorClass c.

(** The characters of a text other than periods, white space and commas. *)
Definition inputText (s : list ascii) : list ascii :=
  filter (fun c => negb (punctuation c)) s.

(** An ASCII character, and a text of ASCII characters. *)
Definition asciiChar (c : ascii) : bool := (Re.code c <? 128)%nat.

Definition asciiText (s : string) : bool :=
  forallb asciiChar (list_ascii_of_string s).

(** ** The examples of the source and its test suite *)

Definition out (h s : option string) (b : option Z) (p : option string)
    (m : option bool) : result output :=
  Ok (mkOutput h s b p m).

Example patterns_parse :
  forallb (fun p => match Re.parse_regex p with Some _ => true | None => false end)
    (tokenizerPattern :: "\.*[\s,]+|\.+$" :: "\d" :: "^(\d\d\d)\d\d"
       :: "MARBLE HI?L?L HOUSES( B(UI)?LDI?N?G (\d+))?"
       :: map (fun p => ("^" ++ p ++ "$")%string)
              (west225Pattern :: marbleHillStreetRegexes
                 ++ List.concat (map snd boroRegexes)))
  = true.
Proof. vm_compute. reflexivity. Qed.

Example test_one_word_street :
  parseNycAddress "123 broadway" = out (Some "123") (Some "BROADWAY") None None None.
Proof. vm_compute. reflexivity. Qed.

Example test_suffix_multi_word_street :
  parseNycAddress "55 D DR M L KING JR BOULEVARD"
  = out (Some "55 D") (Some "DR M L KING JR BOULEVARD") None None None.
Proof. vm_compute. reflexivity. Qed.

Example test_all_digit_street :
  parseNycAddress "72 18" = out (Some "72") (Some "18") None None None.
Proof. vm_compute. reflexivity. Qed.

Example test_irregular_borough :
  parseNycAddress "1010 D STREET THE BRONX"
  = out (Some "1010") (Some "D STREET") (Some 2%Z) None None.
Proof. vm_compute. reflexivity. Qed.

Example test_directional_prefix :
  parseNycAddress "8 E BROADWAY" = out (Some "8") (Some "E BROADWAY") None None None.
Proof. vm_compute. reflexivity. Qed.

Example test_saint_ambiguity :
  parseNycAddress "90 FRONT ST JAMES PLACE"
  = out (Some "90 FRONT") (Some "ST JAMES PLACE") None None None.
Proof. vm_compute. reflexivity. Qed.

Example test_two_suffixes_saint :
  parseNycAddress "655 FRONT A ST. ANNS AVENUE"
  = out (Some "655 FRONT A") (Some "ST ANNS AVENUE") None None None.
Proof. vm_compute. reflexivity. Qed.

Example test_type_prefixed_street :
  parseNycAddress "82 REAR A AVENUE A MH"
  = out (Some "82 REAR A") (Some "AVENUE A") (Some 1%Z) None None.
Proof. vm_compute. reflexivity. Qed.

Example test_abbreviated_borough :
  parseNycAddress "30 cranberry bk"
  = out (Some "30") (Some "CRANBERRY") (Some 3%Z) None None.
Proof. vm_compute. reflexivity. Qed.

Example test_newlines :
  parseNycAddress
    ("1307 " ++ String "013" (" " ++ String "013" (" " ++ String "013" (" REAR"
       ++ String "013" (String "010" ("A" ++ String "013" (String "010"
            (String "013" (String "010" "ST...")))))))))%string
  = out (Some "1307 REAR") (Some "A ST") None None None.
Proof. vm_compute. reflexivity. Qed.

Example test_neighborhood :
  parseNycAddress "189 1/2 A Beach 25th St Far Rockaway"
  = out (Some "189 1/2 A") (Some "BEACH 25TH ST") (Some 4%Z) None None.
Proof. vm_compute. reflexivity. Qed.

Example test_full_postal_address :
  parseNycAddress "30 Cranberry Court Staten Island NY 10309 USA"
  = out (Some "30") (Some "CRANBERRY COURT") (Some 5%Z) (Some "10309") None.
Proof. vm_compute. reflexivity. Qed.

Example test_marble_hill_street :
  parseNycAddress "2 Jacobus Pl., Bronx, New York"
  = out (Some "2") (Some "JACOBUS PL") (Some 1%Z) None (Some true).
Proof. vm_compute. reflexivity. Qed.

Example test_marble_hill_houses_1 :
  parseNycAddress "marble hill houses bldg 1"
  = out None (Some "MARBLE HILL HOUSES BLDG 1") (Some 1%Z) None (Some true).
Proof. vm_compute. reflexivity. Qed.

Example test_west_228th :
  parseNycAddress "165 West 228th St Bronx NY"
  = out (Some "165") (Some "WEST 228TH ST") (Some 1%Z) None (Some true).
Proof. vm_compute. reflexivity. Qed.

(** ** Step 2 terminates and counts a longest prefix *)

Arguments zipMatches : simpl never.
Arguments boroRegexLookup : simpl never.
Arguments lookup : simpl never.
Arguments wholeStringMatchesPattern : simpl never.
Arguments mhhMatches : simpl never.
Arguments absorbs : simpl never.
Arguments beginsWithDigit : simpl never.
Arguments moreThanOneLeft : simpl never.
Arguments thirdCheck : simpl never.
Arguments parseInt : simpl never.
Arguments includes : simpl never.
Arguments tokenBoro : simpl never.

Lemma moreThanOneLeft_spec (tokens : list string) (count : nat) :
  moreThanOneLeft tokens count = true <-> (count + 1 < List.length tokens)%nat.
Proof.
  unfold moreThanOneLeft. rewrite Z.gtb_lt. lia.
Qed.

Lemma housenumberLoop_spec (fuel : nat) (tokens : list string) :
  forall count,
    (List.length tokens - count < fuel)%nat ->
    exists n,
      housenumberLoop fuel tokens count = Ok n
      /\ (count <= n)%nat
      /\ (n <= Nat.max count (List.length tokens))%nat
      /\ (forall i, (count <= i < n)%nat -> absorbs tokens i = true)
      /\ ((n < List.length tokens)%nat -> absorbs tokens n = false).
Proof.
  induction fuel as [|fuel IH]; intros count Hfuel; [lia|].
  simpl. destruct (Nat.ltb_spec count (List.length tokens)) as [Hlt|Hge].
  - destruct (absorbs tokens count) eqn:Habs.
    + destruct (IH (S count)) as (n & Hrun & Hle & Hmax & Hall & Hstop); [lia|].
      exists n. split; [exact Hrun|]. split; [lia|]. split; [lia|].
      split; [|exact Hstop].
      intros i Hi. destruct (Nat.eq_dec i count) as [->|Hne]; auto.
      apply Hall. lia.
    + exists count. split; [reflexivity|]. split; [lia|]. split; [lia|].
      split; [intros i Hi; lia|auto].
  - exists count. split; [reflexivity|]. split; [lia|]. split; [lia|].
    split; intros; lia.
Qed.

Lemma beginsWithDigit_nonempty (tokens : list string) :
  beginsWithDigit tokens = true -> (1 <= List.length tokens)%nat.
Proof.
  destruct tokens as [|t ts]; [vm_compute; discriminate|simpl; lia].
Qed.

Lemma countHousenumberTokens_ok (tokens : list string) :
  exists n,
    countHousenumberTokens (S (List.length tokens)) tokens = Ok n
    /\ (n <= List.length tokens)%nat.
Proof.
  unfold countHousenumberTokens.
  destruct (beginsWithDigit tokens) eqn:Hd.
  - apply beginsWithDigit_nonempty in Hd.
    destruct (housenumberLoop_spec (S (List.length tokens)) tokens 1)
      as (n & Hrun & _ & Hmax & _); [lia|].
    exists n. split; [exact Hrun|lia].
  - exists 0%nat. split; [reflexivity|lia].
Qed.

(** ** Step 3 terminates, pops a suffix and keeps one token for the street *)

Lemma pop_length (tokens : list string) :
  List.length (pop tokens) = (List.length tokens - 1)%nat.
Proof.
  unfold pop. induction tokens as [|t ts IH]; [reflexivity|].
  destruct ts as [|t' ts']; [reflexivity|].
  change (removelast (t :: t' :: ts')) with (t :: removelast (t' :: ts')).
  simpl List.length in *. lia.
Qed.

Lemma pop_last (tokens : list string) :
  tokens <> [] -> tokens = pop tokens ++ [lastToken tokens].
Proof.
  intros Hne. unfold pop, lastToken.
  rewrite (app_removelast_last "" Hne) at 1. f_equal. f_equal.
  rewrite nth_error_nth' with (d := "").
  - simpl. symmetry. rewrite <- (app_nil_l tokens) at 1.
    destruct tokens as [|t ts]; [contradiction|].
    clear Hne. revert t. induction ts as [|t' ts IH]; intros t; [reflexivity|].
    change (last (t :: t' :: ts) "") with (last (t' :: ts) "").
    rewrite <- IH. simpl. rewrite Nat.sub_0_r. reflexivity.
  - destruct tokens; [contradiction|simpl; lia].
Qed.

(** What one run of the loop body does to the token list. *)
Lemma scanBody_tokens (st st' : scan) (f : flow) :
  scanBody st = (st', f) ->
  s_tokens st' = pop (s_tokens st)
  \/ (s_tokens st' = s_tokens st /\ f = Break).
Proof.
  unfold scanBody. intros H.
  destruct (if (s_zipBoro st =? 9)%Z then zipMatches (lastToken (s_tokens st)) else None).
  - inversion H; subst. left. reflexivity.
  - cbv zeta in H. destruct (_ =? 9)%Z in H; inversion H; subst; simpl; auto.
Qed.

Lemma scanLoop_terminates (count : nat) (fuel : nat) :
  forall st, (List.length (s_tokens st) < fuel)%nat ->
             exists st', scanLoop fuel count st = Ok st'.
Proof.
  induction fuel as [|fuel IH]; intros st Hfuel; [lia|].
  simpl. destruct (moreThanOneLeft (s_tokens st) count) eqn:Hmore; [|eauto].
  apply moreThanOneLeft_spec in Hmore.
  destruct (scanBody st) as [st' f] eqn:Hbody.
  destruct f; [|eauto].
  apply IH. apply scanBody_tokens in Hbody.
  destruct Hbody as [Hpop|[_ Hbreak]]; [|discriminate].
  rewrite Hpop, pop_length. lia.
Qed.

(** The fuel only bounds the number of iterations: a loop that has
    returned returns the same with any larger fuel. *)
Lemma housenumberLoop_more_fuel (tokens : list string) (fuel : nat) :
  forall fuel' count n,
    (fuel <= fuel')%nat ->
    housenumberLoop fuel tokens count = Ok n ->
    housenumberLoop fuel' tokens count = Ok n.
Proof.
  induction fuel as [|fuel IH]; intros fuel' count n Hle Hrun; [discriminate|].
  destruct fuel' as [|fuel']; [lia|]. simpl in *.
  destruct (count <? List.length tokens)%nat; [|exact Hrun].
  destruct (absorbs tokens count); [|exact Hrun].
  apply IH; [lia|exact Hrun].
Qed.

Lemma scanLoop_more_fuel (count fuel : nat) :
  forall fuel' st st',
    (fuel <= fuel')%nat ->
    scanLoop fuel count st = Ok st' ->
    scanLoop fuel' count st = Ok st'.
Proof.
  induction fuel as [|fuel IH]; intros fuel' st st' Hle Hrun; [discriminate|].
  destruct fuel' as [|fuel']; [lia|]. simpl in *.
  destruct (moreThanOneLeft (s_tokens st) count); [|exact Hrun].
  destruct (scanBody st) as [st1 f]. destruct f; [|exact Hrun].
  apply IH; [lia|exact Hrun].
Qed.

(** Invariants of the loop: a property that the body keeps whenever the
    loop test holds is true of the final state. *)
Lemma scanLoop_invariant (count : nat) (P : scan -> Prop) :
  (forall st st' f,
      moreThanOneLeft (s_tokens st) count = true ->
      P st -> scanBody st = (st', f) -> P st') ->
  forall fuel st st', P st -> scanLoop fuel count st = Ok st' -> P st'.
Proof.
  intros Hstep. induction fuel as [|fuel IH]; intros st st' HP Hrun; [discriminate|].
  simpl in Hrun. destruct (moreThanOneLeft (s_tokens st) count) eqn:Hmore.
  - destruct (scanBody st) as [st1 f] eqn:Hbody.
    specialize (Hstep _ _ _ Hmore HP Hbody).
    destruct f; [eauto|]. inversion Hrun; subst. exact Hstep.
  - inversion Hrun; subst. exact HP.
Qed.

Lemma scanLoop_keeps_one (count fuel : nat) (tokens : list string) (st' : scan) :
  (count < List.length tokens)%nat ->
  scanLoop fuel count (scanStart tokens) = Ok st' ->
  (count < List.length (s_tokens st'))%nat.
Proof.
  intros Hlt Hrun.
  apply (scanLoop_invariant count
           (fun st => (count < List.length (s_tokens st))%nat)) in Hrun; auto.
  intros st st1 f Hmore HP Hbody. apply moreThanOneLeft_spec in Hmore.
  apply scanBody_tokens in Hbody. destruct Hbody as [Hpop|[Hsame _]].
  - rewrite Hpop, pop_length. lia.
  - rewrite Hsame. exact HP.
Qed.

Lemma scanLoop_length (count fuel : nat) (tokens : list string) (st' : scan) :
  scanLoop fuel count (scanStart tokens) = Ok st' ->
  (Nat.min count (List.length tokens) <= List.length (s_tokens st')
   <= List.length tokens)%nat.
Proof.
  intros Hrun.
  apply (scanLoop_invariant count
           (fun st => (Nat.min count (List.length tokens)
                       <= List.length (s_tokens st) <= List.length tokens)%nat))
    in Hrun; auto.
  - intros st st1 f Hmore HP Hbody. apply moreThanOneLeft_spec in Hmore.
    apply scanBody_tokens in Hbody. destruct Hbody as [Hpop|[Hsame _]].
    + rewrite Hpop, pop_length. lia.
    + rewrite Hsame. exact HP.
  - simpl. lia.
Qed.

(** ** The values of the borough variables *)

Lemma lookup_In (table : list (string * Z)) (key : string) (v : Z) :
  lookup table key = Some v -> In v (map snd table).
Proof.
  unfold lookup. induction table as [|[k w] rest IH]; [discriminate|].
  destruct (String.eqb k key).
  - intros H. inversion H; subst. left. reflexivity.
  - intros H. right. apply IH. exact H.
Qed.

Lemma boroRegexLookup_In (entries : list (Z * list string)) (t : string) (v : Z) :
  boroRegexLookup entries t = Some v -> In v (map fst entries).
Proof.
  unfold boroRegexLookup. induction entries as [|[k ps] rest IH]; [discriminate|].
  destruct (existsb _ ps).
  - intros H. inversion H; subst. left. reflexivity.
  - intros H. right. apply IH. exact H.
Qed.

Lemma simpleBoros_range (t : string) (v : Z) :
  lookup simpleBoros t = Some v -> (1 <= v <= 7)%Z.
Proof.
  intros H. apply lookup_In in H.
  assert (Hall : Forall (fun v => (1 <= v <= 7)%Z) (map snd simpleBoros))
    by (vm_compute; repeat constructor; discriminate).
  rewrite Forall_forall in Hall. auto.
Qed.

Lemma zipPrefixBoros_range (k : string) (v : Z) :
  lookup zipPrefixBoros k = Some v -> (1 <= v <= 5)%Z.
Proof.
  intros H. apply lookup_In in H.
  assert (Hall : Forall (fun v => (1 <= v <= 5)%Z) (map snd zipPrefixBoros))
    by (vm_compute; repeat constructor; discriminate).
  rewrite Forall_forall in Hall. auto.
Qed.

Lemma boroRegexes_range (t : string) (v : Z) :
  boroRegexLookup boroRegexes t = Some v -> (1 <= v <= 7)%Z.
Proof.
  intros H. apply boroRegexLookup_In in H.
  assert (Hall : Forall (fun v => (1 <= v <= 7)%Z) (map fst boroRegexes))
    by (vm_compute; repeat constructor; discriminate).
  rewrite Forall_forall in Hall. auto.
Qed.

Lemma tokenBoro_range (t : string) : (1 <= tokenBoro t <= 9)%Z.
Proof.
  unfold tokenBoro. cbv zeta.
  destruct (lookup simpleBoros t) as [v|] eqn:Hs; simpl.
  - apply simpleBoros_range in Hs.
    destruct (v =? 9)%Z eqn:Hv; [apply Z.eqb_eq in Hv; lia|lia].
  - destruct (boroRegexLookup boroRegexes t) as [w|] eqn:Hr; simpl; [|lia].
    apply boroRegexes_range in Hr. lia.
Qed.

Lemma scanBody_range (st st' : scan) (f : flow) :
  borosInRange st -> scanBody st = (st', f) -> borosInRange st'.
Proof.
  unfold borosInRange, scanBody. intros [Hb Hz] H.
  destruct (if (s_zipBoro st =? 9)%Z then zipMatches (lastToken (s_tokens st)) else None)
    as [g|].
  - inversion H; subst; simpl. split; [exact Hb|].
    destruct g as [k|]; simpl; [|lia].
    destruct (lookup zipPrefixBoros k) as [v|] eqn:Hk; simpl; [|lia].
    apply zipPrefixBoros_range in Hk. lia.
  - pose proof (tokenBoro_range (lastToken (s_tokens st))) as Hnew.
    cbv zeta in H.
    destruct (_ =? 9)%Z in H; inversion H; subst; simpl; auto.
Qed.

Lemma scanLoop_range (count fuel : nat) (tokens : list string) (st' : scan) :
  scanLoop fuel count (scanStart tokens) = Ok st' -> borosInRange st'.
Proof.
  intros Hrun.
  apply (scanLoop_invariant count borosInRange) in Hrun; auto.
  - intros st st1 f _ HP Hbody. eapply scanBody_range; eauto.
  - unfold borosInRange. simpl. lia.
Qed.

Lemma fallbackBoro_range (st : scan) :
  borosInRange st -> (1 <= fallbackBoro st <= 9)%Z.
Proof.
  unfold borosInRange, fallbackBoro. intros [Hb Hz].
  destruct (s_boro st >? 5)%Z; [|lia].
  destruct (s_zipBoro st <? 6)%Z; [lia|].
  destruct (s_foundNy st); lia.
Qed.

(** ** The Marble Hill step *)

Lemma marbleHillChecks_result (tokens : list string) (count : nat) (text : string)
    (boro b : Z) (m : bool) :
  marbleHillChecks tokens count text boro = Ok (b, m) ->
  b = boro \/ (b = 2%Z /\ m = false).
Proof.
  unfold marbleHillChecks. intros H.
  repeat match type of H with
         | context [match ?x with _ => _ end] => destruct x
         end; inversion H; subst; auto.
Qed.

Lemma marbleHillStep_result (tokens : list string) (count : nat) (text post : string)
    (boro b : Z) (m : bool) :
  marbleHillStep tokens count text post boro = Ok (b, m) ->
  (m = true /\ b = 1%Z) \/ (m = false /\ (b = boro \/ b = 2%Z)).
Proof.
  unfold marbleHillStep. intros H.
  destruct (marbleHillApplies post boro).
  - destruct (marbleHillChecks tokens count text boro) as [[b0 m0]| |] eqn:Hc;
      simpl in H; try discriminate.
    apply marbleHillChecks_result in Hc.
    inversion H; subst. destruct m; [left; auto|right]. split; [reflexivity|].
    destruct Hc as [->|[-> _]]; auto.
  - inversion H; subst. right. auto.
Qed.

Lemma marbleHillStep_ok (tokens : list string) (count : nat) (text post : string)
    (boro : Z) :
  (count <= List.length tokens)%nat ->
  exists b m, marbleHillStep tokens count text post boro = Ok (b, m).
Proof.
  intros Hle. unfold marbleHillStep, marbleHillChecks.
  destruct (marbleHillApplies post boro); [|eauto].
  destruct (mhhMatches text).
  - destruct (_ && _); simpl; eauto.
  - destruct (existsb _ _); simpl; eauto.
    destruct (Nat.ltb_spec 0 count) as [Hpos|Hzero]; simpl; eauto.
    destruct tokens as [|t ts]; [simpl in Hle; lia|]. simpl.
    destruct (negb _); simpl; eauto.
    destruct (thirdCheck _ _ _); simpl; eauto.
Qed.

Lemma settleAmbiguous_le (tokens : list string) (count : nat) :
  (count <= List.length tokens)%nat ->
  (count <= settleAmbiguous tokens count <= List.length tokens)%nat.
Proof.
  intros Hle. unfold settleAmbiguous.
  destruct (0 <? count)%nat; [|lia].
  destruct (moreThanOneLeft tokens count) eqn:Hmore; simpl; [|lia].
  apply moreThanOneLeft_spec in Hmore.
  destruct (_ && _); lia.
Qed.

(** ** The run of [parseTokens]: every stage returns *)

Lemma parseTokens_run (tokens : list string) :
  exists count st b m,
    countHousenumberTokens (S (List.length tokens)) tokens = Ok count
    /\ (count <= List.length tokens)%nat
    /\ scanLoop (S (List.length tokens)) count (scanStart tokens) = Ok st
    /\ marbleHillStep (s_tokens st) (settleAmbiguous (s_tokens st) count)
         (streetText (s_tokens st) (settleAmbiguous (s_tokens st) count))
         (s_postcode st) (fallbackBoro st) = Ok (b, m)
    /\ parseTokens tokens
       = Ok (mkOutput
               (if (0 <? settleAmbiguous (s_tokens st) count)%nat
                then nonEmpty (housenumberText (s_tokens st)
                                 (settleAmbiguous (s_tokens st) count))
                else None)
               (nonEmpty (streetText (s_tokens st) (settleAmbiguous (s_tokens st) count)))
               (if (b <? 6)%Z then Some b else None)
               (nonEmpty (s_postcode st))
               (if m then Some true else None)).
Proof.
  destruct (countHousenumberTokens_ok tokens) as (count & Hcount & Hle).
  destruct (scanLoop_terminates count (S (List.length tokens)) (scanStart tokens))
    as (st & Hscan); [simpl; lia|].
  pose proof (scanLoop_length _ _ _ _ Hscan) as Hlen.
  destruct (marbleHillStep_ok (s_tokens st) (settleAmbiguous (s_tokens st) count)
              (streetText (s_tokens st) (settleAmbiguous (s_tokens st) count))
              (s_postcode st) (fallbackBoro st)) as (b & m & Hmh).
  { apply settleAmbiguous_le. lia. }
  exists count, st, b, m. repeat split; auto.
  unfold parseTokens. cbv zeta. rewrite Hcount. cbn [bind]. rewrite Hscan. cbn [bind].
  rewrite Hmh. reflexivity.
Qed.

(** ** What the regular expressions of steps 2 and 3 accept *)

Lemma search_from_bol (r : Re.regex) (c : ascii) (s : list ascii) :
  Re.search_from (Re.Seq Re.Bol r) (Some c) s = None.
Proof.
  revert c. induction s as [|x s IH]; intros c; simpl; [reflexivity|].
  unfold Re.exec_at. simpl. apply IH.
Qed.

Ltac zip_simpl :=
  cbn [list_ascii_of_string Re.search_from Re.exec_at Re.rmatch Re.step_class
       Re.set_cap Re.m_rest Re.m_prev Re.m_caps Re.in_class beginsWithFiveDigits andb].

Lemma zipMatches_spec (t : string) :
  zipMatches t
  = if beginsWithFiveDigits t then Some (Some (zipPrefix t)) else None.
Proof.
  unfold zipMatches, Re.search, zipRegex.
  destruct t as [|a [|b [|c [|d [|e t]]]]];
    try (zip_simpl;
         repeat match goal with
                | |- context [Re.is_digit ?x] => destruct (Re.is_digit x); zip_simpl
                end;
         rewrite ?search_from_bol; reflexivity).
  zip_simpl.
  destruct (Re.is_digit a); zip_simpl; [|rewrite ?search_from_bol; reflexivity].
  destruct (Re.is_digit b); zip_simpl; [|rewrite ?search_from_bol; reflexivity].
  destruct (Re.is_digit c); zip_simpl; [|rewrite ?search_from_bol; reflexivity].
  destruct (Re.is_digit d); zip_simpl; [|rewrite ?search_from_bol; reflexivity].
  destruct (Re.is_digit e); zip_simpl; [|rewrite ?search_from_bol; reflexivity].
  cbn [Re.get_cap Re.m_caps Nat.eqb]. unfold zipPrefix. cbn [substring].
  replace (List.length (a :: b :: c :: d :: e :: list_ascii_of_string t)
           - List.length (d :: e :: list_ascii_of_string t))%nat with 3%nat
    by (cbn [List.length]; lia).
  reflexivity.
Qed.

Lemma search_from_length (r : Re.regex) (s : list ascii) :
  forall prev from st,
    Re.search_from r prev s = Some (from, st) ->
    (List.length from <= List.length s)%nat.
Proof.
  induction s as [|c s IH]; intros prev from st H; simpl in H.
  - destruct (Re.exec_at r prev []); inversion H; subst. simpl. lia.
  - destruct (Re.exec_at r prev (c :: s)).
    + inversion H; subst. lia.
    + apply IH in H. simpl. lia.
Qed.

Lemma length_list_ascii_of_string (s : string) :
  List.length (list_ascii_of_string s) = String.length s.
Proof.
  induction s as [|c s IH]; simpl; [reflexivity|]. rewrite IH. reflexivity.
Qed.

Lemma beginsWithDigit_spec (tokens : list string) :
  beginsWithDigit tokens = firstCharIsDigit (hd "" tokens).
Proof.
  unfold beginsWithDigit, Re.search_index, Re.search, digitRegex.
  destruct tokens as [|t ts]; [reflexivity|]. cbn [nth_error orEmpty hd].
  destruct t as [|c t]; [reflexivity|].
  cbn [list_ascii_of_string Re.search_from Re.exec_at Re.rmatch Re.step_class
       Re.m_rest Re.m_prev Re.m_caps Re.in_class firstCharIsDigit].
  destruct (Re.is_digit c).
  - cbn [String.length List.length]. rewrite length_list_ascii_of_string.
    rewrite Nat.sub_diag. reflexivity.
  - destruct (Re.search_from _ _ _) as [[from st]|] eqn:Hs; [|reflexivity].
    apply search_from_length in Hs. rewrite length_list_ascii_of_string in Hs.
    cbn [String.length].
    destruct (S (String.length t) - List.length from)%nat eqn:Hd; [lia|reflexivity].
Qed.

Lemma scanBody_cases (st st' : scan) (f : flow) :
  scanBody st = (st', f) -> bodyCase st st' f.
Proof.
  unfold scanBody. cbv zeta. rewrite zipMatches_spec.
  destruct (s_zipBoro st =? 9)%Z eqn:Hz.
  - apply Z.eqb_eq in Hz.
    destruct (beginsWithFiveDigits (lastToken (s_tokens st))) eqn:H5.
    + intros H. inversion H; subst. apply TakesZip; auto.
    + destruct (tokenBoro (lastToken (s_tokens st)) =? 9)%Z eqn:Hb; intros H;
        inversion H; subst.
      * apply Z.eqb_eq in Hb. apply Stops; auto. rewrite Hb. reflexivity.
      * apply Z.eqb_neq in Hb. apply TakesBoro; auto.
  - apply Z.eqb_neq in Hz.
    destruct (tokenBoro (lastToken (s_tokens st)) =? 9)%Z eqn:Hb; intros H;
      inversion H; subst.
    + apply Z.eqb_eq in Hb. apply Stops; auto. rewrite Hb. reflexivity.
    + apply Z.eqb_neq in Hb. apply TakesBoro; auto.
Qed.

Lemma moreThanOneLeft_nonempty (tokens : list string) (count : nat) :
  moreThanOneLeft tokens count = true -> tokens <> [].
Proof.
  intros H. apply moreThanOneLeft_spec in H. destruct tokens; [simpl in H; lia|discriminate].
Qed.

Lemma scanLoop_popped (count fuel : nat) (tokens : list string) (st' : scan) :
  scanLoop fuel count (scanStart tokens) = Ok st' -> poppedRecognised tokens st'.
Proof.
  intros Hrun.
  apply (scanLoop_invariant count (poppedRecognised tokens)) in Hrun; auto.
  - intros st st1 f Hmore (popped & Heq & Hall) Hbody.
    apply moreThanOneLeft_nonempty in Hmore.
    apply scanBody_cases in Hbody.
    destruct Hbody as [Hz H5 -> _|_ _ -> _|_ Hb -> _]; simpl.
    + exists (lastToken (s_tokens st) :: popped). split.
      * rewrite Heq. rewrite (pop_last _ Hmore) at 1. rewrite <- app_assoc. reflexivity.
      * constructor; [unfold recognised|exact Hall]. rewrite H5. reflexivity.
    + exists popped. simpl. auto.
    + exists (lastToken (s_tokens st) :: popped). split.
      * rewrite Heq. rewrite (pop_last _ Hmore) at 1. rewrite <- app_assoc. reflexivity.
      * constructor; [unfold recognised|exact Hall].
        apply Z.eqb_neq in Hb. rewrite Hb. apply orb_true_r.
  - exists []. simpl. rewrite app_nil_r. auto.
Qed.

Lemma zipBoro_not_9 (k : string) : orZ (lookup zipPrefixBoros k) 7 <> 9%Z.
Proof.
  destruct (lookup zipPrefixBoros k) as [v|] eqn:H; simpl; [|discriminate].
  apply zipPrefixBoros_range in H. lia.
Qed.

Lemma scanLoop_zipFound (count fuel : nat) (tokens : list string) (st' : scan) :
  scanLoop fuel count (scanStart tokens) = Ok st' -> zipFound tokens count st'.
Proof.
  intros Hrun.
  apply (scanLoop_invariant count (zipFound tokens count)) in Hrun; auto.
  - intros st st1 f Hmore (popped & Heq & Hzip) Hbody.
    pose proof (moreThanOneLeft_nonempty _ _ Hmore) as Hne.
    apply moreThanOneLeft_spec in Hmore.
    assert (Hsplit : tokens = pop (s_tokens st) ++ lastToken (s_tokens st) :: popped).
    { rewrite Heq. rewrite (pop_last _ Hne) at 1. rewrite <- app_assoc. reflexivity. }
    apply scanBody_cases in Hbody.
    destruct Hbody as [Hz H5 -> _|_ _ -> _|Hno Hb -> _]; simpl.
    + exists (lastToken (s_tokens st) :: popped). split; [exact Hsplit|]. right.
      destruct Hzip as [(_ & _ & Hall)|(b & a & _ & _ & _ & _ & Hz')];
        [|exfalso; rewrite Hz' in Hz; exact (zipBoro_not_9 _ Hz)].
      exists [], popped. simpl. rewrite app_nil_r, pop_length.
      repeat split; auto. lia.
    + exists popped. simpl. split; [exact Heq|exact Hzip].
    + exists (lastToken (s_tokens st) :: popped). split; [exact Hsplit|]. simpl.
      destruct Hzip as [(Hp & Hz & Hall)|(b & a & Hpop & H5 & Hall & Hlen & Hz)].
      * left. repeat split; auto. constructor; [|exact Hall].
        destruct Hno as [Hno|Hno]; [contradiction|exact Hno].
      * right. exists (lastToken (s_tokens st) :: b), a. rewrite Hpop.
        repeat split; auto.
        rewrite length_app in *. rewrite pop_length. simpl. lia.
  - exists []. simpl. rewrite app_nil_r. split; [reflexivity|]. left. auto.
Qed.

Lemma nonEmpty_orEmpty (s : string) : orEmpty (nonEmpty s) = s.
Proof.
  unfold nonEmpty. destruct (String.eqb_spec s ""); simpl; congruence.
Qed.

Lemma nonEmpty_five (p : string) :
  beginsWithFiveDigits p = true -> nonEmpty p = Some p.
Proof.
  destruct p; [discriminate|reflexivity].
Qed.

Lemma marbleHillStep_cases (tokens : list string) (count : nat) (text post : string)
    (boro b : Z) (m : bool) :
  marbleHillStep tokens count text post boro = Ok (b, m) ->
  (m = true /\ b = 1%Z)
  \/ (m = false /\ b = boro)
  \/ (m = false /\ b = 2%Z /\ mhhBronxBuilding text = true).
Proof.
  unfold marbleHillStep, marbleHillChecks, mhhBronxBuilding. intros H.
  destruct (marbleHillApplies post boro); [|inversion H; subst; auto].
  destruct (mhhMatches text) as [caps|].
  - destruct (includesAt bronxBuildings (Re.get_cap 3 caps)); simpl in H;
      inversion H; subst; auto.
  - repeat match type of H with
           | context [match ?x with _ => _ end] => destruct x; simpl in H
           end; inversion H; subst; auto.
Qed.

(** ** The borough and the Marble Hill flag of the output *)

(** C1.  For every input the function returns a record whose [borough],
    when present, is one of 1, 2, 3, 4, 5 (the values 6, 7 and 9 of the
    scan never reach the output), and whose [marble_hill], when present,
    is [true] and comes with [borough] equal to 1. *)
Theorem C1_borough_range (input : string) :
  exists r,
    parseNycAddress input = Ok r
    /\ match borough r with
       | Some b => In b [1; 2; 3; 4; 5]%Z
       | None => True
       end
    /\ match marble_hill r with
       | Some flag => flag = true /\ borough r = Some 1%Z
       | None => True
       end.
Proof.
  unfold parseNycAddress.
  destruct (parseTokens_run (tokenize input))
    as (count & st & b & m & _ & _ & Hscan & Hmh & Hrun).
  rewrite Hrun. eexists. split; [reflexivity|]. simpl.
  pose proof (fallbackBoro_range st (scanLoop_range _ _ _ _ Hscan)) as Hrange.
  apply marbleHillStep_result in Hmh.
  destruct Hmh as [[-> ->]|[-> Hb]]; simpl.
  - split; [left; reflexivity|auto].
  - split; [|exact I].
    destruct (Z.ltb_spec b 6); [|exact I].
    assert (Hcases : (b = 1 \/ b = 2 \/ b = 3 \/ b = 4 \/ b = 5)%Z)
      by (destruct Hb; lia).
    simpl. intuition.
Qed.

(** ** Step 3 keeps a token for the street *)

Lemma scanLoop_prefix (count fuel : nat) (tokens : list string) (st' : scan) :
  scanLoop fuel count (scanStart tokens) = Ok st' ->
  s_tokens st' = firstn (List.length (s_tokens st')) tokens.
Proof.
  intros Hrun. destruct (scanLoop_popped _ _ _ _ Hrun) as (popped & Heq & _).
  rewrite Heq at 1. rewrite firstn_app, Nat.sub_diag, firstn_all. simpl.
  rewrite app_nil_r. reflexivity.
Qed.

(** C8.  For every token sequence with at least one token beyond the
    house-number count, the backwards loop of step 3 returns with more
    tokens left than the house-number count: the tokens up to and
    including the first one after the house number are those of the input,
    never popped, whatever they look like. *)
Theorem C8_street_token_reserved (tokens : list string) (count : nat) :
  countHousenumberTokens (S (List.length tokens)) tokens = Ok count ->
  (count < List.length tokens)%nat ->
  exists st,
    scanLoop (S (List.length tokens)) count (scanStart tokens) = Ok st
    /\ (count < List.length (s_tokens st))%nat
    /\ firstn (S count) (s_tokens st) = firstn (S count) tokens.
Proof.
  intros _ Hlt.
  destruct (scanLoop_terminates count (S (List.length tokens)) (scanStart tokens))
    as (st & Hscan); [simpl; lia|].
  pose proof (scanLoop_keeps_one _ _ _ _ Hlt Hscan) as Hkept.
  exists st. split; [exact Hscan|]. split; [exact Hkept|].
  rewrite (scanLoop_prefix _ _ _ _ Hscan) at 1.
  rewrite firstn_firstn. f_equal. lia.
Qed.

Lemma C8_street_token_reserved_witness :
  countHousenumberTokens 4 ["30"; "BRONX"; "BK"] = Ok 1%nat
  /\ exists st,
       scanLoop 4 1 (scanStart ["30"; "BRONX"; "BK"]) = Ok st
       /\ (1 < List.length (s_tokens st))%nat
       /\ firstn 2 (s_tokens st) = firstn 2 ["30"; "BRONX"; "BK"].
Proof.
  split; [vm_compute; reflexivity|].
  apply (C8_street_token_reserved ["30"; "BRONX"; "BK"] 1).
  - vm_compute. reflexivity.
  - simpl. lia.
Defined.

(** ** The zip code and the borough it stands for *)

Lemma fallback_expected (tokens : list string) (count : nat) (st : scan) :
  zipFound tokens count st ->
  (5 < s_boro st)%Z ->
  (if (fallbackBoro st <? 6)%Z then Some (fallbackBoro st) else None)
  = expectedBorough (nonEmpty (s_postcode st)) (s_foundNy st).
Proof.
  intros (popped & _ & Hzip) Hboro. unfold fallbackBoro, expectedBorough.
  assert (Hgt : (s_boro st >? 5)%Z = true) by (apply Z.gtb_lt; lia).
  assert (Hnlt : (s_boro st <? 6)%Z = false) by (apply Z.ltb_ge; lia).
  rewrite Hgt.
  destruct Hzip as [(Hp & Hz & _)|(b & a & _ & H5 & _ & _ & Hz)].
  - rewrite Hp, Hz. simpl.
    destruct (s_foundNy st); [reflexivity|]. rewrite Hnlt. reflexivity.
  - rewrite (nonEmpty_five _ H5), Hz.
    destruct (lookup zipPrefixBoros (zipPrefix (s_postcode st))) as [v|] eqn:Hv; simpl.
    + apply zipPrefixBoros_range in Hv.
      assert (Hlt : (v <? 6)%Z = true) by (apply Z.ltb_lt; lia).
      rewrite !Hlt. reflexivity.
    + destruct (s_foundNy st); [reflexivity|]. rewrite Hnlt. reflexivity.
Qed.

(** ** The house-number count is that of the specification *)

Lemma includes_app (l1 l2 : list string) (t : string) :
  includes (l1 ++ l2) t = includes l1 t || includes l2 t.
Proof.
  unfold includes. apply existsb_app.
Qed.

Lemma orEmpty_nth (tokens : list string) (i : nat) :
  orEmpty (nth_error tokens i) = nth i tokens "".
Proof.
  revert i. induction tokens as [|t ts IH]; intros [|i]; simpl; auto.
Qed.

Lemma absorbs_spec (tokens : list string) (i : nat) :
  (i < List.length tokens)%nat ->
  absorbs tokens i = specAbsorbed (nth i tokens "") (nth (i + 1) tokens "").
Proof.
  intros Hlt. unfold absorbs, specAbsorbed.
  rewrite includes_app, orEmpty_nth.
  rewrite (nth_error_nth' tokens "" Hlt). reflexivity.
Qed.

(** C6.  For every token sequence the classifier returns a count.  When
    the first token does not begin with a digit (or there is no token) the
    count is 0.  Otherwise it is 1 plus the length of the longest run of
    tokens, from the second on, each of which is an unambiguous
    house-number suffix, or an ambiguous one whose next token is a suffix
    of either kind: every token of positions 1 to count - 1 is absorbed by
    that rule and the token of position count, when there is one, is
    not. *)
Theorem C6_housenumber_count (tokens : list string) :
  exists n,
    countHousenumberTokens (S (List.length tokens)) tokens = Ok n
    /\ if firstCharIsDigit (hd "" tokens) then
         (1 <= n <= List.length tokens)%nat
         /\ (forall i, (1 <= i < n)%nat ->
                       specAbsorbed (nth i tokens "") (nth (i + 1) tokens "") = true)
         /\ ((n < List.length tokens)%nat ->
             specAbsorbed (nth n tokens "") (nth (n + 1) tokens "") = false)
       else n = 0%nat.
Proof.
  unfold countHousenumberTokens. rewrite <- beginsWithDigit_spec.
  destruct (beginsWithDigit tokens) eqn:Hd; [|exists 0%nat; auto].
  pose proof (beginsWithDigit_nonempty _ Hd) as Hne.
  destruct (housenumberLoop_spec (S (List.length tokens)) tokens 1)
    as (n & Hrun & Hle & Hmax & Hall & Hstop); [lia|].
  exists n. split; [exact Hrun|]. split; [lia|]. split.
  - intros i Hi. rewrite <- absorbs_spec by lia. apply Hall. exact Hi.
  - intros Hlt. rewrite <- absorbs_spec by lia. apply Hstop. exact Hlt.
Qed.

(** ** The ambiguous token after the house number *)

Lemma settleAmbiguous_spec (tokens : list string) (count : nat) :
  settleAmbiguous tokens count
  = if (0 <? count)%nat && specSettles tokens count then S count else count.
Proof.
  unfold settleAmbiguous, specSettles. rewrite !orEmpty_nth.
  replace (moreThanOneLeft tokens count) with (count + 1 <? List.length tokens)%nat.
  - destruct (0 <? count)%nat; reflexivity.
  - destruct (Nat.ltb_spec (count + 1) (List.length tokens)) as [H|H]; symmetry.
    + apply moreThanOneLeft_spec. exact H.
    + destruct (moreThanOneLeft tokens count) eqn:Hm; [|reflexivity].
      apply moreThanOneLeft_spec in Hm. lia.
Qed.

(** C3, amended.  For every token sequence, once step 3 has removed the
    borough and zip tokens: when a house number was found (the count is
    not 0), more than one token remains beyond the count, the first of
    them is one of A, B, C, D, FRONT and the one after it is none of ST,
    AV, AVE, AVENUE, the count is incremented by one, so that this token
    goes to the house number; in every other case, and always when no
    house number was found, the count is unchanged.  The house number and
    the street of the output are the tokens before and from that count. *)
Theorem C3_ambiguous_token (tokens : list string) :
  exists count st r,
    countHousenumberTokens (S (List.length tokens)) tokens = Ok count
    /\ scanLoop (S (List.length tokens)) count (scanStart tokens) = Ok st
    /\ parseTokens tokens = Ok r
    /\ settleAmbiguous (s_tokens st) count
       = (if (0 <? count)%nat && specSettles (s_tokens st) count
          then S count else count)
    /\ housenumber r
       = nonEmpty (join (firstn (settleAmbiguous (s_tokens st) count) (s_tokens st)))
    /\ street r
       = nonEmpty (join (skipn (settleAmbiguous (s_tokens st) count) (s_tokens st))).
Proof.
  destruct (parseTokens_run tokens)
    as (count & st & b & m & Hcount & _ & Hscan & _ & Hrun).
  exists count, st. eexists. split; [exact Hcount|]. split; [exact Hscan|].
  split; [exact Hrun|]. split; [apply settleAmbiguous_spec|]. simpl.
  split; [|reflexivity]. unfold housenumberText.
  destruct (settleAmbiguous (s_tokens st) count); reflexivity.
Qed.

(** C3 as stated fails on ["a foo"]: no house number is found, two tokens
    remain, the first is the ambiguous A and the second is not a street
    type, so the claim has the count incremented to 1; the code leaves it
    at 0 and both tokens go to the street. *)
Lemma C3_counterexample :
  tokenize "a foo" = ["A"; "FOO"]
  /\ countHousenumberTokens 3 ["A"; "FOO"] = Ok 0%nat
  /\ scanLoop 3 0 (scanStart ["A"; "FOO"]) = Ok (mkScan ["A"; "FOO"] 9 9 false "")
  /\ specSettles ["A"; "FOO"] 0 = true
  /\ settleAmbiguous ["A"; "FOO"] 0 = 0%nat
  /\ parseNycAddress "a foo" = out None (Some "A FOO") None None None.
Proof.
  vm_compute. repeat split; reflexivity.
Qed.

(** ** The Marble Hill Houses *)

(** C5.  For every token sequence for which the Marble Hill step applies
    (the postcode is empty or begins with 10463 and the borough resolved
    by step 3 is none of 3, 4, 5) and whose street text has a match of the
    MARBLE HILL HOUSES pattern: when the building number the match
    captured is 4, 5, 6 or 11 the output has borough 2 and no
    [marble_hill]; otherwise it has [marble_hill] true and borough 1.
    And ["marble hill houses bldg 11"] gives the street
    ["MARBLE HILL HOUSES BLDG 11"], borough 2 and no [marble_hill]. *)
Theorem C5_marble_hill_houses (tokens : list string) :
  (exists count st r,
      countHousenumberTokens (S (List.length tokens)) tokens = Ok count
      /\ scanLoop (S (List.length tokens)) count (scanStart tokens) = Ok st
      /\ parseTokens tokens = Ok r
      /\ (marbleHillApplies (s_postcode st) (fallbackBoro st) = true ->
          forall caps,
            mhhMatches (orEmpty (street r)) = Some caps ->
            if includesAt bronxBuildings (Re.get_cap 3 caps)
            then borough r = Some 2%Z /\ marble_hill r = None
            else marble_hill r = Some true /\ borough r = Some 1%Z))
  /\ parseNycAddress "marble hill houses bldg 11"
     = out None (Some "MARBLE HILL HOUSES BLDG 11") (Some 2%Z) None None.
Proof.
  split; [|vm_compute; reflexivity].
  destruct (parseTokens_run tokens)
    as (count & st & b & m & Hcount & _ & Hscan & Hmh & Hrun).
  exists count, st. eexists. split; [exact Hcount|]. split; [exact Hscan|].
  split; [exact Hrun|]. simpl. rewrite nonEmpty_orEmpty.
  intros Happ caps Hcaps. unfold marbleHillStep, marbleHillChecks in Hmh.
  rewrite Happ, Hcaps in Hmh.
  destruct (includesAt bronxBuildings (Re.get_cap 3 caps)); simpl in Hmh;
    inversion Hmh; subst; simpl; auto.
Qed.

Example mhh_building_spelled_out :
  parseNycAddress "Marble Hill Houses Building 4, Bronx"
  = out None (Some "MARBLE HILL HOUSES BUILDING 4") (Some 2%Z) None None.
Proof. vm_compute. reflexivity. Qed.

Example mhh_building_overrides_manhattan :
  parseNycAddress "marble hl houses bldg 6 manhattan"
  = out None (Some "MARBLE HL HOUSES BLDG 6") (Some 2%Z) None None.
Proof. vm_compute. reflexivity. Qed.

Example mhh_other_building :
  parseNycAddress "marble hill houses bldg 10 bronx ny 10463"
  = out None (Some "MARBLE HILL HOUSES BLDG 10") (Some 1%Z) (Some "10463") (Some true).
Proof. vm_compute. reflexivity. Qed.

Example mhh_other_zip :
  parseNycAddress "marble hill houses bldg 11 bronx ny 10468"
  = out None (Some "MARBLE HILL HOUSES BLDG 11") (Some 2%Z) (Some "10468") None.
Proof. vm_compute. reflexivity. Qed.

(** ** The third Marble Hill check on Broadway *)

Lemma thirdCheck_broadway (n boro : Z) :
  thirdCheck "BROADWAY" (Some n) boro
  = (n =? 5485)%Z
    || ((5170 <=? n)%Z && (n <=? 5300)%Z)
    || ((5301 <=? n)%Z && (n <=? 5320)%Z && (boro <? 3)%Z)
    || ((5321 <=? n)%Z && (n <=? 5400)%Z)
    || ((5421 <=? n)%Z && (n <=? 5480)%Z).
Proof.
  unfold thirdCheck.
  replace (wholeStringMatchesPattern "BROADWAY" west225Pattern) with false
    by (vm_compute; reflexivity).
  replace (String.eqb "BROADWAY" "BROADWAY") with true by reflexivity.
  unfold numEq, numGe, numLe. rewrite !Z.geb_leb.
  destruct (Z.eqb_spec n 5485), (Z.leb_spec 5170 n), (Z.leb_spec n 5300),
    (Z.leb_spec 5301 n), (Z.leb_spec n 5320), (Z.leb_spec 5321 n),
    (Z.leb_spec n 5400), (Z.leb_spec 5401 n), (Z.leb_spec n 5321),
    (Z.leb_spec 5421 n), (Z.leb_spec n 5480), (boro <? 3)%Z;
    simpl; try reflexivity; lia.
Qed.

Lemma thirdCheck_west225 (streetText : string) (n boro : Z) :
  String.eqb streetText "BROADWAY" = false ->
  thirdCheck streetText (Some n) boro
  = wholeStringMatchesPattern streetText west225Pattern
    && (40 <=? n)%Z && (n <=? 176)%Z.
Proof.
  intros Hne. unfold thirdCheck, numGe, numLe. rewrite Hne, !Z.geb_leb. reflexivity.
Qed.

(** When the Marble Hill step applies, the first two checks fail, a house
    number was found and its first token has no hyphen, the flag is the
    outcome of the third check. *)
Lemma marbleHillStep_third (tokens : list string) (count : nat) (text post token0 : string)
    (boro : Z) :
  marbleHillApplies post boro = true ->
  mhhMatches text = None ->
  existsb (wholeStringMatchesPattern text) marbleHillStreetRegexes = false ->
  (0 < count)%nat ->
  nth_error tokens 0 = Some token0 ->
  strIncludes token0 "-" = false ->
  marbleHillStep tokens count text post boro
  = Ok (if thirdCheck text (parseInt token0) boro then 1%Z else boro,
        thirdCheck text (parseInt token0) boro).
Proof.
  intros Happ Hmhh Hstreets Hcount Htok Hhyphen.
  unfold marbleHillStep, marbleHillChecks.
  rewrite Happ, Hmhh, Hstreets, Htok, Hhyphen.
  destruct (Nat.ltb_spec 0 count); [|lia]. simpl.
  destruct (thirdCheck text (parseInt token0) boro); reflexivity.
Qed.

(** C2, on the code.  With the borough resolved to 2 from the input, house
    number 5410 on BROADWAY is inside 5401-5420, which the claim, like the
    comment of the source, keeps for Marble Hill when the borough is 1 or
    2.  The test of the source reads [>= 5401 && <= 5321], which no number
    passes: the third check fails and the output is a Bronx address with
    no [marble_hill].  The neighbouring range 5301-5320 behaves as the
    claim says. *)
Lemma C2_broadway_5410 :
  parseNycAddress "5410 Broadway Bronx"
  = out (Some "5410") (Some "BROADWAY") (Some 2%Z) None None
  /\ thirdCheck "BROADWAY" (parseInt "5410") 2 = false
  /\ parseNycAddress "5310 Broadway Bronx"
     = out (Some "5310") (Some "BROADWAY") (Some 1%Z) None (Some true).
Proof.
  vm_compute. repeat split; reflexivity.
Qed.

(** ** Parsing the output again *)

Lemma absorbs_firstn (tokens : list string) (k i : nat) :
  (i + 1 < k)%nat -> absorbs (firstn k tokens) i = absorbs tokens i.
Proof.
  intros Hlt. unfold absorbs. rewrite !nth_error_firstn.
  destruct (Nat.ltb_spec i k); [|lia].
  destruct (Nat.ltb_spec (i + 1) k); [|lia]. reflexivity.
Qed.

Lemma absorbs_firstn_last (tokens : list string) (i : nat) :
  absorbs tokens i = false -> absorbs (firstn (i + 1) tokens) i = false.
Proof.
  unfold absorbs. rewrite !nth_error_firstn.
  destruct (Nat.ltb_spec i (i + 1)); [|lia].
  destruct (Nat.ltb_spec (i + 1) (i + 1)); [lia|].
  intros Hno. apply orb_false_iff in Hno. destruct Hno as [Hno _]. rewrite Hno.
  simpl. apply andb_false_r.
Qed.

(** The count of step 2 does not change when tokens beyond the first
    street token are cut off. *)
Lemma countHousenumberTokens_firstn (tokens : list string) (count k : nat) :
  countHousenumberTokens (S (List.length tokens)) tokens = Ok count ->
  (count < k)%nat ->
  countHousenumberTokens (S (List.length (firstn k tokens))) (firstn k tokens)
  = Ok count.
Proof.
  intros Hcount Hk.
  destruct (Nat.le_gt_cases (List.length tokens) k) as [Hall|Hcut];
    [rewrite firstn_all2 by exact Hall; exact Hcount|].
  unfold countHousenumberTokens in *.
  assert (Hhd : beginsWithDigit (firstn k tokens) = beginsWithDigit tokens).
  { unfold beginsWithDigit. rewrite nth_error_firstn.
    destruct (Nat.ltb_spec 0 k); [reflexivity|lia]. }
  rewrite Hhd. destruct (beginsWithDigit tokens) eqn:Hd; [|exact Hcount].
  pose proof (beginsWithDigit_nonempty _ Hd) as Hne.
  destruct (housenumberLoop_spec (S (List.length tokens)) tokens 1)
    as (n & Hrun & Hle & _ & Htrue & Hfalse); [lia|].
  rewrite Hrun in Hcount. inversion Hcount; subst n. clear Hcount.
  assert (Hlen : List.length (firstn k tokens) = k) by (rewrite length_firstn; lia).
  destruct (housenumberLoop_spec (S (List.length (firstn k tokens))) (firstn k tokens) 1)
    as (n' & Hrun' & Hle' & Hmax' & Htrue' & Hfalse'); [lia|].
  rewrite Hrun'. f_equal. rewrite Hlen in *.
  assert (Hstop : absorbs (firstn k tokens) count = false).
  { destruct (Nat.eq_dec (count + 1) k) as [<-|Hne'].
    - apply absorbs_firstn_last. apply Hfalse. lia.
    - rewrite absorbs_firstn by lia. apply Hfalse. lia. }
  destruct (Nat.lt_trichotomy n' count) as [Hlt|[Heq|Hgt]]; [|exact Heq|].
  - specialize (Hfalse' ltac:(lia)). rewrite absorbs_firstn in Hfalse' by lia.
    rewrite Htrue in Hfalse' by lia. discriminate.
  - rewrite Htrue' in Hstop by lia. discriminate.
Qed.

Lemma scanPopsNothing_spec (tokens : list string) (count : nat) :
  scanPopsNothing tokens count = true ->
  exists st,
    scanLoop (S (List.length tokens)) count (scanStart tokens) = Ok st
    /\ s_tokens st = tokens.
Proof.
  unfold scanPopsNothing.
  destruct (scanLoop _ count (scanStart tokens)) as [st| |] eqn:Hscan; try discriminate.
  intros Hlen. apply Nat.eqb_eq in Hlen. exists st. split; [reflexivity|].
  rewrite (scanLoop_prefix _ _ _ _ Hscan), Hlen. apply firstn_all.
Qed.

(** C4, amended.  For every input, with [r] the output: when tokenizing
    the house number and the street of [r], joined by one space, gives back
    the tokens that step 3 left, and step 3, run afresh on those tokens,
    pops none of them, parsing the joined text returns an output with the
    [housenumber] and the [street] of [r]. *)
Theorem C4_same_split_when_stable (input : string) (count : nat) (st : scan)
    (r : output) :
  countHousenumberTokens (S (List.length (tokenize input))) (tokenize input) = Ok count ->
  scanLoop (S (List.length (tokenize input))) count (scanStart (tokenize input)) = Ok st ->
  parseNycAddress input = Ok r ->
  tokenize (rejoin r) = s_tokens st ->
  scanPopsNothing (s_tokens st) count = true ->
  exists r2,
    parseNycAddress (rejoin r) = Ok r2
    /\ housenumber r2 = housenumber r
    /\ street r2 = street r.
Proof.
  intros Hcount Hscan Hr Htok Hstable.
  assert (Hcount2 : countHousenumberTokens (S (List.length (s_tokens st))) (s_tokens st)
                    = Ok count).
  { pose proof (scanLoop_length _ _ _ _ Hscan) as Hlen.
    destruct (countHousenumberTokens_ok (tokenize input)) as (c & Hc & Hle).
    rewrite Hcount in Hc. inversion Hc; subst c.
    destruct (Nat.eq_dec count (List.length (tokenize input))) as [Hfull|Hless].
    - rewrite (scanLoop_prefix _ _ _ _ Hscan).
      assert (Heq : List.length (s_tokens st) = List.length (tokenize input)) by lia.
      rewrite Heq, firstn_all. exact Hcount.
    - rewrite (scanLoop_prefix _ _ _ _ Hscan).
      apply countHousenumberTokens_firstn; [exact Hcount|].
      apply scanLoop_keeps_one with (tokens := tokenize input)
                                    (fuel := S (List.length (tokenize input))); [lia|exact Hscan]. }
  destruct (scanPopsNothing_spec _ _ Hstable) as (st2 & Hscan2 & Hsame).
  unfold parseNycAddress in *. rewrite Htok.
  destruct (parseTokens_run (tokenize input))
    as (c1 & st1 & b1 & m1 & Hc1 & _ & Hs1 & _ & Hrun1).
  rewrite Hcount in Hc1. inversion Hc1; subst c1.
  rewrite Hscan in Hs1. inversion Hs1; subst st1.
  rewrite Hrun1 in Hr. inversion Hr; subst r. clear Hr.
  destruct (parseTokens_run (s_tokens st))
    as (c2 & st' & b2 & m2 & Hc2 & _ & Hs2 & _ & Hrun2).
  rewrite Hcount2 in Hc2. inversion Hc2; subst c2.
  rewrite Hscan2 in Hs2. inversion Hs2; subst st'.
  rewrite Hrun2, Hsame. eexists. split; [reflexivity|]. simpl. auto.
Qed.

Lemma C4_same_split_when_stable_witness :
  parseNycAddress "30 cranberry bk" = out (Some "30") (Some "CRANBERRY") (Some 3%Z) None None
  /\ tokenize "30 CRANBERRY" = ["30"; "CRANBERRY"]
  /\ scanPopsNothing ["30"; "CRANBERRY"] 1 = true
  /\ exists r2,
       parseNycAddress "30 CRANBERRY" = Ok r2
       /\ housenumber r2 = Some "30"
       /\ street r2 = Some "CRANBERRY".
Proof.
  split; [vm_compute; reflexivity|].
  split; [vm_compute; reflexivity|].
  split; [vm_compute; reflexivity|].
  apply (C4_same_split_when_stable "30 cranberry bk" 1
           (mkScan ["30"; "CRANBERRY"] 3 9 false "")
           (mkOutput (Some "30") (Some "CRANBERRY") (Some 3%Z) None None));
    vm_compute; reflexivity.
Defined.

(** C4 as stated fails on ["55 Water St NY Manhattan"]: step 3 stops at
    MANHATTAN, the first definitive borough from the end, and leaves NY in
    the street; parsing ["55 WATER ST NY"] pops that NY, and the street is
    another. *)
Lemma C4_counterexample :
  parseNycAddress "55 Water St NY Manhattan"
  = out (Some "55") (Some "WATER ST NY") (Some 1%Z) None None
  /\ rejoin (mkOutput (Some "55") (Some "WATER ST NY") (Some 1%Z) None None)
     = "55 WATER ST NY"
  /\ parseNycAddress "55 WATER ST NY"
     = out (Some "55") (Some "WATER ST") (Some 1%Z) None None.
Proof.
  vm_compute. repeat split; reflexivity.
Qed.

(** The split also changes when the tokenizer fuses, in the joined text,
    two tokens that the input kept apart: in ["1 under . the x"] the
    period leaves two spaces between UNDER and THE, which are two tokens,
    UNDER a house-number suffix; joined by one space they are the single
    token UNDER THE, which is not. *)
Example resplit_fuses_tokens :
  tokenize "1 under . the x" = ["1"; "UNDER"; "THE"; "X"]
  /\ parseNycAddress "1 under . the x"
     = out (Some "1 UNDER") (Some "THE X") None None None
  /\ tokenize "1 UNDER THE X" = ["1"; "UNDER THE"; "X"]
  /\ parseNycAddress "1 UNDER THE X"
     = out (Some "1") (Some "UNDER THE X") None None None.
Proof.
  vm_compute. repeat split; reflexivity.
Qed.

(** ** Every match of the matcher is a word of the regular expression *)

Module ReFacts.
Import Re ReWords.

Lemma star_greedy_sound (A : Type) (cc : cclass) (caps : list (nat * list ascii))
    (k : mstate -> option A) (res : A) (s : list ascii) :
  forall prev,
    star_greedy cc caps prev s k = Some res ->
    exists st' u,
      k st' = Some res /\ s = u ++ m_rest st' /\ forallb (in_class cc) u = true.
Proof.
  induction s as [|x s IH]; intros prev H; simpl in H.
  - exists (mkM prev [] caps), []. auto.
  - destruct (in_class cc x) eqn:Hx.
    + destruct (star_greedy cc caps (Some x) s k) as [a|] eqn:Hrec.
      * inversion H; subst a. destruct (IH _ Hrec) as (st' & u & Hk & Hs & Hu).
        exists st', (x :: u). simpl. rewrite Hx, Hu, <- Hs. auto.
      * exists (mkM prev (x :: s) caps), []. auto.
    + exists (mkM prev (x :: s) caps), []. auto.
Qed.

Lemma rmatch_sound (A : Type) (r : regex) :
  forall (st : mstate) (k : mstate -> option A) (res : A),
    rmatch r st k = Some res ->
    exists st' u,
      k st' = Some res /\ m_rest st = u ++ m_rest st' /\ denote r u.
Proof.
  induction r as [|cc|r1 IH1 r2 IH2|r1 IH1 r2 IH2|r1 IH1|cc|cc|n r1 IH1| | |];
    intros st k res H; simpl in H.
  - exists st, []. simpl. auto.
  - unfold step_class in H. destruct (m_rest st) as [|x s] eqn:Hs; [discriminate|].
    destruct (in_class cc x) eqn:Hx; [|discriminate].
    exists (mkM (Some x) s (m_caps st)), [x]. simpl. eauto.
  - apply IH1 in H. destruct H as (st1 & u & H & Hs1 & Hu).
    apply IH2 in H. destruct H as (st2 & v & H & Hs2 & Hv).
    exists st2, (u ++ v). split; [exact H|]. split.
    + rewrite Hs1, Hs2, app_assoc. reflexivity.
    + simpl. eauto.
  - destruct (rmatch r1 st k) as [a|] eqn:H1.
    + inversion H; subst a. apply IH1 in H1. destruct H1 as (st' & u & Hk & Hs & Hu).
      exists st', u. simpl. auto.
    + apply IH2 in H. destruct H as (st' & u & Hk & Hs & Hu).
      exists st', u. simpl. auto.
  - destruct (rmatch r1 st k) as [a|] eqn:H1.
    + inversion H; subst a. apply IH1 in H1. destruct H1 as (st' & u & Hk & Hs & Hu).
      exists st', u. simpl. auto.
    + exists st, []. simpl. auto.
  - apply star_greedy_sound in H. destruct H as (st' & u & Hk & Hs & Hu).
    exists st', u. simpl. auto.
  - unfold step_class in H. destruct (m_rest st) as [|x s] eqn:Hs; [discriminate|].
    destruct (in_class cc x) eqn:Hx; [|discriminate].
    apply star_greedy_sound in H. destruct H as (st' & u & Hk & Hs' & Hu).
    exists st', (x :: u). simpl in *. rewrite Hs'. split; [exact Hk|].
    split; [reflexivity|]. exists x, u. auto.
  - apply IH1 in H. destruct H as (st' & u & Hk & Hs & Hu).
    exists (set_cap n st st'), u. simpl. auto.
  - destruct (xorb _ _); [|discriminate]. exists st, []. simpl. auto.
  - destruct (m_prev st); [discriminate|]. exists st, []. simpl. auto.
  - destruct (m_rest st) eqn:Hs; [|discriminate]. exists st, []. simpl. auto.
Qed.

Lemma exec_at_sound (r : regex) (prev : option ascii) (s : list ascii) (st : mstate) :
  exec_at r prev s = Some st ->
  s = consumed s st ++ m_rest st /\ denote r (consumed s st).
Proof.
  unfold exec_at. intros H. apply rmatch_sound in H.
  destruct H as (st' & u & Hk & Hs & Hu). inversion Hk; subst st'. simpl in Hs.
  assert (Hc : consumed s st = u).
  { unfold consumed. rewrite Hs at 1 2. rewrite length_app.
    replace (List.length u + List.length (m_rest st) - List.length (m_rest st))%nat
      with (List.length u + 0)%nat by lia.
    rewrite firstn_app_2. simpl. apply app_nil_r. }
  rewrite Hc. auto.
Qed.

Lemma search_from_sound (r : regex) (s : list ascii) :
  forall prev from st,
    search_from r prev s = Some (from, st) ->
    exists before,
      s = before ++ consumed from st ++ m_rest st /\ denote r (consumed from st).
Proof.
  induction s as [|c s IH]; intros prev from st H; simpl in H.
  - destruct (exec_at r prev []) eqn:He; inversion H; subst.
    apply exec_at_sound in He. exists []. exact He.
  - destruct (exec_at r prev (c :: s)) eqn:He.
    + inversion H; subst. apply exec_at_sound in He. exists []. exact He.
    + apply IH in H. destruct H as (before & Hs & Hd).
      exists (c :: before). simpl. rewrite <- Hs. auto.
Qed.

Lemma match_all_from_sound (r : regex) (t : string) (s : list ascii) :
  forall prev skip,
    In t (match_all_from r prev s skip) ->
    denote r (list_ascii_of_string t).
Proof.
  induction s as [|c s IH]; intros prev skip H.
  - destruct skip; cbn [match_all_from] in H; [|contradiction].
    destruct (exec_at r prev []) eqn:He; [|contradiction].
    cbv zeta in H. destruct H as [<-|[]]. rewrite list_ascii_of_string_of_list_ascii.
    apply exec_at_sound in He. apply He.
  - destruct skip; cbn [match_all_from] in H; [|eauto].
    destruct (exec_at r prev (c :: s)) eqn:He; [|eauto].
    cbv zeta in H. destruct H as [<-|H]; [|eauto].
    rewrite list_ascii_of_string_of_list_ascii.
    apply exec_at_sound in He. apply He.
Qed.

Lemma denote_nil (r : regex) : denote r [] -> nullable r = true.
Proof.
  induction r as [|cc|r1 IH1 r2 IH2|r1 IH1 r2 IH2|r1 IH1|cc|cc|n r1 IH1| | |];
    simpl; auto.
  - intros (x & H & _). discriminate.
  - intros (u & v & H & Hu & Hv). symmetry in H. apply app_eq_nil in H.
    destruct H; subst. rewrite IH1, IH2; auto.
  - intros [H|H]; [rewrite IH1|rewrite IH2]; auto using orb_true_r.
  - intros (x & v & H & _). discriminate.
Qed.

End ReFacts.

(** ** The mark automaton follows the words of a regular expression *)

Module MarkFacts.
Import Re ReWords ReFacts Mark.

Lemma in_all_ascii (c : ascii) : In c all_ascii.
Proof.
  change all_ascii with (map ascii_of_nat (seq 0 256)).
  rewrite <- (ascii_nat_embedding c). apply in_map.
  apply in_seq. pose proof (nat_ascii_bounded c). lia.
Qed.

Lemma dedup_In (l : list nat) (q : nat) : In q l -> In q (dedup l).
Proof.
  induction l as [|x l IH]; simpl; [auto|].
  intros [->|Hq].
  - destruct (existsb (Nat.eqb q) l) eqn:Hex; [|left; reflexivity].
    apply IH. apply existsb_exists in Hex. destruct Hex as (y & Hy & Heq).
    apply Nat.eqb_eq in Heq. subst. exact Hy.
  - destruct (existsb (Nat.eqb x) l); [|right]; auto.
Qed.

Lemma in_class_chars (cc : cclass) (c : ascii) :
  in_class cc c = true -> In c (class_chars cc).
Proof.
  intros Hc.
  assert (Hall : In c (filter (in_class cc) all_ascii))
    by (apply filter_In; split; [apply in_all_ascii|exact Hc]).
  destruct cc; try exact Hall.
  simpl in Hc. apply Ascii.eqb_eq in Hc. left. exact Hc.
Qed.

Lemma subset_sound (l1 l2 : list nat) (q : nat) :
  subset l1 l2 = true -> In q l1 -> In q l2.
Proof.
  unfold subset. rewrite forallb_forall. intros H Hq. specialize (H q Hq).
  apply existsb_exists in H. destruct H as (q' & Hin & Heq).
  apply Nat.eqb_eq in Heq. subst. exact Hin.
Qed.

Section Automaton.

Variable mark : list ascii.

Local Abbreviation final := (Mark.final mark).
Local Abbreviation mstep := (Mark.mstep mark).
Local Abbreviation run := (Mark.run mark).
Local Abbreviation states := (Mark.states mark).
Local Abbreviation step_set := (Mark.step_set mark).
Local Abbreviation grow := (Mark.grow mark).
Local Abbreviation star_set := (Mark.star_set mark).
Local Abbreviation post := (Mark.post mark).
Local Abbreviation always := (Mark.always mark).
Local Abbreviation never := (Mark.never mark).

Lemma mstep_le (q : nat) (x : ascii) : (mstep q x <= final)%nat.
Proof.
  unfold Mark.mstep. destruct (Nat.leb_spec final q); [lia|].
  destruct (Ascii.eqb _ x); [lia|]. destruct (Ascii.eqb _ x); lia.
Qed.

Lemma run_le (w : list ascii) : forall q, (q <= final)%nat -> (run q w <= final)%nat.
Proof.
  unfold Mark.run. induction w as [|x w IH]; intros q Hq; simpl; [exact Hq|].
  apply IH. apply mstep_le.
Qed.

Lemma run_final (w : list ascii) : run final w = final.
Proof.
  unfold Mark.run. induction w as [|x w IH]; simpl; [reflexivity|].
  unfold Mark.mstep at 2. rewrite Nat.leb_refl. exact IH.
Qed.

Lemma run_app (u v : list ascii) (q : nat) : run q (u ++ v) = run (run q u) v.
Proof.
  unfold Mark.run. apply fold_left_app.
Qed.

Lemma in_states (q : nat) : (q <= final)%nat -> In q states.
Proof.
  intros Hq. unfold Mark.states. apply in_seq. lia.
Qed.

Lemma step_set_sound (cc : cclass) (qs : list nat) (q : nat) (c : ascii) :
  In q qs -> in_class cc c = true -> In (mstep q c) (step_set cc qs).
Proof.
  intros Hq Hc. unfold Mark.step_set. apply dedup_In. apply in_flat_map.
  exists q. split; [exact Hq|]. apply in_map. apply in_class_chars. exact Hc.
Qed.

Lemma grow_incl (cc : cclass) (fuel : nat) :
  forall qs q, In q qs -> In q (grow cc fuel qs).
Proof.
  induction fuel as [|fuel IH]; intros qs q Hq; simpl; [exact Hq|].
  apply IH. apply dedup_In. apply in_or_app. left. exact Hq.
Qed.

Lemma star_set_sound (cc : cclass) (qs : list nat) (w : list ascii) :
  forallb (in_class cc) w = true ->
  forall q, In q qs -> In (run q w) (star_set cc qs).
Proof.
  intros Hw q Hq. unfold Mark.star_set. cbv zeta.
  destruct (subset _ _) eqn:Hclosed.
  - assert (Hstart : In q (grow cc (S final) qs)) by (apply grow_incl; exact Hq).
    clear Hq. revert q Hstart. unfold Mark.run.
    induction w as [|x w IH]; intros q Hstart; simpl; [exact Hstart|].
    simpl in Hw. apply andb_true_iff in Hw. destruct Hw as [Hx Hw].
    apply IH; [exact Hw|].
    apply (subset_sound _ _ _ Hclosed). apply step_set_sound; assumption.
  - apply in_or_app. destruct w as [|x w]; [left; exact Hq|right].
    apply in_states. change (run q (x :: w)) with (run (mstep q x) w).
    apply run_le. apply mstep_le.
Qed.

Lemma post_sound (r : regex) :
  forall w qs q, denote r w -> In q qs -> In (run q w) (post r qs).
Proof.
  induction r as [|cc|r1 IH1 r2 IH2|r1 IH1 r2 IH2|r1 IH1|cc|cc|n r1 IH1| | |];
    intros w qs q Hw Hq; simpl in Hw |- *;
    try (subst w; exact Hq).
  - destruct Hw as (c & -> & Hc). apply step_set_sound; assumption.
  - destruct Hw as (u & v & -> & Hu & Hv). rewrite run_app. eauto.
  - apply dedup_In. apply in_or_app. destruct Hw; eauto.
  - apply dedup_In. apply in_or_app. destruct Hw as [->|Hw]; eauto.
  - apply star_set_sound; assumption.
  - destruct Hw as (c & v & -> & Hc & Hv).
    change (run q (c :: v)) with (run (mstep q c) v).
    apply star_set_sound; [exact Hv|]. apply step_set_sound; assumption.
  - eauto.
Qed.

Lemma always_sound (r : regex) (before w rest : list ascii) :
  always r = true -> denote r w -> run 0 (before ++ w ++ rest) = final.
Proof.
  unfold Mark.always. rewrite forallb_forall. intros Hall Hw.
  rewrite !run_app.
  assert (Hin : In (run (run 0 before) w) (post r states)).
  { apply post_sound; [exact Hw|]. apply in_states. apply run_le. lia. }
  apply Hall in Hin. apply Nat.eqb_eq in Hin. rewrite <- Hin. apply run_final.
Qed.

Lemma never_sound (r : regex) (w : list ascii) :
  never r = true -> denote r w -> run 0 w <> final.
Proof.
  unfold Mark.never. intros Hnever Hw Heq. apply negb_true_iff in Hnever.
  assert (Hin : In (run 0 w) (post r [0%nat]))
    by (apply post_sound; [exact Hw|left; reflexivity]).
  assert (Hex : existsb (Nat.eqb final) (post r [0%nat]) = true).
  { apply existsb_exists. exists (run 0 w). split; [exact Hin|].
    apply Nat.eqb_eq. symmetry. exact Heq. }
  congruence.
Qed.

End Automaton.

(** A regular expression all of whose words contain the mark cannot match
    inside a word of a regular expression none of whose words does. *)
Lemma apart (mark : list ascii) (r1 r2 : regex) (before w rest : list ascii) :
  never mark r1 = true ->
  always mark r2 = true ->
  denote r1 (before ++ w ++ rest) ->
  denote r2 w ->
  False.
Proof.
  intros Hnever Halways H1 H2.
  apply (never_sound mark r1 _ Hnever H1).
  apply (always_sound mark r2 before w rest Halways H2).
Qed.

End MarkFacts.

(** ** No token is a Marble Hill street name *)

Import ReWords ReFacts.

Lemma mhMarks_apart : streetsApart mhMarks = true.
Proof. vm_compute. reflexivity. Qed.

Lemma mhhMark_apart : markApart mhhRegex mhhMark = true.
Proof. vm_compute. reflexivity. Qed.

Lemma mhMarks_patterns : map fst mhMarks = marbleHillStreetRegexes.
Proof. reflexivity. Qed.

Lemma token_denote (input t : string) :
  In t (tokenize input) -> denote tokenizerRegex (list_ascii_of_string t).
Proof.
  unfold tokenize, Re.match_all. apply match_all_from_sound.
Qed.

Lemma token_nonempty (input t : string) : In t (tokenize input) -> t <> "".
Proof.
  intros Hin Heq. apply token_denote in Hin. subst t. apply denote_nil in Hin.
  vm_compute in Hin. discriminate.
Qed.

Lemma search_contains (r : Re.regex) (t : string) (from : list ascii) (st : Re.mstate) :
  Re.search r t = Some (from, st) ->
  exists before w rest,
    list_ascii_of_string t = before ++ w ++ rest /\ denote r w.
Proof.
  unfold Re.search. intros H. apply search_from_sound in H.
  destruct H as (before & Hs & Hd). eauto.
Qed.

Lemma markApart_sound (r : Re.regex) (mark t : string) :
  markApart r mark = true ->
  denote tokenizerRegex (list_ascii_of_string t) ->
  Re.search r t = None.
Proof.
  unfold markApart. intros Hm Ht. apply andb_true_iff in Hm. destruct Hm as [Hn Ha].
  destruct (Re.search r t) as [[from st]|] eqn:Hs; [exfalso|reflexivity].
  apply search_contains in Hs. destruct Hs as (before & w & rest & Heq & Hw).
  rewrite Heq in Ht. exact (MarkFacts.apart _ _ _ _ _ _ Hn Ha Ht Hw).
Qed.

Lemma streetsApart_sound (table : list (string * string)) (t : string) :
  streetsApart table = true ->
  denote tokenizerRegex (list_ascii_of_string t) ->
  existsb (wholeStringMatchesPattern t) (map fst table) = false.
Proof.
  intros Hall Ht. induction table as [|[p m] table IH]; [reflexivity|].
  unfold streetsApart in Hall. cbn [forallb fst snd] in Hall.
  apply andb_true_iff in Hall. destruct Hall as [Hp Hrest].
  cbn [map existsb fst]. rewrite (IH Hrest), orb_false_r.
  unfold wholeStringMatchesPattern, Re.test.
  rewrite (markApart_sound _ _ _ Hp Ht). reflexivity.
Qed.

Lemma token_no_marble_hill (t : string) :
  denote tokenizerRegex (list_ascii_of_string t) ->
  mhhMatches t = None
  /\ existsb (wholeStringMatchesPattern t) marbleHillStreetRegexes = false.
Proof.
  intros Ht. split.
  - unfold mhhMatches. rewrite (markApart_sound _ _ _ mhhMark_apart Ht). reflexivity.
  - rewrite <- mhMarks_patterns. exact (streetsApart_sound _ _ mhMarks_apart Ht).
Qed.

Lemma thirdCheck_no_street (housenumberInt : option Z) (boro : Z) :
  thirdCheck "" housenumberInt boro = false.
Proof.
  unfold thirdCheck.
  replace (wholeStringMatchesPattern "" west225Pattern) with false
    by (vm_compute; reflexivity).
  reflexivity.
Qed.

Lemma marbleHillStep_no_street (t : string) :
  marbleHillStep [t] 1 "" "" 9 = Ok (9%Z, false).
Proof.
  unfold marbleHillStep, marbleHillChecks.
  replace (marbleHillApplies "" 9) with true by reflexivity.
  replace (mhhMatches "") with (@None (list (nat * list ascii)))
    by (vm_compute; reflexivity).
  replace (existsb (wholeStringMatchesPattern "") marbleHillStreetRegexes)
    with false by (vm_compute; reflexivity).
  cbn [Nat.ltb Nat.leb nth_error]. rewrite thirdCheck_no_street.
  destruct (negb (strIncludes t "-")); reflexivity.
Qed.

Lemma marbleHillStep_no_housenumber (t : string) :
  mhhMatches t = None ->
  existsb (wholeStringMatchesPattern t) marbleHillStreetRegexes = false ->
  marbleHillStep [t] 0 t "" 9 = Ok (9%Z, false).
Proof.
  intros Hmhh Hstreets. unfold marbleHillStep, marbleHillChecks.
  replace (marbleHillApplies "" 9) with true by reflexivity.
  rewrite Hmhh, Hstreets. reflexivity.
Qed.

Lemma parseTokens_lone (t : string) :
  t <> "" ->
  mhhMatches t = None ->
  existsb (wholeStringMatchesPattern t) marbleHillStreetRegexes = false ->
  parseTokens [t] = Ok (loneToken t).
Proof.
  intros Hne Hmhh Hstreets.
  assert (Hnonempty : nonEmpty t = Some t).
  { unfold nonEmpty. destruct (String.eqb_spec t ""); [contradiction|reflexivity]. }
  unfold parseTokens, loneToken, countHousenumberTokens. cbv zeta.
  rewrite beginsWithDigit_spec. cbn [hd].
  destruct (firstCharIsDigit t).
  - change (housenumberLoop (S (List.length [t])) [t] 1) with (Ok 1%nat).
    cbn [bind].
    change (scanLoop (S (List.length [t])) 1 (scanStart [t])) with (Ok (scanStart [t])).
    cbn [bind].
    change (fallbackBoro (scanStart [t])) with 9%Z.
    change (s_tokens (scanStart [t])) with [t].
    change (s_postcode (scanStart [t])) with "".
    change (settleAmbiguous [t] 1) with 1%nat.
    change (streetText [t] 1) with "".
    change (housenumberText [t] 1) with t.
    rewrite marbleHillStep_no_street, Hnonempty. reflexivity.
  - cbn [bind].
    change (scanLoop (S (List.length [t])) 0 (scanStart [t])) with (Ok (scanStart [t])).
    cbn [bind].
    change (fallbackBoro (scanStart [t])) with 9%Z.
    change (s_tokens (scanStart [t])) with [t].
    change (s_postcode (scanStart [t])) with "".
    change (settleAmbiguous [t] 0) with 0%nat.
    change (streetText [t] 0) with t.
    rewrite (marbleHillStep_no_housenumber _ Hmhh Hstreets), Hnonempty. reflexivity.
Qed.

(** C10.  For every input that the tokenizer turns into exactly one token,
    the output has no [borough], no [postcode] and no [marble_hill]: the
    loop of step 3 does not run, and no lone token is a Marble Hill street
    name.  The token is the [housenumber], alone, when it begins with a
    digit, and the [street], alone, otherwise, even when it looks like a
    zip code or a borough name. *)
Theorem C10_lone_token (input t : string) :
  tokenize input = [t] ->
  parseNycAddress input = Ok (loneToken t).
Proof.
  intros Htok.
  assert (Hin : In t (tokenize input)) by (rewrite Htok; left; reflexivity).
  destruct (token_no_marble_hill t (token_denote _ _ Hin)) as [Hmhh Hstreets].
  unfold parseNycAddress. rewrite Htok.
  apply parseTokens_lone; [exact (token_nonempty _ _ Hin)|exact Hmhh|exact Hstreets].
Qed.

Lemma C10_lone_token_witness :
  tokenize "10463" = ["10463"]
  /\ parseNycAddress "10463" = out (Some "10463") None None None None.
Proof.
  split; [vm_compute; reflexivity|].
  apply (C10_lone_token "10463" "10463"). vm_compute. reflexivity.
Defined.

Example lone_borough_name :
  parseNycAddress "Brooklyn" = out None (Some "BROOKLYN") None None None.
Proof. vm_compute. reflexivity. Qed.

Example lone_fused_token :
  tokenize "staten island" = ["STATEN ISLAND"]
  /\ parseNycAddress "staten island" = out None (Some "STATEN ISLAND") None None None.
Proof. vm_compute. split; reflexivity. Qed.

(** * Further properties of the code *)

(** ** The house number and the street of the output *)

Lemma nonEmpty_some (s : string) : s <> "" -> nonEmpty s = Some s.
Proof.
  intros H. unfold nonEmpty. destruct (String.eqb_spec s ""); [contradiction|reflexivity].
Qed.

Lemma firstCharIsDigit_nonempty (t : string) : firstCharIsDigit t = true -> t <> "".
Proof. destruct t; [discriminate|discriminate]. Qed.

Lemma append_nonempty (t rest : string) : t <> "" -> (t ++ rest)%string <> "".
Proof. destruct t; [contradiction|discriminate]. Qed.

Lemma join_nonempty (t : string) (ts : list string) : t <> "" -> join (t :: ts) <> "".
Proof.
  intros Ht. unfold join. destruct ts as [|t' ts]; [exact Ht|].
  change (String.concat " " (t :: t' :: ts))
    with (t ++ " " ++ String.concat " " (t' :: ts))%string.
  apply append_nonempty, Ht.
Qed.

Lemma settleAmbiguous_cases (tokens : list string) (count : nat) :
  settleAmbiguous tokens count = count
  \/ (settleAmbiguous tokens count = S count
      /\ (count + 1 < List.length tokens)%nat
      /\ includes ambiguousTokens (orEmpty (nth_error tokens count)) = true).
Proof.
  unfold settleAmbiguous. destruct (0 <? count)%nat; [|left; reflexivity].
  destruct (moreThanOneLeft tokens count) eqn:Hm; [|left; reflexivity].
  destruct (includes ambiguousTokens (orEmpty (nth_error tokens count))) eqn:Ha;
    [|left; reflexivity].
  destruct (negb _); [|left; reflexivity].
  right. apply moreThanOneLeft_spec in Hm. auto.
Qed.

Lemma settleAmbiguous_lt (tokens : list string) (count : nat) :
  (count < List.length tokens)%nat ->
  (settleAmbiguous tokens count < List.length tokens)%nat.
Proof.
  intros Hlt.
  destruct (settleAmbiguous_cases tokens count) as [->|(-> & Hmore & _)]; lia.
Qed.

Lemma absorbs_suffix (tokens : list string) (i : nat) (x : string) :
  nth_error tokens i = Some x ->
  absorbs tokens i = true ->
  includes (housenumberTokens ++ ambiguousTokens) x = true.
Proof.
  unfold absorbs. intros -> H. cbn [includesAt] in H. rewrite includes_app.
  apply orb_true_iff in H. destruct H as [->|H]; [reflexivity|].
  apply andb_true_iff in H. destruct H as [-> _]. apply orb_true_r.
Qed.

(** X1.  For every list of tokens, with [r] the output: when the first
    token begins with a digit, the [housenumber] of [r] is that token
    followed, each after one space, by tokens that are all in
    [housenumberTokens] or [ambiguousTokens]; when it does not (or there
    is no token), [r] has no [housenumber]. *)
Theorem housenumber_is_number_and_suffixes (tokens : list string) :
  exists r,
    parseTokens tokens = Ok r
    /\ if firstCharIsDigit (hd "" tokens)
       then exists suffixes,
              housenumber r = Some (join (hd "" tokens :: suffixes))
              /\ Forall (fun t => includes (housenumberTokens ++ ambiguousTokens) t = true)
                        suffixes
       else housenumber r = None.
Proof.
  destruct (parseTokens_run tokens)
    as (count & st & b & m & Hcount & Hle & Hscan & _ & Hrun).
  rewrite Hrun. eexists. split; [reflexivity|]. cbn [housenumber].
  unfold countHousenumberTokens in Hcount. rewrite beginsWithDigit_spec in Hcount.
  pose proof (scanLoop_length _ _ _ _ Hscan) as Hlen.
  pose proof (scanLoop_prefix _ _ _ _ Hscan) as Hprefix.
  destruct (firstCharIsDigit (hd "" tokens)) eqn:Hd.
  - destruct tokens as [|t0 ts]; [discriminate Hd|]. cbn [hd] in *.
    destruct (housenumberLoop_spec (S (List.length (t0 :: ts))) (t0 :: ts) 1)
      as (n & Hrun1 & Hge & _ & Htrue & _); [simpl; lia|].
    rewrite Hrun1 in Hcount. inversion Hcount; subst n. clear Hcount Hrun1.
    set (kept := s_tokens st) in *.
    assert (Hk : (count <= List.length kept)%nat) by lia.
    pose proof (settleAmbiguous_le kept count Hk) as Hsettle.
    destruct (Nat.ltb_spec 0 (settleAmbiguous kept count)); [|lia].
    unfold housenumberText.
    assert (Hfirst : firstn (settleAmbiguous kept count) kept
                     = t0 :: firstn (settleAmbiguous kept count - 1) ts).
    { generalize dependent (settleAmbiguous kept count). intros n' Hn' Hpos.
      rewrite Hprefix, firstn_firstn.
      replace (Nat.min n' (List.length kept)) with (S (n' - 1)) by lia.
      reflexivity. }
    rewrite Hfirst. exists (firstn (settleAmbiguous kept count - 1) ts). split.
    + apply nonEmpty_some, join_nonempty, firstCharIsDigit_nonempty, Hd.
    + apply Forall_forall. intros x Hx. apply In_nth_error in Hx. destruct Hx as (i & Hi).
      rewrite nth_error_firstn in Hi.
      destruct (Nat.ltb_spec i (settleAmbiguous kept count - 1)) as [Hlt|]; [|discriminate Hi].
      change (nth_error ts i) with (nth_error (t0 :: ts) (S i)) in Hi.
      destruct (Nat.lt_ge_cases (S i) count) as [Hin|Hout].
      * apply (absorbs_suffix _ _ _ Hi). apply Htrue. lia.
      * destruct (settleAmbiguous_cases kept count) as [Heq|(Heq & Hmore & Hamb)]; [lia|].
        assert (Hi' : S i = count) by lia.
        rewrite Hprefix, nth_error_firstn in Hamb.
        destruct (Nat.ltb_spec count (List.length kept)) as [_|]; [|lia].
        rewrite <- Hi', Hi in Hamb. cbn [orEmpty] in Hamb.
        rewrite includes_app, Hamb. apply orb_true_r.
  - inversion Hcount; subst count.
    replace (settleAmbiguous (s_tokens st) 0) with 0%nat by reflexivity.
    reflexivity.
Qed.

Lemma scanLoop_not_entered (count fuel : nat) (tokens : list string) :
  (List.length tokens <= count + 1)%nat ->
  scanLoop (S fuel) count (scanStart tokens) = Ok (scanStart tokens).
Proof.
  intros Hle. simpl.
  destruct (moreThanOneLeft tokens count) eqn:Hm; [|reflexivity].
  apply moreThanOneLeft_spec in Hm. lia.
Qed.

(** X2.  For every input, the output has no [street] exactly when step 2
    counted every token into the house number: as soon as one token lies
    beyond the house-number count, a [street] is returned. *)
Theorem street_absent_iff_only_housenumber (input : string) :
  exists count r,
    countHousenumberTokens (S (List.length (tokenize input))) (tokenize input) = Ok count
    /\ parseNycAddress input = Ok r
    /\ (street r = None <-> count = List.length (tokenize input)).
Proof.
  unfold parseNycAddress.
  destruct (parseTokens_run (tokenize input))
    as (count & st & b & m & Hcount & Hle & Hscan & _ & Hrun).
  exists count. eexists. split; [exact Hcount|]. split; [exact Hrun|].
  cbn [street]. split.
  - intros Hnone.
    destruct (Nat.eq_dec count (List.length (tokenize input))) as [Heq|Hne]; [exact Heq|].
    exfalso.
    assert (Hkept : (count < List.length (s_tokens st))%nat).
    { apply scanLoop_keeps_one with (tokens := tokenize input)
                                     (fuel := S (List.length (tokenize input)));
        [lia|exact Hscan]. }
    pose proof (settleAmbiguous_lt _ _ Hkept) as Hlt.
    unfold streetText in Hnone.
    destruct (skipn (settleAmbiguous (s_tokens st) count) (s_tokens st)) as [|t ts] eqn:Hskip.
    + apply (f_equal (@List.length string)) in Hskip. rewrite length_skipn in Hskip.
      simpl in Hskip. lia.
    + assert (Hin : In t (tokenize input)).
      { destruct (scanLoop_popped _ _ _ _ Hscan) as (popped & Heq & _).
        rewrite Heq. apply in_or_app. left.
        rewrite <- (firstn_skipn (settleAmbiguous (s_tokens st) count) (s_tokens st)).
        apply in_or_app. right. rewrite Hskip. left. reflexivity. }
      apply token_nonempty in Hin.
      rewrite (nonEmpty_some _ (join_nonempty t ts Hin)) in Hnone. discriminate Hnone.
  - intros Heq. subst count.
    rewrite scanLoop_not_entered in Hscan by lia.
    inversion Hscan; subst st. cbn [s_tokens scanStart].
    destruct (settleAmbiguous_cases (tokenize input) (List.length (tokenize input)))
      as [->|(_ & Hmore & _)]; [|lia].
    unfold streetText. rewrite skipn_all. reflexivity.
Qed.

(** X3.  For every list of tokens, the tokens split, in order, into those
    of the [housenumber], those of the [street] and the tokens that step 3
    popped: the two fields are these tokens joined by single spaces, and
    every popped token begins with five digits or is borough, city, state
    or country evidence.  No token is dropped and none is made up. *)
Theorem every_token_accounted_for (tokens : list string) :
  exists r numberTokens streetTokens popped,
    parseTokens tokens = Ok r
    /\ tokens = numberTokens ++ streetTokens ++ popped
    /\ orEmpty (housenumber r) = join numberTokens
    /\ orEmpty (street r) = join streetTokens
    /\ Forall (fun t => recognised t = true) popped.
Proof.
  destruct (parseTokens_run tokens) as (count & st & b & m & _ & _ & Hscan & _ & Hrun).
  destruct (scanLoop_popped _ _ _ _ Hscan) as (popped & Heq & Hall).
  rewrite Hrun. eexists.
  exists (firstn (settleAmbiguous (s_tokens st) count) (s_tokens st)),
         (skipn (settleAmbiguous (s_tokens st) count) (s_tokens st)), popped.
  split; [reflexivity|]. cbn [housenumber street].
  split; [rewrite app_assoc, firstn_skipn; exact Heq|].
  split; [|split; [apply nonEmpty_orEmpty|exact Hall]].
  destruct (Nat.ltb_spec 0 (settleAmbiguous (s_tokens st) count)) as [Hpos|Hzero].
  - apply nonEmpty_orEmpty.
  - replace (settleAmbiguous (s_tokens st) count) with 0%nat by lia. reflexivity.
Qed.

Lemma indexOfIsZero_prefix (str sub : string) :
  indexOfIsZero str sub = true -> substring 0 (String.length sub) str = sub.
Proof.
  unfold indexOfIsZero. destruct (index 0 sub str) as [[|n]|] eqn:Hi; try discriminate.
  intros _. apply index_correct1 in Hi. exact Hi.
Qed.

(** X4.  For every list of tokens: an output that has both [marble_hill]
    and a [postcode] has a postcode that begins with 10463.  With any
    other zip code the Marble Hill checks are not run. *)
Theorem marble_hill_needs_zip_10463 (tokens : list string) :
  exists r,
    parseTokens tokens = Ok r
    /\ match marble_hill r, postcode r with
       | Some _, Some p => substring 0 5 p = "10463"
       | _, _ => True
       end.
Proof.
  destruct (parseTokens_run tokens)
    as (count & st & b & m & _ & _ & _ & Hmh & Hrun).
  rewrite Hrun. eexists. split; [reflexivity|]. cbn [marble_hill postcode].
  destruct m; [|exact I].
  unfold marbleHillStep in Hmh.
  destruct (marbleHillApplies (s_postcode st) (fallbackBoro st)) eqn:Happ;
    [|discriminate Hmh].
  unfold marbleHillApplies in Happ. apply andb_true_iff in Happ. destruct Happ as [Hp _].
  apply orb_true_iff in Hp. destruct Hp as [Hp|Hp].
  - apply String.eqb_eq in Hp. rewrite Hp. exact I.
  - destruct (nonEmpty (s_postcode st)) as [p|] eqn:Hn; [|exact I].
    unfold nonEmpty in Hn. destruct (String.eqb (s_postcode st) ""); inversion Hn; subst p.
    exact (indexOfIsZero_prefix _ _ Hp).
Qed.

(** ** One more token at the end of the input *)

Lemma includes_In (l : list string) (t : string) : includes l t = true -> In t l.
Proof.
  unfold includes. intros H. apply existsb_exists in H.
  destruct H as (x & Hin & Heq). apply String.eqb_eq in Heq. subst. exact Hin.
Qed.

Lemma suffix_tokens_not_recognised (t : string) :
  includes (housenumberTokens ++ ambiguousTokens) t = true -> recognised t = false.
Proof.
  intros H. apply includes_In in H.
  assert (Hall : forallb (fun x => negb (recognised x))
                   (housenumberTokens ++ ambiguousTokens) = true)
    by (vm_compute; reflexivity).
  rewrite forallb_forall in Hall. apply Hall in H. apply negb_true_iff in H. exact H.
Qed.

Lemma recognised_not_suffix (t : string) :
  recognised t = true -> includes (housenumberTokens ++ ambiguousTokens) t = false.
Proof.
  intros H. destruct (includes _ t) eqn:Hi; [|reflexivity].
  apply suffix_tokens_not_recognised in Hi. congruence.
Qed.

Lemma absorbs_app (tokens : list string) (t : string) (i : nat) :
  includes (housenumberTokens ++ ambiguousTokens) t = false ->
  (i < List.length tokens)%nat ->
  absorbs (tokens ++ [t]) i = absorbs tokens i.
Proof.
  intros Ht Hi. unfold absorbs. rewrite (nth_error_app1 tokens [t] Hi).
  destruct (Nat.eq_dec (i + 1) (List.length tokens)) as [Heq|Hne].
  - rewrite nth_error_app2 by lia. rewrite Heq, Nat.sub_diag.
    replace (nth_error tokens (List.length tokens)) with (@None string)
      by (symmetry; apply nth_error_None; lia).
    cbn [nth_error orEmpty]. rewrite Ht.
    replace (includes (housenumberTokens ++ ambiguousTokens) "") with false
      by (vm_compute; reflexivity).
    reflexivity.
  - rewrite nth_error_app1 by lia. reflexivity.
Qed.

(** The count of step 2 does not change when a token that is no
    house-number suffix is appended after the first street token. *)
Lemma countHousenumberTokens_app (tokens : list string) (t : string) (count : nat) :
  countHousenumberTokens (S (List.length tokens)) tokens = Ok count ->
  (count < List.length tokens)%nat ->
  includes (housenumberTokens ++ ambiguousTokens) t = false ->
  countHousenumberTokens (S (List.length (tokens ++ [t]))) (tokens ++ [t]) = Ok count.
Proof.
  intros Hcount Hlt Ht. unfold countHousenumberTokens in *.
  assert (Hhd : beginsWithDigit (tokens ++ [t]) = beginsWithDigit tokens).
  { unfold beginsWithDigit. destruct tokens; [simpl in Hlt; lia|reflexivity]. }
  rewrite Hhd. destruct (beginsWithDigit tokens) eqn:Hd; [|exact Hcount].
  destruct (housenumberLoop_spec (S (List.length tokens)) tokens 1)
    as (n & Hrun & Hle & _ & Htrue & Hfalse); [lia|].
  rewrite Hrun in Hcount. inversion Hcount; subst n. clear Hcount.
  destruct (housenumberLoop_spec (S (List.length (tokens ++ [t]))) (tokens ++ [t]) 1)
    as (n' & Hrun' & Hle' & _ & Htrue' & Hfalse'); [lia|].
  rewrite Hrun'. f_equal. rewrite length_app in Hfalse'. simpl in Hfalse'.
  destruct (Nat.lt_trichotomy n' count) as [Hless|[Heq|Hmore]]; [|exact Heq|].
  - specialize (Hfalse' ltac:(lia)). rewrite absorbs_app in Hfalse' by (assumption || lia).
    rewrite Htrue in Hfalse' by lia. discriminate Hfalse'.
  - specialize (Htrue' count ltac:(lia)).
    rewrite absorbs_app in Htrue' by (assumption || lia).
    rewrite Hfalse in Htrue' by lia. discriminate Htrue'.
Qed.

Lemma lastToken_app (tokens : list string) (t : string) : lastToken (tokens ++ [t]) = t.
Proof.
  unfold lastToken. rewrite length_app. simpl.
  rewrite nth_error_app2 by lia.
  replace (List.length tokens + 1 - 1 - List.length tokens)%nat with 0%nat by lia.
  reflexivity.
Qed.

Lemma pop_app (tokens : list string) (t : string) : pop (tokens ++ [t]) = tokens.
Proof.
  unfold pop. apply removelast_last.
Qed.

Lemma scanLoop_shrinks (count fuel n : nat) (st st' : scan) :
  (List.length (s_tokens st) <= n)%nat ->
  scanLoop fuel count st = Ok st' ->
  (List.length (s_tokens st') <= n)%nat.
Proof.
  intros Hlen Hrun.
  apply (scanLoop_invariant count
           (fun st => (List.length (s_tokens st) <= n)%nat)) in Hrun; auto.
  intros st0 st2 f _ HP Hb. apply scanBody_tokens in Hb.
  destruct Hb as [Hp|[Hs _]]; [rewrite Hp, pop_length; lia|rewrite Hs; exact HP].
Qed.

(** When step 3 pops nothing, it returns its starting state, and the last
    token, if the loop looked at it, is not recognised. *)
Lemma scanPopsNothing_start (tokens : list string) (count : nat) :
  scanPopsNothing tokens count = true ->
  scanLoop (S (List.length tokens)) count (scanStart tokens) = Ok (scanStart tokens)
  /\ (moreThanOneLeft tokens count = true -> recognised (lastToken tokens) = false).
Proof.
  unfold scanPopsNothing. cbn [scanLoop]. cbn [s_tokens scanStart].
  destruct (moreThanOneLeft tokens count) eqn:Hmore; [|intros _; split; [reflexivity|discriminate]].
  fold (scanStart tokens).
  destruct (scanBody (scanStart tokens)) as [st1 f] eqn:Hbody.
  pose proof (moreThanOneLeft_nonempty _ _ Hmore) as Hne.
  assert (Hpos : (0 < List.length tokens)%nat)
    by (destruct tokens; [contradiction|simpl; lia]).
  apply scanBody_cases in Hbody.
  destruct Hbody as [_ H5 Hst Hf|[Hz|H5] Hb Hst Hf|[Hz|H5] Hb Hst Hf];
    cbn [s_tokens s_zipBoro s_boro s_foundNy s_postcode scanStart] in *; subst st1 f;
    try (exfalso; apply Hz; reflexivity).
  - destruct (scanLoop _ count _) as [st'| |] eqn:Hrun; try discriminate.
    apply (scanLoop_shrinks _ _ (List.length tokens - 1)) in Hrun;
      [|simpl; rewrite pop_length; lia].
    intros H. apply Nat.eqb_eq in H. lia.
  - intros _. split; [reflexivity|]. intros _. unfold recognised.
    rewrite H5, Hb. reflexivity.
  - destruct (tokenBoro (lastToken tokens) <? 6)%Z.
    + simpl. rewrite pop_length. intros H. apply Nat.eqb_eq in H. lia.
    + destruct (scanLoop _ count _) as [st'| |] eqn:Hrun; try discriminate.
      apply (scanLoop_shrinks _ _ (List.length tokens - 1)) in Hrun;
        [|simpl; rewrite pop_length; lia].
      intros H. apply Nat.eqb_eq in H. lia.
Qed.

(** The body of the loop, by the two tests it makes on the last token. *)
Lemma scanBody_eq (st : scan) :
  scanBody st
  = let finalToken := lastToken (s_tokens st) in
    if (s_zipBoro st =? 9)%Z && beginsWithFiveDigits finalToken then
      (mkScan (pop (s_tokens st)) (s_boro st)
              (orZ (lookup zipPrefixBoros (zipPrefix finalToken)) 7)
              (s_foundNy st) finalToken, Continue)
    else if (tokenBoro finalToken =? 9)%Z then
      (mkScan (s_tokens st) 9 (s_zipBoro st) (s_foundNy st) (s_postcode st), Break)
    else
      (mkScan (pop (s_tokens st)) (tokenBoro finalToken) (s_zipBoro st)
              (if (tokenBoro finalToken =? 6)%Z then true else s_foundNy st)
              (s_postcode st),
       if (tokenBoro finalToken <? 6)%Z then Break else Continue).
Proof.
  unfold scanBody. cbv zeta. rewrite zipMatches_spec.
  destruct (s_zipBoro st =? 9)%Z; cbn [andb].
  - destruct (beginsWithFiveDigits (lastToken (s_tokens st))); [reflexivity|].
    destruct (tokenBoro (lastToken (s_tokens st)) =? 9)%Z eqn:Hb; [|reflexivity].
    apply Z.eqb_eq in Hb. rewrite Hb. reflexivity.
  - destruct (tokenBoro (lastToken (s_tokens st)) =? 9)%Z eqn:Hb; [|reflexivity].
    apply Z.eqb_eq in Hb. rewrite Hb. reflexivity.
Qed.

Lemma scanLoop_app_recognised (tokens : list string) (count : nat) (t : string) :
  (count < List.length tokens)%nat ->
  scanPopsNothing tokens count = true ->
  recognised t = true ->
  scanLoop (S (List.length (tokens ++ [t]))) count (scanStart (tokens ++ [t]))
  = Ok (scanAfter tokens count t).
Proof.
  intros Hlt Hnone Hrec.
  destruct (scanPopsNothing_start _ _ Hnone) as [_ Hlast].
  assert (Hmore : moreThanOneLeft (tokens ++ [t]) count = true)
    by (apply moreThanOneLeft_spec; rewrite length_app; simpl; lia).
  assert (Hfuel : List.length (tokens ++ [t]) = S (List.length tokens))
    by (rewrite length_app; simpl; lia).
  rewrite Hfuel. unfold scanAfter.
  cbn [scanLoop]. cbn [scanStart s_tokens]. rewrite Hmore. fold (scanStart (tokens ++ [t])).
  rewrite scanBody_eq. cbv zeta.
  cbn [scanStart s_tokens s_zipBoro s_boro s_foundNy s_postcode].
  rewrite lastToken_app, pop_app. rewrite Z.eqb_refl. cbn [andb].
  unfold recognised in Hrec, Hlast.
  destruct (beginsWithFiveDigits t) eqn:H5.
  - cbn [s_tokens].
    destruct (moreThanOneLeft tokens count) eqn:Hm; [|reflexivity].
    rewrite scanBody_eq. cbv zeta.
    cbn [s_tokens s_zipBoro s_boro s_foundNy s_postcode].
    specialize (Hlast eq_refl). apply orb_false_iff in Hlast. destruct Hlast as [_ Hb].
    apply negb_false_iff in Hb. rewrite Hb.
    destruct (orZ (lookup zipPrefixBoros (zipPrefix t)) 7 =? 9)%Z eqn:Hz;
      [apply Z.eqb_eq in Hz; destruct (zipBoro_not_9 _ Hz)|].
    reflexivity.
  - cbn [orb] in Hrec. apply negb_true_iff in Hrec. rewrite Hrec.
    destruct (tokenBoro t <? 6)%Z eqn:H6.
    + assert (H66 : (tokenBoro t =? 6)%Z = false)
        by (apply Z.eqb_neq; apply Z.ltb_lt in H6; lia).
      rewrite H66. reflexivity.
    + cbn [s_tokens].
      destruct (moreThanOneLeft tokens count) eqn:Hm.
      * rewrite scanBody_eq. cbv zeta.
        cbn [s_tokens s_zipBoro s_boro s_foundNy s_postcode].
        specialize (Hlast eq_refl). apply orb_false_iff in Hlast. destruct Hlast as [Hf Hb].
        apply negb_false_iff in Hb. rewrite Hb, Hf. rewrite Z.eqb_refl. cbn [andb].
        destruct (tokenBoro t =? 6)%Z; reflexivity.
      * destruct (tokenBoro t =? 6)%Z; reflexivity.
Qed.

Lemma beginsWithFiveDigits_nonempty (t : string) :
  beginsWithFiveDigits t = true -> t <> "".
Proof. destruct t; [discriminate|discriminate]. Qed.

(** X5.  For every list of tokens that has a token beyond the house-number
    count and of which step 3 pops none: with one more token at the end
    that begins with five digits or is borough, city, state or country
    evidence, the [housenumber] and the [street] are the same as without
    it; the [postcode] is the appended token when that begins with five
    digits, and is absent otherwise. *)
Theorem appended_evidence_keeps_address (tokens : list string) (count : nat) (t : string) :
  countHousenumberTokens (S (List.length tokens)) tokens = Ok count ->
  (count < List.length tokens)%nat ->
  scanPopsNothing tokens count = true ->
  recognised t = true ->
  exists r r',
    parseTokens tokens = Ok r
    /\ parseTokens (tokens ++ [t]) = Ok r'
    /\ housenumber r' = housenumber r
    /\ street r' = street r
    /\ postcode r' = (if beginsWithFiveDigits t then Some t else None).
Proof.
  intros Hcount Hlt Hnone Hrec.
  pose proof (countHousenumberTokens_app _ t _ Hcount Hlt (recognised_not_suffix _ Hrec))
    as Hcount'.
  pose proof (scanLoop_app_recognised _ _ _ Hlt Hnone Hrec) as Hscan'.
  destruct (scanPopsNothing_start _ _ Hnone) as [Hscan _].
  destruct (parseTokens_run tokens) as (c & st & b & m & Hc & _ & Hs & _ & Hrun).
  rewrite Hcount in Hc. inversion Hc; subst c. clear Hc.
  rewrite Hscan in Hs. inversion Hs; subst st. clear Hs.
  destruct (parseTokens_run (tokens ++ [t])) as (c & st & b' & m' & Hc & _ & Hs & _ & Hrun').
  rewrite Hcount' in Hc. inversion Hc; subst c. clear Hc.
  rewrite Hscan' in Hs. inversion Hs; subst st. clear Hs.
  assert (Htok : s_tokens (scanAfter tokens count t) = tokens).
  { unfold scanAfter. destruct (beginsWithFiveDigits t); [reflexivity|].
    destruct (tokenBoro t <? 6)%Z; reflexivity. }
  assert (Hpost : s_postcode (scanAfter tokens count t)
                  = if beginsWithFiveDigits t then t else "").
  { unfold scanAfter. destruct (beginsWithFiveDigits t); [reflexivity|].
    destruct (tokenBoro t <? 6)%Z; reflexivity. }
  rewrite Htok, Hpost in Hrun'. cbn [scanStart s_tokens s_postcode] in Hrun.
  eexists. eexists. split; [exact Hrun|]. split; [exact Hrun'|].
  cbn [housenumber street postcode]. split; [reflexivity|]. split; [reflexivity|].
  destruct (beginsWithFiveDigits t) eqn:H5; [|reflexivity].
  apply nonEmpty_some. apply beginsWithFiveDigits_nonempty. exact H5.
Qed.

Lemma appended_evidence_keeps_address_witness :
  countHousenumberTokens 3 ["8"; "E BROADWAY"] = Ok 1%nat
  /\ (1 < List.length ["8"; "E BROADWAY"])%nat
  /\ scanPopsNothing ["8"; "E BROADWAY"] 1 = true
  /\ recognised "10002-1234" = true
  /\ exists r r',
       parseTokens ["8"; "E BROADWAY"] = Ok r
       /\ parseTokens (["8"; "E BROADWAY"] ++ ["10002-1234"]) = Ok r'
       /\ housenumber r' = housenumber r
       /\ street r' = street r
       /\ postcode r' = (if beginsWithFiveDigits "10002-1234"
                         then Some "10002-1234" else None).
Proof.
  split; [vm_compute; reflexivity|].
  split; [simpl; lia|].
  split; [vm_compute; reflexivity|].
  split; [vm_compute; reflexivity|].
  apply (appended_evidence_keeps_address ["8"; "E BROADWAY"] 1 "10002-1234");
    [vm_compute; reflexivity|simpl; lia|vm_compute; reflexivity|vm_compute; reflexivity].
Defined.

Lemma scanLoop_final_borough (tokens : list string) (count fuel : nat) (t : string)
    (zipBoro : Z) (post : string) :
  (count < List.length tokens)%nat ->
  (zipBoro <> 9%Z \/ beginsWithFiveDigits t = false) ->
  (tokenBoro t <= 5)%Z ->
  scanLoop (S fuel) count (mkScan (tokens ++ [t]) 9 zipBoro false post)
  = Ok (mkScan tokens (tokenBoro t) zipBoro false post).
Proof.
  intros Hlt Hzip Hb.
  assert (Hmore : moreThanOneLeft (tokens ++ [t]) count = true)
    by (apply moreThanOneLeft_spec; rewrite length_app; simpl; lia).
  cbn [scanLoop]. cbn [s_tokens]. rewrite Hmore.
  rewrite scanBody_eq. cbv zeta.
  cbn [s_tokens s_zipBoro s_boro s_foundNy s_postcode].
  rewrite lastToken_app, pop_app.
  assert (Hno : (zipBoro =? 9)%Z && beginsWithFiveDigits t = false).
  { destruct Hzip as [Hz|H5]; [|rewrite H5; apply andb_false_r].
    apply Z.eqb_neq in Hz. rewrite Hz. reflexivity. }
  assert (H9 : (tokenBoro t =? 9)%Z = false) by (apply Z.eqb_neq; lia).
  assert (H6 : (tokenBoro t =? 6)%Z = false) by (apply Z.eqb_neq; lia).
  assert (Hl : (tokenBoro t <? 6)%Z = true) by (apply Z.ltb_lt; lia).
  rewrite Hno, H9, H6, Hl. reflexivity.
Qed.

Lemma marbleHillApplies_outer (post : string) (boro : Z) :
  (3 <= boro <= 5)%Z -> marbleHillApplies post boro = false.
Proof.
  intros H. unfold marbleHillApplies.
  assert (Hin : existsb (Z.eqb boro) [3; 4; 5]%Z = true).
  { apply existsb_exists. exists boro. split; [simpl; lia|apply Z.eqb_refl]. }
  rewrite Hin. apply andb_false_r.
Qed.

Lemma fallbackBoro_found (tokens : list string) (boro zipBoro : Z) (foundNy : bool)
    (post : string) :
  (boro <= 5)%Z -> fallbackBoro (mkScan tokens boro zipBoro foundNy post) = boro.
Proof.
  intros H. unfold fallbackBoro. cbn [s_boro].
  destruct (Z.gtb_spec boro 5); [lia|reflexivity].
Qed.

(** The borough and the [marble_hill] flag of the output when step 3 ended
    on a definitive borough. *)
Lemma definitive_borough_output (tokens : list string) (count : nat) (text post : string)
    (boro b : Z) (m : bool) :
  (1 <= boro <= 5)%Z ->
  marbleHillStep tokens count text post boro = Ok (b, m) ->
  ((if (b <? 6)%Z then Some b else None) = Some boro
   /\ (if m then Some true else None) = None)
  \/ ((boro <= 2)%Z /\ marbleHillApplies post boro = true
      /\ (((if (b <? 6)%Z then Some b else None) = Some 1%Z
           /\ (if m then Some true else None) = Some true)
          \/ ((if (b <? 6)%Z then Some b else None) = Some 2%Z
              /\ (if m then Some true else None) = None
              /\ mhhBronxBuilding text = true))).
Proof.
  intros Hrange Hmh.
  assert (Hlt : (boro <? 6)%Z = true) by (apply Z.ltb_lt; lia).
  destruct (marbleHillApplies post boro) eqn:Happ.
  - assert (Hlow : (boro <= 2)%Z).
    { destruct (Z.le_gt_cases boro 2) as [H|H]; [exact H|].
      rewrite marbleHillApplies_outer in Happ by lia. discriminate Happ. }
    apply marbleHillStep_cases in Hmh.
    destruct Hmh as [[-> ->]|[[-> ->]|(-> & -> & Hbx)]].
    + right. split; [exact Hlow|]. split; [reflexivity|]. left. split; reflexivity.
    + left. rewrite Hlt. split; reflexivity.
    + right. split; [exact Hlow|]. split; [reflexivity|]. right.
      split; [reflexivity|]. split; [reflexivity|exact Hbx].
  - unfold marbleHillStep in Hmh. rewrite Happ in Hmh. inversion Hmh; subst b m.
    left. rewrite Hlt. split; reflexivity.
Qed.

(** X6.  For every list of tokens that ends with a token [t] standing for
    one of the five boroughs (and not beginning with five digits), with at
    least two tokens beyond the house-number count: the output has no
    [postcode], whatever the tokens before [t] are, and its [borough] is
    the one of [t] with no [marble_hill], unless [t] stands for Manhattan
    or the Bronx and the Marble Hill checks set [marble_hill] and borough
    1, or found a Bronx building of the Marble Hill Houses and set
    borough 2. *)
Theorem final_borough_token (tokens : list string) (t : string) (count : nat) :
  countHousenumberTokens (S (List.length (tokens ++ [t]))) (tokens ++ [t]) = Ok count ->
  (count < List.length tokens)%nat ->
  beginsWithFiveDigits t = false ->
  (tokenBoro t <= 5)%Z ->
  exists r,
    parseTokens (tokens ++ [t]) = Ok r
    /\ postcode r = None
    /\ ((borough r = Some (tokenBoro t) /\ marble_hill r = None)
        \/ ((tokenBoro t <= 2)%Z
            /\ ((borough r = Some 1%Z /\ marble_hill r = Some true)
                \/ (borough r = Some 2%Z /\ marble_hill r = None
                    /\ mhhBronxBuilding (orEmpty (street r)) = true)))).
Proof.
  intros Hcount Hlt H5 Hb.
  destruct (parseTokens_run (tokens ++ [t])) as (c & st & b & m & Hc & _ & Hs & Hmh & Hrun).
  rewrite Hcount in Hc. inversion Hc; subst c. clear Hc.
  unfold scanStart in Hs.
  rewrite (scanLoop_final_borough _ _ _ _ _ _ Hlt (or_intror H5) Hb) in Hs.
  inversion Hs; subst st. clear Hs.
  pose proof (tokenBoro_range t) as Hrange.
  rewrite fallbackBoro_found in Hmh by exact Hb.
  cbn [s_tokens s_postcode] in Hmh, Hrun.
  rewrite Hrun. eexists. split; [reflexivity|].
  cbn [postcode borough marble_hill street]. split; [reflexivity|].
  rewrite nonEmpty_orEmpty.
  destruct (definitive_borough_output _ _ _ _ _ _ _ (conj (proj1 Hrange) Hb) Hmh)
    as [H|(Hlow & _ & H)]; [left; exact H|right; split; [exact Hlow|exact H]].
Qed.

Lemma final_borough_token_witness :
  countHousenumberTokens
    (S (List.length (["30"; "CRANBERRY"; "11201"] ++ ["BK"])))
    (["30"; "CRANBERRY"; "11201"] ++ ["BK"]) = Ok 1%nat
  /\ (1 < List.length ["30"; "CRANBERRY"; "11201"])%nat
  /\ beginsWithFiveDigits "BK" = false
  /\ (tokenBoro "BK" <= 5)%Z
  /\ exists r,
       parseTokens (["30"; "CRANBERRY"; "11201"] ++ ["BK"]) = Ok r
       /\ postcode r = None
       /\ ((borough r = Some (tokenBoro "BK") /\ marble_hill r = None)
           \/ ((tokenBoro "BK" <= 2)%Z
               /\ ((borough r = Some 1%Z /\ marble_hill r = Some true)
                   \/ (borough r = Some 2%Z /\ marble_hill r = None
                       /\ mhhBronxBuilding (orEmpty (street r)) = true)))).
Proof.
  split; [vm_compute; reflexivity|].
  split; [simpl; lia|].
  split; [reflexivity|].
  split; [vm_compute; discriminate|].
  apply (final_borough_token ["30"; "CRANBERRY"; "11201"] "BK" 1);
    [vm_compute; reflexivity|simpl; lia|reflexivity|vm_compute; discriminate].
Defined.

Lemma scanLoop_unfold (fuel count : nat) (st : scan) :
  scanLoop (S fuel) count st
  = if moreThanOneLeft (s_tokens st) count then
      match scanBody st with
      | (st', Continue) => scanLoop fuel count st'
      | (st', Break) => Ok st'
      end
    else Ok st.
Proof. reflexivity. Qed.

Lemma scanLoop_borough_then_zip (tokens : list string) (count : nat) (t z : string) :
  (count < List.length tokens)%nat ->
  beginsWithFiveDigits z = true ->
  (tokenBoro t <= 5)%Z ->
  scanLoop (S (List.length (tokens ++ [t; z]))) count (scanStart (tokens ++ [t; z]))
  = Ok (mkScan tokens (tokenBoro t)
               (orZ (lookup zipPrefixBoros (zipPrefix z)) 7) false z).
Proof.
  intros Hlt H5 Hb.
  replace (tokens ++ [t; z]) with ((tokens ++ [t]) ++ [z])
    by (rewrite <- app_assoc; reflexivity).
  assert (Hmore : moreThanOneLeft ((tokens ++ [t]) ++ [z]) count = true)
    by (apply moreThanOneLeft_spec; rewrite !length_app; simpl; lia).
  assert (Hfuel : List.length ((tokens ++ [t]) ++ [z]) = S (S (List.length tokens)))
    by (rewrite !length_app; simpl; lia).
  rewrite Hfuel, scanLoop_unfold.
  cbn [scanStart s_tokens]. rewrite Hmore.
  fold (scanStart ((tokens ++ [t]) ++ [z])).
  rewrite scanBody_eq. cbv zeta.
  cbn [scanStart s_tokens s_zipBoro s_boro s_foundNy s_postcode].
  rewrite lastToken_app, pop_app, H5. rewrite Z.eqb_refl. cbn [andb].
  apply scanLoop_final_borough; [exact Hlt| |exact Hb].
  left. apply zipBoro_not_9.
Qed.

(** X7.  For every list of tokens that ends with a token [t] standing for
    one of the five boroughs followed by a token [z] that begins with five
    digits, with at least one token before them beyond the house-number
    count: the [postcode] is [z], and the [borough] is the one of [t], not
    the one of the zip code, with no [marble_hill], unless [t] stands for
    Manhattan or the Bronx, [z] begins with 10463 and the Marble Hill
    checks set [marble_hill] and borough 1, or found a Bronx building of
    the Marble Hill Houses and set borough 2. *)
Theorem borough_token_beats_zip (tokens : list string) (t z : string) (count : nat) :
  countHousenumberTokens (S (List.length (tokens ++ [t; z]))) (tokens ++ [t; z])
  = Ok count ->
  (count < List.length tokens)%nat ->
  beginsWithFiveDigits z = true ->
  (tokenBoro t <= 5)%Z ->
  exists r,
    parseTokens (tokens ++ [t; z]) = Ok r
    /\ postcode r = Some z
    /\ ((borough r = Some (tokenBoro t) /\ marble_hill r = None)
        \/ ((tokenBoro t <= 2)%Z /\ substring 0 5 z = "10463"
            /\ ((borough r = Some 1%Z /\ marble_hill r = Some true)
                \/ (borough r = Some 2%Z /\ marble_hill r = None
                    /\ mhhBronxBuilding (orEmpty (street r)) = true)))).
Proof.
  intros Hcount Hlt H5 Hb.
  destruct (parseTokens_run (tokens ++ [t; z]))
    as (c & st & b & m & Hc & _ & Hs & Hmh & Hrun).
  rewrite Hcount in Hc. inversion Hc; subst c. clear Hc.
  rewrite (scanLoop_borough_then_zip _ _ _ _ Hlt H5 Hb) in Hs.
  inversion Hs; subst st. clear Hs.
  pose proof (tokenBoro_range t) as Hrange.
  rewrite fallbackBoro_found in Hmh by exact Hb.
  cbn [s_tokens s_postcode] in Hmh, Hrun.
  rewrite Hrun. eexists. split; [reflexivity|].
  cbn [postcode borough marble_hill street].
  split; [apply nonEmpty_five; exact H5|].
  rewrite nonEmpty_orEmpty.
  destruct (definitive_borough_output _ _ _ _ _ _ _ (conj (proj1 Hrange) Hb) Hmh)
    as [H|(Hlow & Happ & H)]; [left; exact H|right].
  split; [exact Hlow|]. split; [|exact H].
  unfold marbleHillApplies in Happ. apply andb_true_iff in Happ. destruct Happ as [Hp _].
  apply orb_true_iff in Hp. destruct Hp as [Hp|Hp].
  - apply String.eqb_eq in Hp. subst z. discriminate H5.
  - exact (indexOfIsZero_prefix _ _ Hp).
Qed.

Lemma borough_token_beats_zip_witness :
  countHousenumberTokens
    (S (List.length (["55"; "WATER"; "ST"] ++ ["BROOKLYN"; "10041"])))
    (["55"; "WATER"; "ST"] ++ ["BROOKLYN"; "10041"]) = Ok 1%nat
  /\ (1 < List.length ["55"; "WATER"; "ST"])%nat
  /\ beginsWithFiveDigits "10041" = true
  /\ (tokenBoro "BROOKLYN" <= 5)%Z
  /\ exists r,
       parseTokens (["55"; "WATER"; "ST"] ++ ["BROOKLYN"; "10041"]) = Ok r
       /\ postcode r = Some "10041"
       /\ ((borough r = Some (tokenBoro "BROOKLYN") /\ marble_hill r = None)
           \/ ((tokenBoro "BROOKLYN" <= 2)%Z /\ substring 0 5 "10041" = "10463"
               /\ ((borough r = Some 1%Z /\ marble_hill r = Some true)
                   \/ (borough r = Some 2%Z /\ marble_hill r = None
                       /\ mhhBronxBuilding (orEmpty (street r)) = true)))).
Proof.
  split; [vm_compute; reflexivity|].
  split; [simpl; lia|].
  split; [reflexivity|].
  split; [vm_compute; discriminate|].
  apply (borough_token_beats_zip ["55"; "WATER"; "ST"] "BROOKLYN" "10041" 1);
    [vm_compute; reflexivity|simpl; lia|reflexivity|vm_compute; discriminate].
Defined.

(** ** The tokenizer keeps the text *)

Lemma star_greedy_total (A : Type) (cc : Re.cclass) (caps : list (nat * list ascii))
    (k : Re.mstate -> option A) (s : list ascii) :
  (forall st, k st <> None) ->
  forall prev, Re.star_greedy cc caps prev s k <> None.
Proof.
  intros Hk. induction s as [|x s IH]; intros prev; simpl; [apply Hk|].
  destruct (Re.in_class cc x); [|apply Hk].
  destruct (Re.star_greedy cc caps (Some x) s k) eqn:Hrec; [discriminate|].
  apply Hk.
Qed.

Lemma rmatch_lastAlternative (A : Type) (r : Re.regex) (st : Re.mstate)
    (k : Re.mstate -> option A) :
  Re.rmatch (lastAlternative r) st k <> None -> Re.rmatch r st k <> None.
Proof.
  induction r; simpl; auto.
  intros H. destruct (Re.rmatch r1 st k); [discriminate|auto].
Qed.

Lemma plus_matches (cc : Re.cclass) (prev : option ascii) (c : ascii) (s : list ascii) :
  Re.in_class cc c = true ->
  Re.rmatch (Re.Plus cc) (Re.mkM prev (c :: s) []) (fun st => Some st) <> None.
Proof.
  intros Hc. simpl. unfold Re.step_class. simpl. rewrite Hc.
  apply star_greedy_total. discriminate.
Qed.

(** At a character that is not white space the tokenizer finds a token:
    its last alternative, [\S+], matches there. *)
Lemma tokenizer_takes_non_space (prev : option ascii) (c : ascii) (s : list ascii) :
  Re.is_space c = false -> Re.exec_at tokenizerRegex prev (c :: s) <> None.
Proof.
  intros Hc. unfold Re.exec_at. apply rmatch_lastAlternative.
  replace (lastAlternative tokenizerRegex) with (Re.Plus Re.CNotSpace)
    by (vm_compute; reflexivity).
  apply plus_matches. simpl. rewrite Hc. reflexivity.
Qed.

Lemma consumed_nonempty (r : Re.regex) (prev : option ascii) (s : list ascii)
    (st : Re.mstate) :
  nullable r = false ->
  Re.exec_at r prev s = Some st ->
  exists n, List.length (Re.consumed s st) = S n
            /\ Re.consumed s st = firstn (S n) s /\ Re.m_rest st = skipn (S n) s.
Proof.
  intros Hnull He. apply exec_at_sound in He. destruct He as [Hs Hd].
  destruct (Re.consumed s st) as [|x w] eqn:Hw.
  - apply denote_nil in Hd. congruence.
  - exists (List.length w). split; [reflexivity|].
    rewrite Hs. change (S (List.length w)) with (List.length (x :: w)).
    rewrite firstn_app, Nat.sub_diag, firstn_all.
    rewrite skipn_app, Nat.sub_diag, skipn_all. simpl. rewrite app_nil_r. auto.
Qed.

Lemma nonSpaces_app (u v : list ascii) : nonSpaces (u ++ v) = nonSpaces u ++ nonSpaces v.
Proof. unfold nonSpaces. apply filter_app. Qed.

Lemma tokenizer_not_nullable : nullable tokenizerRegex = false.
Proof. vm_compute. reflexivity. Qed.

Lemma match_all_from_keeps (s : list ascii) :
  forall prev skip,
    nonSpaces (tokenChars (Re.match_all_from tokenizerRegex prev s skip))
    = nonSpaces (skipn skip s).
Proof.
  induction s as [|c s IH]; intros prev skip.
  - destruct skip; cbn [Re.match_all_from]; [|reflexivity].
    destruct (Re.exec_at tokenizerRegex prev []) as [st|] eqn:He; [|reflexivity].
    destruct (consumed_nonempty _ _ _ _ tokenizer_not_nullable He) as (n & Hlen & _).
    unfold Re.consumed in Hlen. simpl in Hlen. discriminate Hlen.
  - destruct skip; cbn [Re.match_all_from]; [|apply IH].
    destruct (Re.exec_at tokenizerRegex prev (c :: s)) as [st|] eqn:He.
    + cbv zeta.
      destruct (consumed_nonempty _ _ _ _ tokenizer_not_nullable He) as (n & Hlen & Hc & _).
      rewrite Hlen. unfold tokenChars. cbn [map List.concat].
      rewrite list_ascii_of_string_of_list_ascii.
      fold (tokenChars (Re.match_all_from tokenizerRegex (Some c) s (S n - 1))).
      rewrite nonSpaces_app, IH, <- nonSpaces_app. rewrite Hc.
      replace (S n - 1)%nat with n by lia.
      change (skipn n s) with (skipn (S n) (c :: s)).
      rewrite firstn_skipn. reflexivity.
    + rewrite IH. simpl skipn. unfold nonSpaces at 2. cbn [filter].
      destruct (Re.is_space c) eqn:Hsp; [reflexivity|].
      destruct (tokenizer_takes_non_space prev c s Hsp He).
Qed.

(** X8.  For every input, the tokenizer loses nothing but white space:
    the characters of the tokens other than white space are, in order,
    those of the cleaned, upper-cased input. *)
Theorem tokenize_keeps_text (input : string) :
  nonSpaces (tokenChars (tokenize input))
  = nonSpaces (list_ascii_of_string (clean input)).
Proof.
  unfold tokenize, Re.match_all. apply match_all_from_keeps.
Qed.

(** ** The characters of the output *)

Lemma Forall_firstn_keep (A : Type) (P : A -> Prop) (l : list A) (n : nat) :
  Forall P l -> Forall P (firstn n l).
Proof.
  intros H. rewrite Forall_forall in *. intros x Hx. apply H.
  rewrite <- (firstn_skipn n l). apply in_or_app. left. exact Hx.
Qed.

Lemma Forall_skipn_keep (A : Type) (P : A -> Prop) (l : list A) (n : nat) :
  Forall P l -> Forall P (skipn n l).
Proof.
  intros H. rewrite Forall_forall in *. intros x Hx. apply H.
  rewrite <- (firstn_skipn n l). apply in_or_app. right. exact Hx.
Qed.

(** Every match is a piece of the text. *)
Lemma match_all_from_chars (P : ascii -> Prop) (r : Re.regex) (s : list ascii) :
  Forall P s ->
  forall prev skip t,
    In t (Re.match_all_from r prev s skip) -> Forall P (list_ascii_of_string t).
Proof.
  induction s as [|c s IH]; intros Hall prev skip t H.
  - destruct skip; cbn [Re.match_all_from] in H; [|contradiction].
    destruct (Re.exec_at r prev []) eqn:He; [|contradiction].
    cbv zeta in H. destruct H as [<-|[]]. rewrite list_ascii_of_string_of_list_ascii.
    apply Forall_firstn_keep. exact Hall.
  - pose proof (Forall_inv_tail Hall) as Htl.
    destruct skip; cbn [Re.match_all_from] in H; [|eauto].
    destruct (Re.exec_at r prev (c :: s)) eqn:He; [|eauto].
    cbv zeta in H. destruct H as [<-|H]; [|eauto].
    rewrite list_ascii_of_string_of_list_ascii.
    apply Forall_firstn_keep. exact Hall.
Qed.

Lemma separator_not_period (c : ascii) :
  Re.in_class separatorClass c = true -> Re.in_class (Re.CChar ".") c = false.
Proof.
  intros H. change (Re.in_class (Re.CChar ".") c) with (Ascii.eqb "." c).
  destruct (Ascii.eqb_spec "."%char c) as [<-|]; [|reflexivity].
  vm_compute in H. discriminate H.
Qed.

(** At a white-space character or a comma the cleaning pattern matches. *)
Lemma clean_takes_separator (prev : option ascii) (c : ascii) (s : list ascii) :
  Re.in_class separatorClass c = true -> Re.exec_at cleanRegex prev (c :: s) <> None.
Proof.
  intros Hc. unfold Re.exec_at, cleanRegex. cbn [Re.rmatch].
  cbn [Re.m_caps Re.m_prev Re.m_rest Re.star_greedy].
  rewrite (separator_not_period _ Hc).
  unfold Re.step_class at 1. cbn [Re.m_rest Re.m_caps Re.m_prev].
  fold separatorClass. rewrite Hc.
  destruct (Re.star_greedy separatorClass [] (Some c) s (fun st => Some st)) eqn:Hs;
    [discriminate|].
  exfalso. revert Hs. apply star_greedy_total. discriminate.
Qed.

Lemma clean_not_nullable : nullable cleanRegex = false.
Proof. reflexivity. Qed.

Lemma replace_all_from_separators (s : list ascii) :
  forall prev skip,
    forallb separatorFree
      (Re.replace_all_from cleanRegex (list_ascii_of_string " ") prev s skip) = true.
Proof.
  induction s as [|c s IH]; intros prev skip.
  - destruct skip; cbn [Re.replace_all_from]; [|reflexivity].
    destruct (Re.exec_at cleanRegex prev []); reflexivity.
  - destruct skip; cbn [Re.replace_all_from]; [|apply IH].
    destruct (Re.exec_at cleanRegex prev (c :: s)) as [st|] eqn:He.
    + destruct (consumed_nonempty _ _ _ _ clean_not_nullable He) as (n & Hlen & _).
      rewrite Hlen. rewrite forallb_app, IH. reflexivity.
    + cbn [forallb]. rewrite IH, andb_true_r. unfold separatorFree.
      destruct (Re.in_class separatorClass c) eqn:Hc; [|reflexivity].
      destruct (clean_takes_separator prev c s Hc He).
Qed.

Lemma forallb_trimStart (P : ascii -> bool) (s : list ascii) :
  forallb P s = true -> forallb P (trimStart s) = true.
Proof.
  induction s as [|c s IH]; simpl; [auto|].
  destruct (Re.is_space c); [|auto].
  intros H. apply andb_true_iff in H. apply IH, H.
Qed.

Lemma forallb_rev (A : Type) (P : A -> bool) (l : list A) :
  forallb P l = true -> forallb P (rev l) = true.
Proof.
  rewrite !forallb_forall. intros H x Hx. apply H. apply in_rev. exact Hx.
Qed.

Lemma upperChar_plain (c : ascii) : separatorFree c = true -> plainChar (upperChar c) = true.
Proof.
  destruct c as [[] [] [] [] [] [] [] []]; vm_compute; auto.
Qed.

Lemma clean_plain (input : string) : plainText (clean input) = true.
Proof.
  unfold plainText, clean, toUpperCase, trim, Re.replace_all.
  rewrite !list_ascii_of_string_of_list_ascii.
  set (l := Re.replace_all_from _ _ _ _ _).
  assert (Hl : forallb separatorFree l = true) by apply replace_all_from_separators.
  apply forallb_trimStart, forallb_rev, forallb_trimStart, forallb_rev in Hl.
  revert Hl. generalize (rev (trimStart (rev (trimStart l)))). clear.
  intros l. rewrite !forallb_forall. intros H c Hc.
  apply in_map_iff in Hc. destruct Hc as (x & <- & Hx). apply upperChar_plain, H, Hx.
Qed.

Lemma list_ascii_of_string_append (a b : string) :
  list_ascii_of_string (a ++ b) = list_ascii_of_string a ++ list_ascii_of_string b.
Proof. induction a; simpl; congruence. Qed.

Section FieldChars.

Variable P : ascii -> bool.
Hypothesis space_ok : P " " = true.

Lemma join_chars (tokens : list string) :
  Forall (fun t => forallb P (list_ascii_of_string t) = true) tokens ->
  forallb P (list_ascii_of_string (join tokens)) = true.
Proof.
  unfold join. induction 1 as [|t ts Ht Hts IH]; [reflexivity|].
  destruct ts as [|t' ts]; [exact Ht|].
  change (String.concat " " (t :: t' :: ts))
    with (t ++ " " ++ String.concat " " (t' :: ts))%string.
  rewrite !list_ascii_of_string_append, !forallb_app, Ht, IH.
  cbn [list_ascii_of_string forallb]. rewrite space_ok. reflexivity.
Qed.

(** The characters of the tokens are those of the cleaned input. *)
Lemma token_chars (input : string) :
  forallb P (list_ascii_of_string (clean input)) = true ->
  Forall (fun t => forallb P (list_ascii_of_string t) = true) (tokenize input).
Proof.
  intros Hclean. apply Forall_forall. intros t Hin.
  apply forallb_forall. apply Forall_forall.
  revert Hin. unfold tokenize, Re.match_all.
  apply match_all_from_chars. apply Forall_forall. apply forallb_forall. exact Hclean.
Qed.

(** The characters of the three text fields are those of the tokens, and
    the space. *)
Lemma fields_chars (tokens : list string) :
  Forall (fun t => forallb P (list_ascii_of_string t) = true) tokens ->
  exists r,
    parseTokens tokens = Ok r
    /\ forallb P (list_ascii_of_string (orEmpty (housenumber r))) = true
    /\ forallb P (list_ascii_of_string (orEmpty (street r))) = true
    /\ forallb P (list_ascii_of_string (orEmpty (postcode r))) = true.
Proof.
  intros Hall.
  destruct (parseTokens_run tokens) as (count & st & b & m & _ & _ & Hscan & _ & Hrun).
  rewrite Hrun. eexists. split; [reflexivity|]. cbn [housenumber street postcode].
  assert (Hkept : Forall (fun t => forallb P (list_ascii_of_string t) = true) (s_tokens st)).
  { rewrite (scanLoop_prefix _ _ _ _ Hscan). apply Forall_firstn_keep, Hall. }
  split; [|split].
  - destruct (0 <? _)%nat; [|reflexivity].
    rewrite nonEmpty_orEmpty. apply join_chars, Forall_firstn_keep, Hkept.
  - rewrite nonEmpty_orEmpty. apply join_chars, Forall_skipn_keep, Hkept.
  - rewrite nonEmpty_orEmpty.
    destruct (scanLoop_zipFound _ _ _ _ Hscan)
      as (popped & Heq & [(-> & _)|(bt & a & Hpop & _)]); [reflexivity|].
    rewrite Forall_forall in Hall. apply Hall.
    rewrite Heq, Hpop. apply in_or_app. right. apply in_or_app. right. left. reflexivity.
Qed.

(** Replacing puts nothing in the text but the replacement. *)
Lemma replace_all_from_chars (r : Re.regex) (rep s : list ascii) :
  forallb P rep = true ->
  forallb P s = true ->
  forall prev skip, forallb P (Re.replace_all_from r rep prev s skip) = true.
Proof.
  intros Hrep. induction s as [|c s IH]; intros Hs prev skip.
  - destruct skip; cbn [Re.replace_all_from]; [|reflexivity].
    destruct (Re.exec_at r prev []); [exact Hrep|reflexivity].
  - cbn [forallb] in Hs. apply andb_true_iff in Hs. destruct Hs as [Hc Hs].
    destruct skip; cbn [Re.replace_all_from]; [|exact (IH Hs _ _)].
    destruct (Re.exec_at r prev (c :: s)) as [st|].
    + destruct (List.length (Re.consumed (c :: s) st)).
      * rewrite forallb_app, Hrep. cbn [forallb andb]. rewrite Hc. exact (IH Hs _ _).
      * rewrite forallb_app, Hrep. exact (IH Hs _ _).
    + cbn [forallb]. rewrite Hc. exact (IH Hs _ _).
Qed.

End FieldChars.

Lemma upperChar_ascii (c : ascii) : asciiChar c = true -> asciiChar (upperChar c) = true.
Proof.
  destruct c as [[] [] [] [] [] [] [] []]; vm_compute; auto.
Qed.

(** Cleaning an ASCII input gives an ASCII text. *)
Lemma clean_ascii (input : string) : asciiText input = true -> asciiText (clean input) = true.
Proof.
  unfold asciiText, clean, toUpperCase, trim, Re.replace_all. intros Hin.
  rewrite !list_ascii_of_string_of_list_ascii.
  set (l := Re.replace_all_from _ _ _ _ _).
  assert (Hl : forallb asciiChar l = true)
    by (apply replace_all_from_chars; [reflexivity|exact Hin]).
  apply forallb_trimStart, forallb_rev, forallb_trimStart, forallb_rev in Hl.
  revert Hl. generalize (rev (trimStart (rev (trimStart l)))). clear.
  intros l. rewrite !forallb_forall. intros H c Hc.
  apply in_map_iff in Hc. destruct Hc as (x & <- & Hx). apply upperChar_ascii, H, Hx.
Qed.

(** X9.  For every input, the [housenumber], the [street] and the
    [postcode] of the output hold none of the letters a to z, no comma and
    no white space (tab, line feed, vertical tab, form feed, carriage
    return) other than the space.  When the input is ASCII, the three
    fields are ASCII as well, and so hold no lower-case letter at all. *)
Theorem output_is_plain (input : string) :
  exists r,
    parseNycAddress input = Ok r
    /\ plainText (orEmpty (housenumber r)) = true
    /\ plainText (orEmpty (street r)) = true
    /\ plainText (orEmpty (postcode r)) = true
    /\ (asciiText input = true ->
        asciiText (orEmpty (housenumber r)) = true
        /\ asciiText (orEmpty (street r)) = true
        /\ asciiText (orEmpty (postcode r)) = true).
Proof.
  unfold parseNycAddress.
  destruct (fields_chars plainChar eq_refl (tokenize input)
              (token_chars plainChar input (clean_plain input)))
    as (r & Hrun & Hh & Hs & Hp).
  exists r. split; [exact Hrun|]. split; [exact Hh|]. split; [exact Hs|].
  split; [exact Hp|]. intros Hascii.
  destruct (fields_chars asciiChar eq_refl (tokenize input)
              (token_chars asciiChar input (clean_ascii input Hascii)))
    as (r' & Hrun' & Hh' & Hs' & Hp').
  rewrite Hrun in Hrun'. inversion Hrun'; subst r'. auto.
Qed.

(** ** Blank input *)

Lemma star_greedy_all (cc : Re.cclass) (caps : list (nat * list ascii)) (s : list ascii) :
  forallb (Re.in_class cc) s = true ->
  forall prev,
    exists st,
      Re.star_greedy cc caps prev s (fun st => Some st) = Some st /\ Re.m_rest st = [].
Proof.
  induction s as [|x s IH]; intros Hall prev; simpl.
  - eexists. split; reflexivity.
  - simpl in Hall. apply andb_true_iff in Hall. destruct Hall as [Hx Hs].
    rewrite Hx. destruct (IH Hs (Some x)) as (st & Hrun & Hrest).
    rewrite Hrun. eauto.
Qed.

Lemma clean_exec_blank (prev : option ascii) (c : ascii) (s : list ascii) :
  forallb (Re.in_class separatorClass) (c :: s) = true ->
  exists st, Re.exec_at cleanRegex prev (c :: s) = Some st /\ Re.m_rest st = [].
Proof.
  intros Hall. cbn [forallb] in Hall. apply andb_true_iff in Hall. destruct Hall as [Hc Hs].
  unfold Re.exec_at, cleanRegex. cbn [Re.rmatch].
  cbn [Re.m_caps Re.m_prev Re.m_rest Re.star_greedy].
  rewrite (separator_not_period _ Hc).
  unfold Re.step_class at 1. cbn [Re.m_rest Re.m_caps Re.m_prev].
  fold separatorClass. rewrite Hc.
  destruct (star_greedy_all separatorClass [] s Hs (Some c)) as (st & Hrun & Hrest).
  rewrite Hrun. eauto.
Qed.

Lemma replace_all_from_skipped (rep : list ascii) (s : list ascii) :
  forall prev, Re.replace_all_from cleanRegex rep prev s (List.length s) = [].
Proof.
  induction s as [|c s IH]; intros prev; [reflexivity|].
  cbn [List.length Re.replace_all_from]. apply IH.
Qed.

Lemma clean_blank (input : string) :
  forallb (Re.in_class separatorClass) (list_ascii_of_string input) = true ->
  clean input = "".
Proof.
  intros Hall. unfold clean, Re.replace_all.
  destruct (list_ascii_of_string input) as [|c s]; [reflexivity|].
  destruct (clean_exec_blank None c s Hall) as (st & Hex & Hrest).
  assert (Hlen : List.length (Re.consumed (c :: s) st) = S (List.length s)).
  { unfold Re.consumed. rewrite Hrest. cbn [List.length]. rewrite Nat.sub_0_r.
    change (S (List.length s)) with (List.length (c :: s)). rewrite firstn_all.
    reflexivity. }
  cbn [Re.replace_all_from]. rewrite Hex, Hlen.
  rewrite replace_all_from_skipped. reflexivity.
Qed.

(** X10.  For every input made of white space and commas only (the empty
    input among them), the output has no key at all. *)
Theorem blank_input_gives_empty_record (input : string) :
  forallb (Re.in_class separatorClass) (list_ascii_of_string input) = true ->
  parseNycAddress input = Ok (mkOutput None None None None None).
Proof.
  intros Hall. unfold parseNycAddress, tokenize. rewrite (clean_blank _ Hall).
  vm_compute. reflexivity.
Qed.

Lemma blank_input_gives_empty_record_witness :
  forallb (Re.in_class separatorClass) (list_ascii_of_string " , ,  ") = true
  /\ parseNycAddress " , ,  " = Ok (mkOutput None None None None None).
Proof.
  split; [vm_compute; reflexivity|].
  apply (blank_input_gives_empty_record " , ,  "). vm_compute. reflexivity.
Defined.

(** ** Patterns that must match the whole string *)

Lemma needsBol_sound (A : Type) (r : Re.regex) :
  needsBol r = true ->
  forall (st : Re.mstate) (k : Re.mstate -> option A) (res : A),
    Re.rmatch r st k = Some res -> Re.m_prev st = None.
Proof.
  induction r as [|cc|r1 IH1 r2 IH2|r1 IH1 r2 IH2|r1 IH1|cc|cc|n r1 IH1| | |];
    simpl; try discriminate; intros Hb st k res H.
  - exact (IH1 Hb _ _ _ H).
  - apply andb_true_iff in Hb. destruct Hb as [Hb1 Hb2].
    destruct (Re.rmatch r1 st k) eqn:H1; [exact (IH1 Hb1 _ _ _ H1)|exact (IH2 Hb2 _ _ _ H)].
  - exact (IH1 Hb _ _ _ H).
  - destruct (Re.m_prev st); [discriminate|reflexivity].
Qed.

Lemma needsEol_sound (A : Type) (r : Re.regex) :
  needsEol r = true ->
  forall (st : Re.mstate) (k : Re.mstate -> option A) (res : A),
    Re.rmatch r st k = Some res ->
    exists st', k st' = Some res /\ Re.m_rest st' = [].
Proof.
  induction r as [|cc|r1 IH1 r2 IH2|r1 IH1 r2 IH2|r1 IH1|cc|cc|n r1 IH1| | |];
    simpl; try discriminate; intros Hb st k res H.
  - apply rmatch_sound in H. destruct H as (st1 & _ & H & _).
    exact (IH2 Hb _ _ _ H).
  - apply andb_true_iff in Hb. destruct Hb as [Hb1 Hb2].
    destruct (Re.rmatch r1 st k) eqn:H1.
    + inversion H; subst. exact (IH1 Hb1 _ _ _ H1).
    + exact (IH2 Hb2 _ _ _ H).
  - destruct (IH1 Hb _ _ _ H) as (st' & Hk & Hr).
    exists (Re.set_cap n st st'). split; [exact Hk|exact Hr].
  - destruct (Re.m_rest st) eqn:Hr; [|discriminate]. exists st. auto.
Qed.

Lemma search_from_after_start (r : Re.regex) (s : list ascii) :
  needsBol r = true ->
  forall c, Re.search_from r (Some c) s = None.
Proof.
  intros Hb.
  assert (Hex : forall c s', Re.exec_at r (Some c) s' = None).
  { intros c s'. destruct (Re.exec_at r (Some c) s') eqn:He; [|reflexivity].
    unfold Re.exec_at in He. apply (needsBol_sound _ _ Hb) in He. discriminate He. }
  induction s as [|x s IH]; intros c; simpl; rewrite Hex; auto.
Qed.

(** A match of a pattern between [^] and [$] is the whole string. *)
Lemma search_anchored (r : Re.regex) (str : string) (from : list ascii) (st : Re.mstate) :
  needsBol r = true -> needsEol r = true ->
  Re.search r str = Some (from, st) ->
  denote r (list_ascii_of_string str).
Proof.
  unfold Re.search. intros Hb He H.
  assert (Hex : Re.exec_at r None (list_ascii_of_string str) = Some st).
  { destruct (list_ascii_of_string str) as [|c s]; simpl in H.
    - destruct (Re.exec_at r None []); inversion H; reflexivity.
    - destruct (Re.exec_at r None (c :: s)); [inversion H; reflexivity|].
      rewrite (search_from_after_start _ _ Hb) in H. discriminate H. }
  pose proof Hex as Hend. unfold Re.exec_at in Hend.
  apply (needsEol_sound _ _ He) in Hend. destruct Hend as (st' & Hk & Hrest).
  inversion Hk; subst st'.
  apply exec_at_sound in Hex. destruct Hex as [Hs Hd].
  rewrite Hrest, app_nil_r in Hs. rewrite Hs. exact Hd.
Qed.

Lemma wholeStringPatterns_anchored :
  forallb (fun p => needsBol (wholeRegex p) && needsEol (wholeRegex p))
    wholeStringPatterns = true.
Proof. vm_compute. reflexivity. Qed.

Lemma wholeString_denote (str pattern : string) :
  In pattern wholeStringPatterns ->
  wholeStringMatchesPattern str pattern = true ->
  denote (wholeRegex pattern) (list_ascii_of_string str).
Proof.
  intros Hin H.
  pose proof wholeStringPatterns_anchored as Hall.
  rewrite forallb_forall in Hall. apply Hall in Hin.
  apply andb_true_iff in Hin. destruct Hin as [Hb He].
  unfold wholeStringMatchesPattern, Re.test in H. fold (wholeRegex pattern) in H.
  destruct (Re.search (wholeRegex pattern) str) as [[from st]|] eqn:Hs; [|discriminate H].
  exact (search_anchored _ _ _ _ Hb He Hs).
Qed.

(** X11.  For every pattern that the source passes to
    [wholeStringMatchesPattern] (those of [boroRegexes], of
    [marbleHillStreetRegexes] and the WEST 225TH pattern) and every string:
    when the function returns true, the string as a whole, from its first
    to its last character, is a word of the pattern, not merely a string
    that has a match inside. *)
Theorem whole_string_is_matched (str pattern : string) :
  In pattern wholeStringPatterns ->
  wholeStringMatchesPattern str pattern = true ->
  denote (wholeRegex pattern) (list_ascii_of_string str).
Proof. apply wholeString_denote. Qed.

Lemma whole_string_is_matched_witness :
  In "FA?R ?ROCKAWAY" wholeStringPatterns
  /\ wholeStringMatchesPattern "FAR ROCKAWAY" "FA?R ?ROCKAWAY" = true
  /\ denote (wholeRegex "FA?R ?ROCKAWAY") (list_ascii_of_string "FAR ROCKAWAY").
Proof.
  split; [apply includes_In; vm_compute; reflexivity|].
  split; [vm_compute; reflexivity|].
  apply (whole_string_is_matched "FAR ROCKAWAY" "FA?R ?ROCKAWAY");
    [apply includes_In; vm_compute; reflexivity|vm_compute; reflexivity].
Defined.

Lemma In_concat_snd (k : Z) (patterns : list string) (p : string)
    (entries : list (Z * list string)) :
  In (k, patterns) entries -> In p patterns -> In p (List.concat (map snd entries)).
Proof.
  intros He Hp. apply in_concat. exists patterns. split; [|exact Hp].
  apply in_map_iff. exists (k, patterns). auto.
Qed.

Lemma boroRegexLookup_found (entries : list (Z * list string)) (t : string) (k : Z) :
  boroRegexLookup entries t = Some k ->
  exists patterns p,
    In (k, patterns) entries /\ In p patterns /\ wholeStringMatchesPattern t p = true.
Proof.
  induction entries as [|[k' ps] entries IH]; [discriminate|].
  change (boroRegexLookup ((k', ps) :: entries) t)
    with (if existsb (wholeStringMatchesPattern t) ps
          then Some k' else boroRegexLookup entries t).
  destruct (existsb (wholeStringMatchesPattern t) ps) eqn:Hex.
  - intros H. inversion H; subst. apply existsb_exists in Hex.
    destruct Hex as (p & Hp & Hm). exists ps, p. split; [left; reflexivity|auto].
  - intros H. destruct (IH H) as (ps' & p & Hin & Hp & Hm).
    exists ps', p. split; [right; exact Hin|auto].
Qed.

(** X12.  For every token, the code that step 3 gives it is 9 (none), or
    the value of the token in [simpleBoros], or the key of an entry of
    [boroRegexes] one of whose patterns has the whole token as a word: a
    token that only contains a borough name is no borough evidence. *)
Theorem borough_evidence_is_whole_token (t : string) :
  tokenBoro t = 9%Z
  \/ lookup simpleBoros t = Some (tokenBoro t)
  \/ exists patterns p,
       In (tokenBoro t, patterns) boroRegexes /\ In p patterns
       /\ denote (wholeRegex p) (list_ascii_of_string t).
Proof.
  unfold tokenBoro. cbv zeta.
  destruct (lookup simpleBoros t) as [v|] eqn:Hs; cbn [orZ].
  - destruct (v =? 9)%Z eqn:Hv; [|right; left; reflexivity].
    apply Z.eqb_eq in Hv. apply simpleBoros_range in Hs. lia.
  - rewrite Z.eqb_refl.
    destruct (boroRegexLookup boroRegexes t) as [k|] eqn:Hr; cbn [orZ]; [|left; reflexivity].
    right. right. apply boroRegexLookup_found in Hr.
    destruct Hr as (ps & p & Hin & Hp & Hm). exists ps, p.
    split; [exact Hin|]. split; [exact Hp|].
    apply wholeString_denote; [|exact Hm].
    unfold wholeStringPatterns. apply in_or_app. left.
    exact (In_concat_snd _ _ _ _ Hin Hp).
Qed.

(** ** The street names of the second Marble Hill check *)

Lemma streets_without_houses :
  forallb (fun p => Mark.never (list_ascii_of_string mhhMark) (wholeRegex p))
    marbleHillStreetRegexes = true.
Proof. vm_compute. reflexivity. Qed.

(** A street text that is one of the Marble Hill street names has no match
    of the MARBLE HILL HOUSES pattern: the first check leaves it to the
    second. *)
Lemma street_name_not_houses (text : string) :
  existsb (wholeStringMatchesPattern text) marbleHillStreetRegexes = true ->
  mhhMatches text = None.
Proof.
  intros H. apply existsb_exists in H. destruct H as (p & Hin & Hm).
  assert (Hd : denote (wholeRegex p) (list_ascii_of_string text)).
  { apply wholeString_denote; [|exact Hm].
    unfold wholeStringPatterns. apply in_or_app. right. apply in_or_app. left. exact Hin. }
  pose proof streets_without_houses as Hnever. rewrite forallb_forall in Hnever.
  specialize (Hnever p Hin).
  pose proof mhhMark_apart as Hal. unfold markApart in Hal.
  apply andb_true_iff in Hal. destruct Hal as [_ Halways].
  unfold mhhMatches.
  destruct (Re.search mhhRegex text) as [[from st]|] eqn:Hs; [exfalso|reflexivity].
  apply search_contains in Hs. destruct Hs as (before & w & rest & Heq & Hw).
  rewrite Heq in Hd. exact (MarkFacts.apart _ _ _ _ _ _ Hnever Halways Hd Hw).
Qed.

(** X13.  For every list of tokens for which the Marble Hill step applies
    (the postcode that step 3 found is empty or begins with 10463 and the
    borough it resolved is none of 3, 4, 5): when the [street] of the
    output is, as a whole, one of the street and place names of
    [marbleHillStreetRegexes], the output has [marble_hill] true and
    borough 1, whatever the house number. *)
Theorem marble_hill_street_names (tokens : list string) (count : nat) (st : scan)
    (r : output) :
  countHousenumberTokens (S (List.length tokens)) tokens = Ok count ->
  scanLoop (S (List.length tokens)) count (scanStart tokens) = Ok st ->
  parseTokens tokens = Ok r ->
  marbleHillApplies (s_postcode st) (fallbackBoro st) = true ->
  existsb (wholeStringMatchesPattern (orEmpty (street r))) marbleHillStreetRegexes = true ->
  marble_hill r = Some true /\ borough r = Some 1%Z.
Proof.
  intros Hcount Hscan Hparse Happ Hstreet.
  destruct (parseTokens_run tokens) as (c & st' & b & m & Hc & _ & Hs & Hmh & Hrun).
  rewrite Hcount in Hc. inversion Hc; subst c. clear Hc.
  rewrite Hscan in Hs. inversion Hs; subst st'. clear Hs.
  rewrite Hrun in Hparse. inversion Hparse; subst r. clear Hparse.
  cbn [street marble_hill borough] in *. rewrite nonEmpty_orEmpty in Hstreet.
  unfold marbleHillStep, marbleHillChecks in Hmh.
  rewrite Happ, (street_name_not_houses _ Hstreet), Hstreet in Hmh.
  cbn [bind] in Hmh. inversion Hmh; subst b m. split; reflexivity.
Qed.

Lemma marble_hill_street_names_witness :
  countHousenumberTokens 4 ["2"; "JACOBUS"; "PL"; "BRONX"] = Ok 1%nat
  /\ scanLoop 5 1 (scanStart ["2"; "JACOBUS"; "PL"; "BRONX"])
     = Ok (mkScan ["2"; "JACOBUS"; "PL"] 2 9 false "")
  /\ parseTokens ["2"; "JACOBUS"; "PL"; "BRONX"]
     = Ok (mkOutput (Some "2") (Some "JACOBUS PL") (Some 1%Z) None (Some true))
  /\ marbleHillApplies "" 2 = true
  /\ existsb (wholeStringMatchesPattern "JACOBUS PL") marbleHillStreetRegexes = true
  /\ marble_hill (mkOutput (Some "2") (Some "JACOBUS PL") (Some 1%Z) None (Some true))
     = Some true
  /\ borough (mkOutput (Some "2") (Some "JACOBUS PL") (Some 1%Z) None (Some true))
     = Some 1%Z.
Proof.
  split; [vm_compute; reflexivity|].
  split; [vm_compute; reflexivity|].
  split; [vm_compute; reflexivity|].
  split; [vm_compute; reflexivity|].
  split; [vm_compute; reflexivity|].
  apply (marble_hill_street_names ["2"; "JACOBUS"; "PL"; "BRONX"] 1
           (mkScan ["2"; "JACOBUS"; "PL"] 2 9 false "")
           (mkOutput (Some "2") (Some "JACOBUS PL") (Some 1%Z) None (Some true)));
    vm_compute; reflexivity.
Defined.

(** ** The case of the letters of the input *)

Lemma caseBlind_spec (cc : Re.cclass) (c : ascii) :
  caseBlind cc = true -> Re.in_class cc (upperChar c) = Re.in_class cc c.
Proof.
  unfold caseBlind. rewrite forallb_forall. intros H.
  apply eqb_prop. apply H. apply MarkFacts.in_all_ascii.
Qed.

Lemma is_word_upperChar (c : ascii) : Re.is_word (upperChar c) = Re.is_word c.
Proof. destruct c as [[] [] [] [] [] [] [] []]; reflexivity. Qed.

Lemma is_space_upperChar (c : ascii) : Re.is_space (upperChar c) = Re.is_space c.
Proof. destruct c as [[] [] [] [] [] [] [] []]; reflexivity. Qed.

Lemma upperChar_idempotent (c : ascii) : upperChar (upperChar c) = upperChar c.
Proof. destruct c as [[] [] [] [] [] [] [] []]; reflexivity. Qed.

Lemma word_at_upper (o : option ascii) :
  Re.word_at (option_map upperChar o) = Re.word_at o.
Proof. destruct o; [apply is_word_upperChar|reflexivity]. Qed.

Lemma set_cap_upper (n : nat) (st st' : Re.mstate) :
  Re.set_cap n (upperState st) (upperState st') = upperState (Re.set_cap n st st').
Proof.
  unfold Re.set_cap, upperState. cbn [Re.m_prev Re.m_rest Re.m_caps map fst snd].
  rewrite !length_map, firstn_map. reflexivity.
Qed.

Section UpperCase.

Variables A B : Type.
Variable g : A -> B.

Lemma star_greedy_upper (cc : Re.cclass) (caps : list (nat * list ascii))
    (k1 : Re.mstate -> option A) (k2 : Re.mstate -> option B) (s : list ascii) :
  caseBlind cc = true ->
  (forall st, k2 (upperState st) = option_map g (k1 st)) ->
  forall prev,
    Re.star_greedy cc (Re.m_caps (upperState (Re.mkM prev s caps)))
                   (option_map upperChar prev) (map upperChar s) k2
    = option_map g (Re.star_greedy cc caps prev s k1).
Proof.
  intros Hcc Hk. induction s as [|x s IH]; intros prev.
  - exact (Hk (Re.mkM prev [] caps)).
  - cbn [map Re.star_greedy]. rewrite (caseBlind_spec _ x Hcc).
    destruct (Re.in_class cc x); [|exact (Hk (Re.mkM prev (x :: s) caps))].
    specialize (IH (Some x)). cbn [upperState Re.m_caps option_map] in IH |- *.
    rewrite IH.
    destruct (Re.star_greedy cc caps (Some x) s k1); [reflexivity|].
    exact (Hk (Re.mkM prev (x :: s) caps)).
Qed.

End UpperCase.

Lemma step_class_upper (A B : Type) (g : A -> B) (cc : Re.cclass) (st : Re.mstate)
    (k1 : Re.mstate -> option A) (k2 : Re.mstate -> option B) :
  caseBlind cc = true ->
  (forall st, k2 (upperState st) = option_map g (k1 st)) ->
  Re.step_class cc (upperState st) k2 = option_map g (Re.step_class cc st k1).
Proof.
  intros Hcc Hk. unfold Re.step_class. destruct st as [prev rest caps].
  cbn [upperState Re.m_rest Re.m_caps Re.m_prev].
  destruct rest as [|x s]; [reflexivity|]. cbn [map].
  rewrite (caseBlind_spec _ x Hcc). destruct (Re.in_class cc x); [|reflexivity].
  exact (Hk (Re.mkM (Some x) s caps)).
Qed.

(** On a pattern of case-blind classes the matcher does on the upper-cased
    text what it does on the text. *)
Lemma rmatch_upper (r : Re.regex) :
  caseBlindRegex r = true ->
  forall (A B : Type) (g : A -> B) (st : Re.mstate)
         (k1 : Re.mstate -> option A) (k2 : Re.mstate -> option B),
    (forall st, k2 (upperState st) = option_map g (k1 st)) ->
    Re.rmatch r (upperState st) k2 = option_map g (Re.rmatch r st k1).
Proof.
  induction r as [|cc|r1 IH1 r2 IH2|r1 IH1 r2 IH2|r1 IH1|cc|cc|n r1 IH1| | |];
    cbn [caseBlindRegex]; intros Hr A B g st k1 k2 Hk; cbn [Re.rmatch].
  - apply Hk.
  - apply step_class_upper; assumption.
  - apply andb_true_iff in Hr. destruct Hr as [Hr1 Hr2].
    apply (IH1 Hr1). intros st'. apply (IH2 Hr2). exact Hk.
  - apply andb_true_iff in Hr. destruct Hr as [Hr1 Hr2].
    rewrite (IH1 Hr1 A B g st k1 k2 Hk), (IH2 Hr2 A B g st k1 k2 Hk).
    destruct (Re.rmatch r1 st k1); reflexivity.
  - rewrite (IH1 Hr A B g st k1 k2 Hk), Hk.
    destruct (Re.rmatch r1 st k1); reflexivity.
  - destruct st as [prev rest caps]. apply star_greedy_upper; assumption.
  - apply step_class_upper; [exact Hr|]. intros [prev rest caps].
    apply star_greedy_upper; assumption.
  - apply (IH1 Hr). intros st'. rewrite set_cap_upper. apply Hk.
  - destruct st as [prev rest caps]. cbn [upperState Re.m_prev Re.m_rest].
    rewrite word_at_upper.
    replace (hd_error (map upperChar rest)) with (option_map upperChar (hd_error rest))
      by (destruct rest; reflexivity).
    rewrite word_at_upper. destruct (xorb _ _); [|reflexivity].
    exact (Hk (Re.mkM prev rest caps)).
  - destruct st as [prev rest caps]. cbn [upperState Re.m_prev].
    destruct prev; [reflexivity|]. exact (Hk (Re.mkM None rest caps)).
  - destruct st as [prev rest caps]. cbn [upperState Re.m_rest].
    destruct rest; [|reflexivity]. exact (Hk (Re.mkM prev [] caps)).
Qed.

Lemma exec_at_upper (r : Re.regex) (prev : option ascii) (s : list ascii) :
  caseBlindRegex r = true ->
  Re.exec_at r (option_map upperChar prev) (map upperChar s)
  = option_map upperState (Re.exec_at r prev s).
Proof.
  intros Hr. unfold Re.exec_at.
  exact (rmatch_upper r Hr _ _ upperState (Re.mkM prev s [])
           (fun st => Some st) (fun st => Some st) (fun st => eq_refl)).
Qed.

Lemma consumed_upper (s : list ascii) (st : Re.mstate) :
  List.length (Re.consumed (map upperChar s) (upperState st))
  = List.length (Re.consumed s st).
Proof.
  unfold Re.consumed, upperState. cbn [Re.m_rest].
  rewrite !length_firstn, !length_map. reflexivity.
Qed.

Lemma replace_all_from_upper (r : Re.regex) (rep : list ascii) (s : list ascii) :
  caseBlindRegex r = true ->
  forall prev skip,
    Re.replace_all_from r (map upperChar rep) (option_map upperChar prev)
                        (map upperChar s) skip
    = map upperChar (Re.replace_all_from r rep prev s skip).
Proof.
  intros Hr. induction s as [|c s IH]; intros prev skip.
  - destruct skip; cbn [map Re.replace_all_from]; [|reflexivity].
    change (@nil ascii) with (map upperChar []) at 1.
    rewrite (exec_at_upper r prev [] Hr).
    destruct (Re.exec_at r prev []); reflexivity.
  - destruct skip; cbn [map Re.replace_all_from]; [|exact (IH (Some c) skip)].
    change (upperChar c :: map upperChar s) with (map upperChar (c :: s)).
    rewrite (exec_at_upper r prev (c :: s) Hr).
    destruct (Re.exec_at r prev (c :: s)) as [st|]; cbn [option_map].
    + rewrite consumed_upper.
      destruct (List.length (Re.consumed (c :: s) st)) as [|n].
      * rewrite map_app. cbn [map]. rewrite <- (IH (Some c) 0%nat). reflexivity.
      * rewrite map_app. rewrite <- (IH (Some c) n). reflexivity.
    + cbn [map]. rewrite <- (IH (Some c) 0%nat). reflexivity.
Qed.

Lemma trimStart_upper (s : list ascii) :
  trimStart (map upperChar s) = map upperChar (trimStart s).
Proof.
  induction s as [|c s IH]; [reflexivity|]. cbn [map trimStart].
  rewrite is_space_upperChar. destruct (Re.is_space c); [exact IH|reflexivity].
Qed.

Lemma cleanRegex_caseBlind : caseBlindRegex cleanRegex = true.
Proof. vm_compute. reflexivity. Qed.

(** Cleaning the upper-cased input gives what cleaning the input gives. *)
Lemma clean_toUpperCase (input : string) : clean (toUpperCase input) = clean input.
Proof.
  unfold clean, toUpperCase, trim, Re.replace_all.
  rewrite !list_ascii_of_string_of_list_ascii. f_equal.
  change (list_ascii_of_string " ") with (map upperChar (list_ascii_of_string " ")) at 1.
  rewrite (replace_all_from_upper cleanRegex _ _ cleanRegex_caseBlind None 0).
  rewrite trimStart_upper, <- map_rev, trimStart_upper, <- map_rev.
  rewrite map_map. apply map_ext. apply upperChar_idempotent.
Qed.

(** X14.  Two inputs that differ only in the case of their letters have
    the same output. *)
Theorem parse_ignores_case (input1 input2 : string) :
  toUpperCase input1 = toUpperCase input2 ->
  parseNycAddress input1 = parseNycAddress input2.
Proof.
  intros H. unfold parseNycAddress, tokenize.
  rewrite <- (clean_toUpperCase input1), <- (clean_toUpperCase input2), H. reflexivity.
Qed.

Lemma parse_ignores_case_witness :
  toUpperCase "30 Cranberry bk" = toUpperCase "30 cRANBERRY Bk"
  /\ parseNycAddress "30 Cranberry bk" = parseNycAddress "30 cRANBERRY Bk".
Proof.
  split; [reflexivity|].
  apply (parse_ignores_case "30 Cranberry bk" "30 cRANBERRY Bk"). reflexivity.
Defined.

(** ** A token that begins with a digit is no borough evidence *)

Lemma firstOk_sound (P : ascii -> bool) (r : Re.regex) :
  firstOk P r = true ->
  forall c w, denote r (c :: w) -> P c = true.
Proof.
  assert (Hclass : forall cc c,
             forallb (fun c => implb (Re.in_class cc c) (P c)) Mark.all_ascii = true ->
             Re.in_class cc c = true -> P c = true).
  { intros cc c Hall Hc. rewrite forallb_forall in Hall.
    specialize (Hall c (MarkFacts.in_all_ascii c)). rewrite Hc in Hall. exact Hall. }
  induction r as [|cc|r1 IH1 r2 IH2|r1 IH1 r2 IH2|r1 IH1|cc|cc|n r1 IH1| | |];
    cbn [firstOk denote]; intros Hok c w Hd; try discriminate Hd.
  - destruct Hd as (x & Heq & Hx). inversion Heq; subst. exact (Hclass _ _ Hok Hx).
  - apply andb_true_iff in Hok. destruct Hok as [Hok1 Hok2].
    destruct Hd as (u & v & Heq & Hu & Hv). destruct u as [|x u].
    + apply denote_nil in Hu. rewrite Hu in Hok2. cbn [negb orb] in Hok2.
      simpl in Heq. subst v. exact (IH2 Hok2 _ _ Hv).
    + inversion Heq; subst. exact (IH1 Hok1 _ _ Hu).
  - apply andb_true_iff in Hok. destruct Hok as [Hok1 Hok2].
    destruct Hd as [Hd|Hd]; [exact (IH1 Hok1 _ _ Hd)|exact (IH2 Hok2 _ _ Hd)].
  - destruct Hd as [Hd|Hd]; [discriminate Hd|exact (IH1 Hok _ _ Hd)].
  - cbn [forallb] in Hd. apply andb_true_iff in Hd. exact (Hclass _ _ Hok (proj1 Hd)).
  - destruct Hd as (x & v & Heq & Hx & _). inversion Heq; subst. exact (Hclass _ _ Hok Hx).
  - exact (IH1 Hok _ _ Hd).
Qed.

Lemma lookup_key_In (table : list (string * Z)) (key : string) (v : Z) :
  lookup table key = Some v -> In key (map fst table).
Proof.
  unfold lookup. induction table as [|[k w] rest IH]; [discriminate|].
  destruct (String.eqb_spec k key) as [->|_].
  - intros _. left. reflexivity.
  - intros H. right. apply IH. exact H.
Qed.

Lemma beginsWithFiveDigits_first (t : string) :
  beginsWithFiveDigits t = true -> firstCharIsDigit t = true.
Proof.
  destruct t as [|a [|b [|c [|d [|e t]]]]]; try discriminate.
  cbn [beginsWithFiveDigits firstCharIsDigit]. intros H.
  destruct (Re.is_digit a); [reflexivity|discriminate H].
Qed.

Lemma simpleBoros_no_digit :
  forallb (fun k => negb (firstCharIsDigit k)) (map fst simpleBoros) = true.
Proof. vm_compute. reflexivity. Qed.

Lemma boroRegexes_no_digit :
  forallb (fun p => firstOk notDigit (wholeRegex p)) (List.concat (map snd boroRegexes))
  = true.
Proof. vm_compute. reflexivity. Qed.

(** A token that begins with a digit is no key of [simpleBoros] and fits
    no pattern of [boroRegexes]: the zip test and the borough test of step 3
    never both take a token. *)
Lemma digit_token_no_boro (t : string) :
  firstCharIsDigit t = true -> tokenBoro t = 9%Z.
Proof.
  intros Hd. unfold tokenBoro. cbv zeta.
  destruct (lookup simpleBoros t) as [v|] eqn:Hs.
  - exfalso. apply lookup_key_In in Hs.
    pose proof simpleBoros_no_digit as Hall. rewrite forallb_forall in Hall.
    apply Hall in Hs. rewrite Hd in Hs. discriminate Hs.
  - cbn [orZ]. rewrite Z.eqb_refl.
    destruct (boroRegexLookup boroRegexes t) as [k|] eqn:Hr; [|reflexivity].
    exfalso. apply boroRegexLookup_found in Hr.
    destruct Hr as (ps & p & Hin & Hp & Hm).
    pose proof (In_concat_snd _ _ _ _ Hin Hp) as Hpat.
    assert (Hw : denote (wholeRegex p) (list_ascii_of_string t)).
    { apply wholeString_denote; [|exact Hm].
      unfold wholeStringPatterns. apply in_or_app. left. exact Hpat. }
    pose proof boroRegexes_no_digit as Hall. rewrite forallb_forall in Hall.
    specialize (Hall p Hpat).
    destruct t as [|c t]; [discriminate Hd|]. cbn [list_ascii_of_string] in Hw.
    pose proof (firstOk_sound _ _ Hall _ _ Hw) as Hc.
    cbn [firstCharIsDigit] in Hd. unfold notDigit in Hc. rewrite Hd in Hc. discriminate Hc.
Qed.

(** ** What step 3 found, told by the tokens it popped *)

Lemma scanLoop_tracks (count fuel : nat) (tokens : list string) (st' : scan) :
  scanLoop fuel count (scanStart tokens) = Ok st' -> scanTracks tokens st'.
Proof.
  intros Hrun.
  apply (scanLoop_invariant count (scanTracks tokens)) in Hrun; auto.
  - intros st st1 f Hmore (popped & Heq & Hny & Hboro) Hbody.
    pose proof (moreThanOneLeft_nonempty _ _ Hmore) as Hne.
    assert (Hsplit : tokens = pop (s_tokens st) ++ lastToken (s_tokens st) :: popped).
    { rewrite Heq. rewrite (pop_last _ Hne) at 1. rewrite <- app_assoc. reflexivity. }
    apply scanBody_cases in Hbody.
    destruct Hbody as [Hz H5 -> _|_ Hb -> _|_ Hb -> _]; cbn [s_tokens s_boro s_foundNy].
    + exists (lastToken (s_tokens st) :: popped). split; [exact Hsplit|]. split.
      * cbn [existsb]. unfold nyPhrase at 1.
        rewrite (digit_token_no_boro _ (beginsWithFiveDigits_first _ H5)). exact Hny.
      * destruct Hboro as [H9|(t & Hin & Ht)]; [left; exact H9|].
        right. exists t. split; [right; exact Hin|exact Ht].
    + exists popped. split; [exact Heq|]. split; [exact Hny|]. left. reflexivity.
    + exists (lastToken (s_tokens st) :: popped). split; [exact Hsplit|]. split.
      * cbn [existsb]. unfold nyPhrase at 1. rewrite <- Hny.
        destruct (tokenBoro (lastToken (s_tokens st)) =? 6)%Z; reflexivity.
      * right. exists (lastToken (s_tokens st)). split; [left; reflexivity|reflexivity].
  - exists []. cbn [scanStart s_tokens s_foundNy s_boro existsb].
    split; [rewrite app_nil_r; reflexivity|]. split; [reflexivity|]. left. reflexivity.
Qed.

(** Where the loop of step 3 stops. *)
Lemma scanLoop_exit (count fuel : nat) :
  forall st st',
    scanLoop fuel count st = Ok st' ->
    moreThanOneLeft (s_tokens st') count = false
    \/ (s_boro st' <= 5)%Z
    \/ (tokenBoro (lastToken (s_tokens st')) = 9%Z
        /\ (beginsWithFiveDigits (lastToken (s_tokens st')) = false
            \/ s_zipBoro st' <> 9%Z)).
Proof.
  induction fuel as [|fuel IH]; intros st st' Hrun; [discriminate Hrun|].
  rewrite scanLoop_unfold in Hrun.
  destruct (moreThanOneLeft (s_tokens st) count) eqn:Hmore;
    [|inversion Hrun; subst; left; exact Hmore].
  destruct (scanBody st) as [st1 f] eqn:Hbody.
  apply scanBody_cases in Hbody.
  destruct Hbody as [_ _ -> ->|Hz Hb -> ->|_ Hb -> Hf].
  - exact (IH _ _ Hrun).
  - inversion Hrun; subst st'. cbn [s_tokens s_zipBoro]. right. right.
    split; [exact Hb|]. destruct Hz as [Hz|H5]; [right; exact Hz|left; exact H5].
  - subst f. destruct (tokenBoro (lastToken (s_tokens st)) <? 6)%Z eqn:Hlt.
    + inversion Hrun; subst st'. cbn [s_boro]. right. left.
      apply Z.ltb_lt in Hlt. lia.
    + exact (IH _ _ Hrun).
Qed.

(** C7, amended.  For every token sequence, with [popped] the tokens that
    the loop of step 3 removed from the end (each of them begins with five
    digits or is borough, city, state or country evidence) and [st] the
    state it ended in.  The loop stopped because no more than one token was
    left beyond the house-number count, or because it had popped a token
    standing for one of the five boroughs, or at a last token that is no
    evidence and either does not begin with five digits or comes after a
    zip code was found.  The [postcode] of the output, when present, is
    the last of the popped tokens that begins with five digits, taken
    whole, with more tokens before it than the house-number count; when
    absent, no popped token begins with five digits.  When no popped token
    stands for one of the five boroughs, the borough resolved before the
    Marble Hill step is the one the table gives for the first three digits
    of the postcode, else 1 when one of the popped tokens is a generic "NY"
    phrase, else none; and the output carries that borough unless the Marble Hill step sets the flag
    (borough 1) or finds building 4, 5, 6 or 11 of the Marble Hill Houses
    (borough 2). *)
Theorem C7_postcode_and_fallback (tokens : list string) :
  exists count st r popped,
    countHousenumberTokens (S (List.length tokens)) tokens = Ok count
    /\ scanLoop (S (List.length tokens)) count (scanStart tokens) = Ok st
    /\ parseTokens tokens = Ok r
    /\ tokens = s_tokens st ++ popped
    /\ Forall (fun t => recognised t = true) popped
    /\ (moreThanOneLeft (s_tokens st) count = false
        \/ existsb definitiveBorough popped = true
        \/ (tokenBoro (lastToken (s_tokens st)) = 9%Z
            /\ (beginsWithFiveDigits (lastToken (s_tokens st)) = false
                \/ exists p, postcode r = Some p)))
    /\ match postcode r with
       | Some p =>
           exists between after,
             popped = between ++ p :: after
             /\ beginsWithFiveDigits p = true
             /\ Forall (fun t => beginsWithFiveDigits t = false) after
             /\ (count < List.length (s_tokens st ++ between))%nat
       | None => Forall (fun t => beginsWithFiveDigits t = false) popped
       end
    /\ (existsb definitiveBorough popped = false ->
        (if (fallbackBoro st <? 6)%Z then Some (fallbackBoro st) else None)
        = expectedBorough (postcode r) (existsb nyPhrase popped)
        /\ (borough r = expectedBorough (postcode r) (existsb nyPhrase popped)
            \/ (marble_hill r = Some true /\ borough r = Some 1%Z)
            \/ (mhhBronxBuilding (orEmpty (street r)) = true
                /\ borough r = Some 2%Z))).
Proof.
  destruct (parseTokens_run tokens)
    as (count & st & b & m & Hcount & _ & Hscan & Hmh & Hrun).
  pose proof (scanLoop_zipFound _ _ _ _ Hscan) as Hzip.
  destruct (scanLoop_popped _ _ _ _ Hscan) as (popped & Heq & Hrec).
  destruct (scanLoop_tracks _ _ _ _ Hscan) as (popped' & Heq' & Hny & Hboro).
  assert (popped' = popped) by (apply (app_inv_head (s_tokens st)); congruence).
  subst popped'. clear Heq'.
  pose proof (scanLoop_exit _ _ _ _ Hscan) as Hexit.
  exists count, st. eexists. exists popped.
  split; [exact Hcount|]. split; [exact Hscan|]. split; [exact Hrun|].
  split; [exact Heq|]. split; [exact Hrec|].
  cbn [postcode borough marble_hill street].
  assert (Hfound : s_zipBoro st <> 9%Z -> exists p, nonEmpty (s_postcode st) = Some p).
  { intros Hz. destruct Hzip as (pp & _ & [(_ & Hz9 & _)|(bt & a & _ & H5 & _)]);
      [contradiction|].
    exists (s_postcode st). exact (nonEmpty_five _ H5). }
  assert (Hdef : (s_boro st <= 5)%Z -> existsb definitiveBorough popped = true).
  { intros Hle. destruct Hboro as [H9|(t & Hin & Ht)]; [lia|].
    apply existsb_exists. exists t. split; [exact Hin|].
    unfold definitiveBorough. apply Z.ltb_lt. lia. }
  split; [|split].
  - destruct Hexit as [Hone|[Hle|(Hb & Hlast)]]; [left; exact Hone|right; left; auto|].
    right. right. split; [exact Hb|].
    destruct Hlast as [H5|Hz]; [left; exact H5|right; exact (Hfound Hz)].
  - destruct Hzip as (pp & Heq2 & Hz).
    assert (pp = popped) by (apply (app_inv_head (s_tokens st)); congruence).
    subst pp.
    destruct Hz as [(Hp & _ & Hall)|(bt & a & Hpop & H5 & Hall & Hlen & _)].
    + rewrite Hp. exact Hall.
    + rewrite (nonEmpty_five _ H5). exists bt, a. auto.
  - intros Hnone.
    assert (Hhigh : (5 < s_boro st)%Z).
    { destruct (Z.lt_ge_cases 5 (s_boro st)) as [H|H]; [exact H|].
      rewrite Hdef in Hnone by lia. discriminate Hnone. }
    pose proof (fallback_expected _ _ _ Hzip Hhigh) as Hexp.
    rewrite Hny in Hexp. split; [exact Hexp|]. rewrite nonEmpty_orEmpty.
    apply marbleHillStep_cases in Hmh.
    destruct Hmh as [[-> ->]|[[-> ->]|(-> & -> & Hbx)]].
    + right. left. auto.
    + left. exact Hexp.
    + right. right. auto.
Qed.

(** C7 as stated fails on ["5200 broadway"]: neither token begins with
    five digits or is borough or "NY" evidence, so the claim has the
    borough absent, yet the output has borough 1, set by the Marble Hill
    step. *)
Lemma C7_counterexample :
  tokenize "5200 broadway" = ["5200"; "BROADWAY"]
  /\ existsb recognised ["5200"; "BROADWAY"] = false
  /\ expectedBorough None false = None
  /\ parseNycAddress "5200 broadway"
     = out (Some "5200") (Some "BROADWAY") (Some 1%Z) None (Some true).
Proof.
  vm_compute. repeat split; reflexivity.
Qed.

(** ** Cleaning and tokenizing keep the text of the input *)

Lemma inputText_app (u v : list ascii) : inputText (u ++ v) = inputText u ++ inputText v.
Proof. unfold inputText. apply filter_app. Qed.

Lemma inputText_punctuation (w : list ascii) :
  forallb punctuation w = true -> inputText w = [].
Proof.
  induction w as [|c w IH]; [reflexivity|]. cbn [forallb]. intros H.
  apply andb_true_iff in H. destruct H as [Hc Hw].
  unfold inputText. cbn [filter]. rewrite Hc. exact (IH Hw).
Qed.

Lemma forallb_weaken (A : Type) (P Q : A -> bool) (l : list A) :
  (forall x, P x = true -> Q x = true) -> forallb P l = true -> forallb Q l = true.
Proof.
  intros H. rewrite !forallb_forall. auto.
Qed.

(** A match of the cleaning pattern holds periods, white space and commas
    only. *)
Lemma cleanRegex_punctuation (w : list ascii) :
  denote cleanRegex w -> forallb punctuation w = true.
Proof.
  assert (Hdot : forall l, forallb (Re.in_class (Re.CChar ".")) l = true ->
                           forallb punctuation l = true).
  { intros l. apply forallb_weaken. intros x Hx. unfold punctuation. rewrite Hx.
    reflexivity. }
  assert (Hsep : forall l, forallb (Re.in_class separatorClass) l = true ->
                           forallb punctuation l = true).
  { intros l. apply forallb_weaken. intros x Hx. unfold punctuation. rewrite Hx.
    apply orb_true_r. }
  unfold cleanRegex. cbn [denote]. fold separatorClass.
  intros [(u & v & -> & Hu & (c & v' & -> & Hc & Hv'))
         |(u & v & -> & (c & u' & -> & Hc & Hu') & ->)].
  - rewrite forallb_app, (Hdot _ Hu). apply (Hsep (c :: v')).
    cbn [forallb]. rewrite Hc, Hv'. reflexivity.
  - rewrite app_nil_r. apply (Hdot (c :: u')). cbn [forallb]. rewrite Hc, Hu'.
    reflexivity.
Qed.

Lemma replace_all_from_text (s : list ascii) :
  forall prev skip,
    inputText (Re.replace_all_from cleanRegex (list_ascii_of_string " ") prev s skip)
    = inputText (skipn skip s).
Proof.
  induction s as [|c s IH]; intros prev skip.
  - destruct skip; cbn [Re.replace_all_from]; [|reflexivity].
    destruct (Re.exec_at cleanRegex prev []); reflexivity.
  - destruct skip; cbn [Re.replace_all_from]; [|apply IH].
    destruct (Re.exec_at cleanRegex prev (c :: s)) as [st|] eqn:He.
    + destruct (consumed_nonempty _ _ _ _ clean_not_nullable He) as (n & Hlen & Hc & _).
      rewrite Hlen. rewrite inputText_app, IH.
      apply exec_at_sound in He. destruct He as [_ Hd].
      apply cleanRegex_punctuation, inputText_punctuation in Hd. rewrite Hc in Hd.
      change (inputText (list_ascii_of_string " ")) with (@nil ascii).
      cbn [skipn app].
      replace (inputText (c :: s))
        with (inputText (firstn (S n) (c :: s) ++ skipn (S n) (c :: s)))
        by (rewrite firstn_skipn; reflexivity).
      rewrite inputText_app, Hd. reflexivity.
    + cbn [skipn]. unfold inputText. cbn [filter]. fold (inputText s).
      fold (inputText (Re.replace_all_from cleanRegex (list_ascii_of_string " ")
                         (Some c) s 0)).
      rewrite IH. reflexivity.
Qed.

Lemma inputText_trimStart (s : list ascii) : inputText (trimStart s) = inputText s.
Proof.
  induction s as [|c s IH]; [reflexivity|]. cbn [trimStart].
  destruct (Re.is_space c) eqn:Hc; [|reflexivity].
  rewrite IH. unfold inputText. cbn [filter].
  replace (punctuation c) with true; [reflexivity|].
  unfold punctuation, separatorClass. cbn [Re.in_class existsb Re.in_item].
  rewrite Hc. symmetry. apply orb_true_r.
Qed.

Lemma inputText_rev (s : list ascii) : inputText (rev s) = rev (inputText s).
Proof.
  unfold inputText. induction s as [|c s IH]; [reflexivity|].
  cbn [rev filter]. rewrite filter_app, IH. cbn [filter].
  destruct (negb (punctuation c)); [reflexivity|]. rewrite app_nil_r. reflexivity.
Qed.

Lemma punctuation_upperChar (c : ascii) : punctuation (upperChar c) = punctuation c.
Proof. destruct c as [[] [] [] [] [] [] [] []]; reflexivity. Qed.

Lemma inputText_upper (s : list ascii) :
  inputText (map upperChar s) = map upperChar (inputText s).
Proof.
  unfold inputText. induction s as [|c s IH]; [reflexivity|].
  cbn [map filter]. rewrite punctuation_upperChar, IH.
  destruct (negb (punctuation c)); reflexivity.
Qed.

(** Cleaning takes away periods, white space and commas only, and puts
    the rest in upper case. *)
Lemma clean_keeps_text (input : string) :
  inputText (list_ascii_of_string (clean input))
  = inputText (map upperChar (list_ascii_of_string input)).
Proof.
  unfold clean, toUpperCase, trim, Re.replace_all.
  rewrite !list_ascii_of_string_of_list_ascii.
  rewrite !inputText_upper. f_equal.
  rewrite inputText_rev, inputText_trimStart, inputText_rev, rev_involutive.
  rewrite inputText_trimStart. apply (replace_all_from_text _ None 0%nat).
Qed.

Lemma inputText_nonSpaces (s : list ascii) : inputText (nonSpaces s) = inputText s.
Proof.
  unfold inputText, nonSpaces. induction s as [|c s IH]; [reflexivity|].
  cbn [filter]. destruct (Re.is_space c) eqn:Hc; cbn [negb filter].
  - rewrite IH. replace (punctuation c) with true; [reflexivity|].
    unfold punctuation, separatorClass. cbn [Re.in_class existsb Re.in_item].
    rewrite Hc. symmetry. apply orb_true_r.
  - rewrite IH. reflexivity.
Qed.

(** The text of the tokens is the text of the input. *)
Lemma tokens_keep_text (input : string) :
  inputText (tokenChars (tokenize input))
  = inputText (map upperChar (list_ascii_of_string input)).
Proof.
  rewrite <- clean_keeps_text.
  rewrite <- (inputText_nonSpaces (tokenChars _)), <- (inputText_nonSpaces (list_ascii_of_string _)).
  f_equal. unfold tokenize, Re.match_all. apply match_all_from_keeps.
Qed.

(** ** The function is total and loses no text *)

(** The tokens of the house number: none, or the first token and suffixes. *)
Lemma number_tokens_shape (tokens kept : list string) (count : nat) :
  countHousenumberTokens (S (List.length tokens)) tokens = Ok count ->
  kept = firstn (List.length kept) tokens ->
  (Nat.min count (List.length tokens) <= List.length kept)%nat ->
  if firstCharIsDigit (hd "" tokens)
  then exists suffixes,
         firstn (settleAmbiguous kept count) kept = hd "" tokens :: suffixes
         /\ Forall (fun t => includes (housenumberTokens ++ ambiguousTokens) t = true)
                   suffixes
  else firstn (settleAmbiguous kept count) kept = [].
Proof.
  intros Hcount Hprefix Hlen.
  unfold countHousenumberTokens in Hcount. rewrite beginsWithDigit_spec in Hcount.
  destruct (firstCharIsDigit (hd "" tokens)) eqn:Hd.
  - destruct tokens as [|t0 ts]; [discriminate Hd|]. cbn [hd] in *.
    destruct (housenumberLoop_spec (S (List.length (t0 :: ts))) (t0 :: ts) 1)
      as (n & Hrun1 & Hge & Hmax & Htrue & _); [simpl; lia|].
    rewrite Hrun1 in Hcount. inversion Hcount; subst n. clear Hcount Hrun1.
    assert (Hk : (count <= List.length kept)%nat) by (simpl in *; lia).
    pose proof (settleAmbiguous_le kept count Hk) as Hsettle.
    assert (Hfirst : firstn (settleAmbiguous kept count) kept
                     = t0 :: firstn (settleAmbiguous kept count - 1) ts).
    { generalize dependent (settleAmbiguous kept count). intros n' Hn'.
      rewrite Hprefix, firstn_firstn.
      replace (Nat.min n' (List.length kept)) with (S (n' - 1)) by lia.
      reflexivity. }
    rewrite Hfirst. exists (firstn (settleAmbiguous kept count - 1) ts).
    split; [reflexivity|].
    apply Forall_forall. intros x Hx. apply In_nth_error in Hx. destruct Hx as (i & Hi).
    rewrite nth_error_firstn in Hi.
    destruct (Nat.ltb_spec i (settleAmbiguous kept count - 1)) as [Hlt|]; [|discriminate Hi].
    change (nth_error ts i) with (nth_error (t0 :: ts) (S i)) in Hi.
    destruct (Nat.lt_ge_cases (S i) count) as [Hin|Hout].
    + apply (absorbs_suffix _ _ _ Hi). apply Htrue. lia.
    + destruct (settleAmbiguous_cases kept count) as [Heq|(Heq & Hmore & Hamb)]; [lia|].
      assert (Hi' : S i = count) by lia.
      rewrite Hprefix, nth_error_firstn in Hamb.
      destruct (Nat.ltb_spec count (List.length kept)) as [_|]; [|lia].
      rewrite <- Hi', Hi in Hamb. cbn [orEmpty] in Hamb.
      rewrite includes_app, Hamb. apply orb_true_r.
  - inversion Hcount; subst count.
    replace (settleAmbiguous kept 0) with 0%nat by reflexivity. reflexivity.
Qed.

(** C9.  For every input string the function returns a record (no
    [TypeError], no loop left running), and no text is lost on the way.
    The characters of the tokens other than periods, white space and
    commas are, in order, those of the input in upper case.  The tokens
    split, in order, into those of the [housenumber], those of the
    [street] and the popped ones, the two fields being their tokens joined
    by single spaces.  Every popped token was recognised as a zip code or
    as borough, city, state or country evidence; the tokens of the house
    number are none when the first token does not begin with a digit, and
    otherwise the first token followed by tokens of [housenumberTokens] or
    [ambiguousTokens] only; and a token is popped only when the street
    keeps one.  So every token that is not recognised, other than a leading
    number and its suffixes, ends up in the [street].  On the empty string
    no key is set. *)
Theorem C9_total (input : string) :
  (exists r hn st popped,
      parseNycAddress input = Ok r
      /\ inputText (tokenChars (tokenize input))
         = inputText (map upperChar (list_ascii_of_string input))
      /\ tokenize input = hn ++ st ++ popped
      /\ housenumber r = nonEmpty (join hn)
      /\ street r = nonEmpty (join st)
      /\ Forall (fun t => recognised t = true) popped
      /\ (if firstCharIsDigit (hd "" (tokenize input))
          then exists suffixes,
                 hn = hd "" (tokenize input) :: suffixes
                 /\ Forall (fun t => includes (housenumberTokens ++ ambiguousTokens) t
                                     = true) suffixes
          else hn = [])
      /\ (st = [] -> popped = []))
  /\ parseNycAddress "" = Ok (mkOutput None None None None None).
Proof.
  split; [|vm_compute; reflexivity].
  unfold parseNycAddress.
  destruct (parseTokens_run (tokenize input))
    as (count & st & b & m & Hcount & Hle & Hscan & _ & Hrun).
  destruct (scanLoop_popped _ _ _ _ Hscan) as (popped & Heq & Hall).
  pose proof (scanLoop_length _ _ _ _ Hscan) as Hlen.
  pose proof (scanLoop_prefix _ _ _ _ Hscan) as Hprefix.
  rewrite Hrun. eexists.
  exists (firstn (settleAmbiguous (s_tokens st) count) (s_tokens st)),
         (skipn (settleAmbiguous (s_tokens st) count) (s_tokens st)), popped.
  split; [reflexivity|]. split; [apply tokens_keep_text|]. split.
  { rewrite app_assoc, firstn_skipn. exact Heq. }
  split.
  { cbn [housenumber]. unfold housenumberText.
    destruct (settleAmbiguous (s_tokens st) count); reflexivity. }
  split; [reflexivity|]. split; [exact Hall|]. split.
  { apply (number_tokens_shape _ _ _ Hcount Hprefix). lia. }
  intros Hnone. apply (f_equal (@List.length string)) in Hnone.
  rewrite length_skipn in Hnone. cbn [List.length] in Hnone.
  destruct (Nat.lt_ge_cases count (List.length (tokenize input))) as [Hlt|Hge].
  - pose proof (scanLoop_keeps_one _ _ _ _ Hlt Hscan) as Hkept.
    pose proof (settleAmbiguous_lt _ _ Hkept). lia.
  - assert (Hsame : List.length (s_tokens st) = List.length (tokenize input)) by lia.
    apply (f_equal (@List.length string)) in Heq. rewrite length_app in Heq.
    destruct popped; [reflexivity|]. simpl in Heq. lia.
Qed.
